(** * Emergency notification handlers and the frontend API client

    A shallow embedding of
    - [backend/src/controllers/emergency.controller.js]
      ([getEmergencyInfo], [shareEmergencyInfo], [mailEmergencyContacts],
      [shareSummary], [generateHealthReportSummary]),
    - [frontend/lib/api.ts] ([ApiClient.request] and the methods around it,
      [handleTokenRefresh], [getAuthHeaders]), and
    - [frontend/utils/api.ts] ([getAgentById]),
    followed by the properties of the fan-out delivery, of the rendered
    texts, of the response normalisation and of the token refresh.

    Conventions of the embedding.
    - JavaScript strings are [string]s of bytes (UTF-8); a template literal
      is a chain of [++] whose line breaks are written [nl]; [trim] removes
      the white space of ECMAScript, in ASCII and outside it.
    - A field that may be [undefined] is an [option]; interpolating it in a
      template literal prints ["undefined"] ([show_str], [show_num]).
    - A Number is given by its sign, decimal digits and exponent, the
      decomposition [Number::toString] prints it from ([number]); a date is
      its time value, an integer.
    - Records read from the document store reach the handlers already
      resolved; the clock and the date formatter are fields of [Env].
    - The mailer [sendEmergencyEmail] (utils/mailer.js) is a field of [Env]:
      for every message it either fulfils with some value or rejects with an
      [Error] carrying a message; when the send to an address settles is a
      field of [Env] too.
    - A handler returns the console/mail events it performed, in order,
      together with the HTTP response it sent.
    - In the browser, an access to [localStorage] or to [window.location]
      either is carried out or throws; which accesses throw is a field of
      the platform. *)

From Stdlib Require Import String Ascii List ZArith Bool Lia.
From Stdlib Require Import DecimalString DecimalPos DecimalFacts.
Import ListNotations.
Open Scope string_scope.
Set Warnings "-register-all".

(* ================================================================== *)
(** ** JavaScript string primitives *)

Definition nl : string := String "010" "".

(** The white space and line terminators that [String.prototype.trim]
    removes. In ASCII: TAB, LF, VT, FF, CR and the space. *)
Definition is_ws (c : ascii) : bool :=
  match nat_of_ascii c with
  | 9 | 10 | 11 | 12 | 13 | 32 => true
  | _ => false
  end.

Definition byte (n : nat) (c : ascii) : bool := (nat_of_ascii c =? n)%nat.

(** Outside ASCII, in UTF-8. In two bytes: U+00A0. *)
Definition is_ws2 (a b : ascii) : bool := byte 194 a && byte 160 b.

(** In three bytes: U+1680; U+2000 to U+200A, U+2028, U+2029 and U+202F;
    U+205F; U+3000; U+FEFF. *)
Definition is_ws3 (a b c : ascii) : bool :=
  (byte 225 a && byte 154 b && byte 128 c)
  || (byte 226 a && byte 128 b
      && (((128 <=? nat_of_ascii c)%nat && (nat_of_ascii c <=? 138)%nat)
          || byte 168 c || byte 169 c || byte 175 c))
  || (byte 226 a && byte 129 b && byte 159 c)
  || (byte 227 a && byte 128 b && byte 128 c)
  || (byte 239 a && byte 187 b && byte 191 c).

Fixpoint trimStart (s : string) : string :=
  match s with
  | EmptyString => EmptyString
  | String a r =>
      if is_ws a then trimStart r
      else
        match r with
        | String b r2 =>
            if is_ws2 a b then trimStart r2
            else
              match r2 with
              | String c r3 => if is_ws3 a b c then trimStart r3 else s
              | EmptyString => s
              end
        | EmptyString => s
        end
  end.

(** Nothing but white space *)
Definition blank (s : string) : bool :=
  match trimStart s with
  | EmptyString => true
  | String _ _ => false
  end.

(** The text up to its last character that is not white space: what
    follows the first position from which all is white space is dropped. *)
Fixpoint trimEnd (s : string) : string :=
  match s with
  | EmptyString => EmptyString
  | String c r => if blank s then EmptyString else String c (trimEnd r)
  end.

Definition trim (s : string) : string := trimEnd (trimStart s).

Arguments trimStart s : simpl never.
Arguments trimEnd s : simpl never.

(** An ASCII character other than white space *)
Definition plain (c : ascii) : bool :=
  (nat_of_ascii c <? 128)%nat && negb (is_ws c).

Fixpoint has_plain (s : string) : bool :=
  match s with
  | EmptyString => false
  | String c r => plain c || has_plain r
  end.

(** [s.includes(sub)] *)
Fixpoint includes (s sub : string) : bool :=
  prefix sub s ||
  match s with
  | EmptyString => false
  | String _ r => includes r sub
  end.

(** [arr.join(sep)] on an array of strings *)
Definition join (sep : string) (l : list string) : string :=
  String.concat sep l.

(** A Number, as [Number::toString] reads it: not a number, an infinity,
    a zero, or a finite value other than zero, given by its sign, by the
    integer [s] that its shortest decimal representation spells and by the
    exponent [n]: with [k] the number of digits of [s], the value is
    [s * 10^(n - k)]. So 98.6 is [Finite false 986 2], 120 is
    [Finite false 12 3] and 0.05 is [Finite false 5 (-1)]; [s] is not a
    multiple of ten. *)
Inductive number :=
| NaN
| Infinity (negative : bool)
| Zero
| Finite (negative : bool) (s : positive) (n : Z).

Fixpoint zeros (n : nat) : string :=
  match n with
  | O => EmptyString
  | S m => String "0" (zeros m)
  end.

(** The [k] digits of [s] *)
Definition digits_of (s : positive) : string :=
  NilEmpty.string_of_uint (Pos.to_uint s).

(** ["e"], the sign of the exponent and its decimal digits *)
Definition exponent_part (e : Z) : string :=
  "e" ++ (if (e <? 0)%Z then "-" else "+")
      ++ NilZero.string_of_int (Z.to_int (Z.abs e)).

(** [Number::toString] on a positive finite value: plain notation when
    [-6 < n <= 21], scientific notation otherwise. *)
Definition finite_to_string (s : positive) (n : Z) : string :=
  let d := digits_of s in
  let k := Z.of_nat (String.length d) in
  if (k <=? n)%Z && (n <=? 21)%Z then
    d ++ zeros (Z.to_nat (n - k))
  else if (0 <? n)%Z && (n <=? 21)%Z then
    substring 0 (Z.to_nat n) d ++ "." ++
    substring (Z.to_nat n) (Z.to_nat (k - n)) d
  else if (-6 <? n)%Z && (n <=? 0)%Z then
    "0." ++ zeros (Z.to_nat (- n)) ++ d
  else
    match d with
    | String c EmptyString => String c (exponent_part (n - 1))
    | String c r => String c ("." ++ r) ++ exponent_part (n - 1)
    | EmptyString => EmptyString
    end.

(** [String(x)] for a Number [x], which is also what a template literal
    prints *)
Definition number_to_string (x : number) : string :=
  match x with
  | NaN => "NaN"
  | Infinity negative => if negative then "-Infinity" else "Infinity"
  | Zero => "0"
  | Finite negative s n =>
      (if negative then "-" else "") ++ finite_to_string s n
  end.

(** The digits of a numeral without its trailing zeros *)
Fixpoint significant (d : Decimal.uint) : Decimal.uint :=
  match d with
  | Decimal.Nil => Decimal.Nil
  | Decimal.D0 r =>
      match significant r with
      | Decimal.Nil => Decimal.Nil
      | r' => Decimal.D0 r'
      end
  | Decimal.D1 r => Decimal.D1 (significant r)
  | Decimal.D2 r => Decimal.D2 (significant r)
  | Decimal.D3 r => Decimal.D3 (significant r)
  | Decimal.D4 r => Decimal.D4 (significant r)
  | Decimal.D5 r => Decimal.D5 (significant r)
  | Decimal.D6 r => Decimal.D6 (significant r)
  | Decimal.D7 r => Decimal.D7 (significant r)
  | Decimal.D8 r => Decimal.D8 (significant r)
  | Decimal.D9 r => Decimal.D9 (significant r)
  end.

(** The Number that is the integer [z] *)
Definition integer (z : Z) : number :=
  let reading (negative : bool) (p : positive) :=
    match Pos.of_uint (significant (Pos.to_uint p)) with
    | Npos s =>
        Finite negative s (Z.of_nat (Decimal.nb_digits (Pos.to_uint p)))
    | N0 => Zero
    end in
  match z with
  | Z0 => Zero
  | Zpos p => reading false p
  | Zneg p => reading true p
  end.

Coercion integer : Z >-> number.

(** [`${x}`] for a string-or-undefined and a number-or-undefined *)
Definition show_str (o : option string) : string :=
  match o with Some s => s | None => "undefined" end.

Definition show_num (o : option number) : string :=
  match o with Some x => number_to_string x | None => "undefined" end.

(** Truthiness of a Number: [NaN] and the zeros are falsy. *)
Definition truthy_number (x : number) : bool :=
  match x with
  | NaN | Zero => false
  | Infinity _ | Finite _ _ _ => true
  end.

(** Truthiness of a string-or-undefined and of a number-or-undefined *)
Definition truthy_str (o : option string) : bool :=
  match o with Some s => negb (s =? "") | None => false end.

Definition truthy_num (o : option number) : bool :=
  match o with Some x => truthy_number x | None => false end.

(** [`${x || d}`] *)
Definition or_str (o : option string) (d : string) : string :=
  if truthy_str o then show_str o else d.

Definition or_num (o : option number) (d : string) : string :=
  if truthy_num o then show_num o else d.

(** [`${arr?.join(", ") || d}`] *)
Definition join_or (o : option (list string)) (d : string) : string :=
  or_str (option_map (join ", ") o) d.

(** Occurrence of a pattern, the specification of [includes]. *)
Definition occurs (p s : string) : Prop :=
  exists a b, s = a ++ p ++ b.

Fixpoint mem_char (c : ascii) (s : string) : bool :=
  match s with
  | EmptyString => false
  | String d r => Ascii.eqb c d || mem_char c r
  end.

Fixpoint last_char (s : string) : option ascii :=
  match s with
  | EmptyString => None
  | String c EmptyString => Some c
  | String _ r => last_char r
  end.

Definition first_char (s : string) : option ascii :=
  match s with
  | EmptyString => None
  | String c _ => Some c
  end.

Definition mem_opt (o : option ascii) (s : string) : bool :=
  match o with Some c => mem_char c s | None => false end.

(** Splitting a literal at its first character that does not belong to
    the pattern [p]: the part before it and the part after it. *)
Fixpoint break_at_sep (p s : string) : option (string * string) :=
  match s with
  | EmptyString => None
  | String c r =>
      if mem_char c p then
        match break_at_sep p r with
        | Some (u, v) => Some (String c u, v)
        | None => None
        end
      else Some (EmptyString, r)
  end.

(** The part of [s] after its last character foreign to [p]
    ([s] itself when it has none). *)
Fixpoint after_last_sep (p s : string) : string :=
  match s with
  | EmptyString => EmptyString
  | String c r =>
      match break_at_sep p r with
      | Some _ => after_last_sep p r
      | None => if mem_char c p then s else r
      end
  end.

(** A literal after which no occurrence of [p] can end, when [p] does
    not occur in what precedes it. *)
Definition leftguardb (p l : string) : bool :=
  match break_at_sep p l with
  | Some (u, r) => negb (mem_opt (last_char p) u) && negb (includes r p)
  | None => false
  end.

(** A literal across which no occurrence of [p] can reach. *)
Definition barrierb (p l : string) : bool :=
  leftguardb p l &&
  match break_at_sep p l with
  | Some (_, r) => negb (mem_opt (first_char p) (after_last_sep p r))
  | None => false
  end.

(** What the two tests establish: [s] is a left guard for [p] when an
    occurrence of [p] in [a ++ s] lies in [a], and a barrier when an
    occurrence in [a ++ s ++ b] lies in [a] or in [b]. *)
Definition leftguard (p s : string) : Prop :=
  forall a, includes (a ++ s) p = true -> includes a p = true.

Definition barrier (p s : string) : Prop :=
  forall a b,
    includes (a ++ s ++ b) p = true ->
    includes a p = true \/ includes b p = true.

(** The characters a printed Number is made of *)
Definition is_num_char (c : ascii) : bool :=
  mem_char c "0123456789-+.eInfinityNaN".

Fixpoint all_num_chars (s : string) : bool :=
  match s with
  | EmptyString => true
  | String c r => is_num_char c && all_num_chars r
  end.

Fixpoint has_foreign_char (p : string) : bool :=
  match p with
  | EmptyString => false
  | String c r => negb (is_num_char c) || has_foreign_char r
  end.

(* ================================================================== *)
(** ** Records of the document store *)

(** [req.user], set by the authentication middleware *)
Record User := {
  user_name : string;
  user_email : string
}.

Record Profile := {
  blood_group : option string;
  age : option number;
  gender : option string;
  allergies : option (list string);
  existing_conditions : option (list string);
  family_doctor_email : option (list string)
}.

Record Medication := {
  medicine_name : option string;
  dosage : option string;
  frequency : option string;
  timing : list string;
  stock_count : option number
}.

Record Vital := {
  bp_systolic : option number;
  bp_diastolic : option number;
  sugar : option number;
  temperature : option number;
  weight : option number;
  timestamp : Z                    (* the time value of the date *)
}.

Record Contact := {
  contact_id : option string;      (* [c._id?.toString()] *)
  contact_name : option string;
  relation : option string;
  phone : option string;
  email : option string
}.

Record Family := {
  family_name : option string;
  emergency_contacts : option (list Contact)
}.



(* ================================================================== *)
(** ** The mailer, the environment and the effects of a handler *)

(** What a fulfilled [sendEmergencyEmail] promise holds: nothing
    ([undefined]) or an object without an [error] property, such as the
    transport's delivery report. *)
Inductive fulfilled_value :=
| FUndefined
| FInfo.

Inductive send_outcome :=
| Fulfilled (v : fulfilled_value)
| Rejected (message : string).     (* an [Error] and its [message] *)

Record Env := {
  now : Z;                                   (* [new Date()] *)
  toLocaleString : Z -> string;              (* [date.toLocaleString()] *)
  DEFAULT_EMERGENCY_EMAIL : option string;   (* [process.env] *)
  sendEmergencyEmail : string -> string -> string -> send_outcome;
  settles_at : string -> nat     (* when the send to an address settles *)
}.

(** An element of [results] in [shareSummary]: the fulfilled value of a
    send, or the object built by its [.catch] handler. *)
Inductive result :=
| RUndefined
| RInfo
| RFailure (r_email : string) (r_error : string).

Inductive log_detail :=
| LogMessage (message : string)
| LogFailures (failures : list result).

Inductive event :=
| Send (to subject text : string)
| ConsoleError (label : string) (detail : log_detail).

(** The JSON bodies the handlers send:
    [{ error }], [{ success: false, error }], [{ message, recipients }],
    [{ message, sharedWith }] and
    [{ success: true, message, sentTo, failures }]. *)
Inductive body :=
| ErrorOnly (error : string)
| Failure (error : string)
| MailSent (message : string) (recipients : list string)
| InfoShared (message : string) (sharedWith : string)
| SummaryShared (message : string) (sentTo : list string)
                (failures : option (list result)).

Record response := {
  status : nat;
  json : body
}.

Definition reply (code : nat) (b : body) : response :=
  {| status := code; json := b |}.

(** Message of the [TypeError] raised by reading a property of
    [undefined]. *)
Definition cannot_read (prop : string) : string :=
  "Cannot read properties of undefined (reading '" ++ prop ++ "')".

(** The sends started by [list.map(x => sendEmergencyEmail(...))]: every
    call is issued before any promise is awaited. *)
Definition send_all (env : Env) (subject text : string) (tos : list string)
  : list event * list send_outcome :=
  (map (fun to => Send to subject text) tos,
   map (fun to => sendEmergencyEmail env to subject text) tos).

(** Among sends given with the time at which each settles, the rejected
    send that settles first (the earliest of the list among those that
    settle together): when it settles and the message of its error. *)
Fixpoint earliest_rejection (l : list (nat * send_outcome))
  : option (nat * string) :=
  match l with
  | [] => None
  | (t, o) :: r =>
      match o, earliest_rejection r with
      | Rejected m, Some (t', m') =>
          if (t' <? t)%nat then Some (t', m') else Some (t, m)
      | Rejected m, None => Some (t, m)
      | Fulfilled _, e => e
      end
  end.

(** [await Promise.all(promises)] on sends without a handler of their own:
    it rejects as soon as one send rejects, with that send's error. *)
Definition first_rejection (l : list (nat * send_outcome)) : option string :=
  option_map snd (earliest_rejection l).

Definition medication_line (m : Medication) : string :=
  "- " ++ show_str (medicine_name m) ++ " (" ++ show_str (dosage m) ++ ")".

(** The [Medications:] block shared by the two short e-mails *)
Definition medication_lines (medications : list Medication) : string :=
  if (0 <? List.length medications)%nat
  then join nl (map medication_line medications)
  else "None".

Definition profile_field {A} (profile : option Profile) (f : Profile -> option A)
  : option A :=
  match profile with Some p => f p | None => None end.

(* ================================================================== *)
(** ** POST /api/emergency/share/:contactId *)

(** [list.find(c => c._id?.toString() === contactId)] *)
Definition find_contact (contactId : string) (l : list Contact)
  : option Contact :=
  find (fun c => match contact_id c with
                 | Some i => i =? contactId
                 | None => false
                 end) l.

(** [a || b] on strings-or-undefined *)
Definition or_opt (a b : option string) : option string :=
  if truthy_str a then a else b.

Definition contact_field (contact : option Contact)
  (f : Contact -> option string) : option string :=
  match contact with Some c => f c | None => None end.

Definition shareEmergencyInfo_text (user : User) (profile : option Profile)
  (medications : list Medication) (contactEmail : string) : string :=
  trim (nl ++
  "Emergency Information for " ++ user_name user ++ nl ++
  nl ++
  "Blood Group: " ++ or_str (profile_field profile blood_group) "Not Provided" ++ nl ++
  "Allergies: " ++ join_or (profile_field profile allergies) "None" ++ nl ++
  "Existing Conditions: " ++ join_or (profile_field profile existing_conditions) "None" ++ nl ++
  nl ++
  "Medications:" ++ nl ++
  medication_lines medications ++ nl ++
  nl ++
  "Sent to: " ++ contactEmail ++ nl ++
  "    ").

Definition shareEmergencyInfo (env : Env) (user : User) (contactId : string)
  (family : option Family) (profile : option Profile)
  (medications : list Medication) : list event * response :=
  let failed (m : string) :=
    ([ConsoleError "❌ shareEmergencyInfo error:" (LogMessage m)],
     reply 500 (ErrorOnly m)) in
  match
    match family with
    | None => Some None                                (* [family?.] *)
    | Some f =>
        match emergency_contacts f with
        | None => None                                 (* [undefined.find] *)
        | Some l => Some (find_contact contactId l)
        end
    end
  with
  | None => failed (cannot_read "find")
  | Some contact =>
      let contactEmail :=
        or_opt (contact_field contact email) (DEFAULT_EMERGENCY_EMAIL env) in
      if negb (truthy_str contactEmail) then
        ([], reply 400 (ErrorOnly "Emergency contact email not found."))
      else
        let to := show_str contactEmail in
        let emailText := shareEmergencyInfo_text user profile medications to in
        let sent := Send to "Emergency Medical Info" emailText in
        match sendEmergencyEmail env to "Emergency Medical Info" emailText with
        | Rejected m =>
            (sent :: fst (failed m), snd (failed m))
        | Fulfilled _ =>
            ([sent],
             reply 200 (InfoShared "Emergency info emailed successfully" to))
        end
  end.

(* ================================================================== *)
(** ** POST /api/emergency/mail-contacts *)

(** A value of the JSON request body *)
Inductive jsvalue :=
| JUndefined
| JNull
| JBoolean (b : bool)
| JNumber (n : number)
| JString (s : string)
| JArray (l : list jsvalue)
| JObject (fields : list (string * jsvalue)).

Definition truthy (v : jsvalue) : bool :=
  match v with
  | JUndefined | JNull => false
  | JBoolean b => b
  | JNumber n => truthy_number n
  | JString s => negb (s =? "")
  | JArray _ | JObject _ => true
  end.

Arguments JNumber n%_Z.

Definition isArray (v : jsvalue) : bool :=
  match v with JArray _ => true | _ => false end.

Definition elements (v : jsvalue) : list jsvalue :=
  match v with JArray l => l | _ => [] end.

(** [e => typeof e === 'string' && e.includes("@")] *)
Definition is_email_string (e : jsvalue) : bool :=
  match e with JString s => includes s "@" | _ => false end.

Definition as_string (e : jsvalue) : string :=
  match e with JString s => s | _ => "" end.

Definition mailEmergencyContacts_text (env : Env) (user : User)
  (profile : option Profile) (medications : list Medication) : string :=
  trim (nl ++
  "Emergency Health Summary for " ++ user_name user ++ nl ++
  nl ++
  "Email: " ++ user_email user ++ nl ++
  "Blood Group: " ++ or_str (profile_field profile blood_group) "Not Provided" ++ nl ++
  "Allergies: " ++ join_or (profile_field profile allergies) "None" ++ nl ++
  "Conditions: " ++ join_or (profile_field profile existing_conditions) "None" ++ nl ++
  nl ++
  "Medications:" ++ nl ++
  medication_lines medications ++ nl ++
  nl ++
  "Sent on: " ++ toLocaleString env (now env) ++ nl ++
  "    ").

Definition mail_subject : string := "🩺 Emergency Medical Info".

Definition mailEmergencyContacts (env : Env) (user : User)
  (contacts : jsvalue) (profile : option Profile)
  (medications : list Medication) : list event * response :=
  if negb (truthy contacts) || negb (isArray contacts)
     || (List.length (elements contacts) =? 0)%nat
  then ([], reply 400 (ErrorOnly "No contacts provided."))
  else
    let emails := map as_string (filter is_email_string (elements contacts)) in
    if (List.length emails =? 0)%nat
    then ([], reply 400 (ErrorOnly "No valid email addresses found."))
    else
      let emailText := mailEmergencyContacts_text env user profile medications in
      let '(sends, emailPromises) := send_all env mail_subject emailText emails in
      match first_rejection (combine (map (settles_at env) emails) emailPromises)
      with
      | Some m =>
          ((sends ++ [ConsoleError "❌ mailEmergencyContacts error:" (LogMessage m)])%list,
           reply 500 (ErrorOnly m))
      | None =>
          (sends,
           reply 200 (MailSent "Emergency info sent successfully." emails))
      end.

(* ================================================================== *)
(** ** POST /api/emergency/share-summary *)

Definition personal_block (profile : option Profile) : string :=
  match profile with
  | Some p =>
      "Blood Group: " ++ or_str (blood_group p) "Not Provided" ++ nl ++
      "Age: " ++ or_num (age p) "Not Provided" ++ nl ++
      "Gender: " ++ or_str (gender p) "Not Provided"
  | None => "No profile information available"
  end.

Definition medical_block (profile : option Profile) : string :=
  match profile with
  | Some p =>
      "Allergies: " ++ join_or (allergies p) "None reported" ++ nl ++
      "Existing Conditions: " ++ join_or (existing_conditions p) "None reported" ++ nl ++
      "Family Doctor Email: " ++ join_or (family_doctor_email p) "None registered"
  | None => "No medical information available"
  end.

Definition medication_item (med : Medication) : string :=
  "- " ++ show_str (medicine_name med) ++ " (" ++ show_str (dosage med) ++ ")" ++ nl ++
  "    Frequency: " ++ show_str (frequency med) ++ nl ++
  "    Timing: " ++ join ", " (timing med) ++ nl ++
  "    Stock: " ++ show_num (stock_count med) ++ " units remaining".

Definition medications_block (medications : list Medication) : string :=
  if (0 <? List.length medications)%nat
  then join (nl ++ nl) (map medication_item medications)
  else "No current medications".

(** [vitalsArray.length > 0 ? `...${vitalsArray[0]...}` : ""] *)
Definition vitals_block (env : Env) (vitalsArray : list Vital) : string :=
  match vitalsArray with
  | v :: _ =>
      nl ++
      "RECENT VITAL SIGNS" ++ nl ++
      "----------------" ++ nl ++
      "Blood Pressure: " ++ show_num (bp_systolic v) ++ "/" ++ show_num (bp_diastolic v) ++ " mmHg" ++ nl ++
      "Blood Sugar: " ++ show_num (sugar v) ++ " mg/dL" ++ nl ++
      "Temperature: " ++ show_num (temperature v) ++ "°F" ++ nl ++
      "Weight: " ++ show_num (weight v) ++ " kg" ++ nl ++
      "Recorded on: " ++ toLocaleString env (timestamp v)
  | [] => ""
  end.

Definition contact_item (contact : Contact) : string :=
  "- " ++ show_str (contact_name contact) ++ " (" ++ show_str (relation contact) ++ ")" ++ nl ++
  "    Phone: " ++ or_str (phone contact) "Not provided" ++ nl ++
  "    Email: " ++ show_str (email contact).

Definition contacts_block (contacts : list Contact) : string :=
  join nl (map contact_item contacts).

Definition instructions_block : string :=
  "EMERGENCY INSTRUCTIONS" ++ nl ++
  "--------------------" ++ nl ++
  "1. This is an automated health summary. Please contact emergency services if needed." ++ nl ++
  "2. Contact family doctor or nearest emergency room for medical assistance." ++ nl ++
  "3. Always verify medication information with healthcare provider." ++ nl ++
  "4. For immediate assistance, contact the primary emergency contact listed above." ++ nl ++
  nl ++
  "This is an automated emergency health summary. Please do not reply.".

(** The template literal of [summaryText] between its first line break
    and the line break before the closing back quote *)
Definition summary_body (env : Env) (user : User)
  (profile : option Profile) (medications : list Medication)
  (familyName : option string) (contacts : list Contact)
  (vitalsArray : list Vital) : string :=
  "HEALTH SUMMARY REPORT" ++ nl ++
  "--------------------" ++ nl ++
  "Generated on: " ++ toLocaleString env (now env) ++ nl ++
  nl ++
  "PERSONAL INFORMATION" ++ nl ++
  "------------------" ++ nl ++
  "Name: " ++ user_name user ++ nl ++
  "Email: " ++ user_email user ++ nl ++
  "Family Group: " ++ show_str familyName ++ nl ++
  personal_block profile ++ nl ++
  nl ++
  "MEDICAL INFORMATION" ++ nl ++
  "-----------------" ++ nl ++
  medical_block profile ++ nl ++
  nl ++
  "CURRENT MEDICATIONS" ++ nl ++
  "-----------------" ++ nl ++
  medications_block medications ++ nl ++
  nl ++
  vitals_block env vitalsArray ++ nl ++
  nl ++
  "EMERGENCY CONTACTS" ++ nl ++
  "----------------" ++ nl ++
  contacts_block contacts ++ nl ++
  nl ++
  instructions_block.

(** The template literal of [summaryText], before [.trim()] *)
Definition summary_template (env : Env) (user : User)
  (profile : option Profile) (medications : list Medication)
  (familyName : option string) (contacts : list Contact)
  (vitalsArray : list Vital) : string :=
  nl ++
  summary_body env user profile medications familyName contacts vitalsArray
  ++ nl ++
  "    ".

Definition summaryText (env : Env) (user : User)
  (profile : option Profile) (medications : list Medication)
  (familyName : option string) (contacts : list Contact)
  (vitalsArray : list Vital) : string :=
  trim (summary_template env user profile medications familyName contacts
          vitalsArray).

(** [c => c.email && c.email.includes("@")] *)
Definition valid_contact (c : Contact) : bool :=
  truthy_str (email c) && includes (show_str (email c)) "@".

Definition summary_subject (user : User) : string :=
  "🩺 Emergency Health Summary for " ++ user_name user.

(** The value of one element of [emailPromises]: the send with its
    [.catch(error => ({ email: contact.email, error: error.message }))]. *)
Definition settle (contact : Contact) (o : send_outcome) : result :=
  match o with
  | Fulfilled FUndefined => RUndefined
  | Fulfilled FInfo => RInfo
  | Rejected m => RFailure (show_str (email contact)) m
  end.

(** [r.error]: [None] when reading it throws a [TypeError]. *)
Definition error_of (r : result) : option (option string) :=
  match r with
  | RUndefined => None
  | RInfo => Some None
  | RFailure _ e => Some (Some e)
  end.

(** [results.filter(r => r.error)]: [None] when the callback throws. *)
Fixpoint filter_failures (results : list result) : option (list result) :=
  match results with
  | [] => Some []
  | r :: rest =>
      match error_of r with
      | None => None
      | Some e =>
          match filter_failures rest with
          | None => None
          | Some fs => Some (if truthy_str e then r :: fs else fs)
          end
      end
  end.

Definition has_error (r : result) : bool :=
  match error_of r with
  | Some e => truthy_str e
  | None => false
  end.

(** [validContacts.filter((_, i) => !results[i].error).map(c => c.email)] *)
Definition sentTo_of (validContacts : list Contact) (results : list result)
  : list string :=
  map (fun cr => show_str (email (fst cr)))
      (filter (fun cr => negb (has_error (snd cr)))
              (combine validContacts results)).

Definition shareSummary (env : Env) (user : User)
  (profile : option Profile) (medications : list Medication)
  (family : option Family) (vitalsArray : list Vital)
  : list event * response :=
  match family with
  | None => ([], reply 400 (ErrorOnly "No emergency contacts found"))
  | Some fam =>
  match emergency_contacts fam with
  | None | Some [] => ([], reply 400 (ErrorOnly "No emergency contacts found"))
  | Some contacts =>
    let text :=
      summaryText env user profile medications (family_name fam) contacts
        vitalsArray in
    let validContacts := filter valid_contact contacts in
    if (List.length validContacts =? 0)%nat then
      ([], reply 400 (Failure "No valid emergency contact emails found"))
    else
      let tos := map (fun c => show_str (email c)) validContacts in
      let '(sends, outcomes) := send_all env (summary_subject user) text tos in
      let results := map (fun co => settle (fst co) (snd co))
                         (combine validContacts outcomes) in
      let caught (m : string) :=
        ([ConsoleError "Email sending error:" (LogMessage m)],
         reply 500 (Failure "Failed to send summary email. Please try again.")) in
      match filter_failures results with
      | None =>
          ((sends ++ fst (caught (cannot_read "error")))%list,
           snd (caught (cannot_read "error")))
      | Some failures =>
          let logged :=
            if (0 <? List.length failures)%nat
            then [ConsoleError "Failed to send to some contacts:"
                    (LogFailures failures)]
            else [] in
          if (0 <? List.length failures)%nat
             && (List.length failures =? List.length validContacts)%nat
          then
            ((sends ++ logged
                ++ fst (caught "Failed to send emails to all contacts"))%list,
             snd (caught "Failed to send emails to all contacts"))
          else
            ((sends ++ logged)%list,
             reply 200
               (SummaryShared "Health summary shared with emergency contacts"
                  (sentTo_of validContacts results)
                  (if (0 <? List.length failures)%nat
                   then Some failures else None)))
      end
  end
  end.

(** The addresses handed to the mailer, in order *)
Definition sent_to (trace : list event) : list string :=
  flat_map (fun e => match e with Send to _ _ => [to] | _ => [] end) trace.

(** The per-recipient failure reasons a response carries *)
Definition reasons_carried (r : response) : list (string * string) :=
  match json r with
  | SummaryShared _ _ (Some fs) =>
      flat_map (fun f => match f with
                         | RFailure e m => [(e, m)]
                         | _ => []
                         end) fs
  | _ => []
  end.

(** The per-recipient failure reasons written to the error log *)
Definition reasons_logged (trace : list event) : list (string * string) :=
  flat_map (fun e => match e with
                     | ConsoleError _ (LogFailures fs) =>
                         flat_map (fun f => match f with
                                            | RFailure a m => [(a, m)]
                                            | _ => []
                                            end) fs
                     | _ => []
                     end) trace.

(* ================================================================== *)
(** ** frontend/lib/api.ts: [ApiClient.request] *)

(** A value caught by [catch (error)] *)
Inductive thrown :=
| ErrorObject (message : string)     (* [error instanceof Error] *)
| OtherThrown.

(** The outcome of an awaited computation *)
Inductive completion (A : Type) :=
| Normal (a : A)
| Throw (e : thrown).

Arguments Normal {A} a.
Arguments Throw {A} e.

Definition bind {A B} (c : completion A) (k : A -> completion B)
  : completion B :=
  match c with
  | Normal a => k a
  | Throw e => Throw e
  end.

Definition try_catch {A} (c : completion A) (handler : thrown -> completion A)
  : completion A :=
  match c with
  | Normal a => Normal a
  | Throw e => handler e
  end.

Notation "x <- c ;; k" := (bind c (fun x => k))
  (at level 61, c at next level, right associativity).

Inductive request_body :=
| NoBody
| TextBody (s : string)
| FormDataBody.

Record RequestInit := {
  method : option string;
  headers : option (list (string * string));
  req_body : request_body
}.

(** What [fetch] receives: [{ ...options, headers }] *)
Record FetchInit := {
  fetch_method : option string;
  fetch_headers : list (string * string);
  fetch_body : request_body
}.

Record Response := {
  resp_status : Z;
  statusText : string;
  resp_json : completion jsvalue         (* [await response.json()] *)
}.

(** [response.ok]: the status is in the range 200-299. *)
Definition ok (r : Response) : bool :=
  (200 <=? resp_status r)%Z && (resp_status r <=? 299)%Z.

(** What [request] reaches of the browser: the token stored under
    'accessToken', the exception [localStorage.getItem] throws instead of
    returning where the storage cannot be used (it is blocked by the
    browser's settings, or there is no [localStorage] because the code runs
    outside a browser), and the network. *)
Record Browser := {
  accessToken : option string;
  storage_error : option thrown;
  fetch : string -> FetchInit -> completion Response
}.

(** [localStorage.getItem('accessToken')] *)
Definition read_accessToken (browser : Browser) : completion (option string) :=
  match storage_error browser with
  | Some e => Throw e
  | None => Normal (accessToken browser)
  end.

Record ApiResponse := {
  data : option jsvalue;
  api_error : option jsvalue;
  success : bool
}.

(** [headers[k] = v] *)
Fixpoint set_header (k v : string) (hs : list (string * string))
  : list (string * string) :=
  match hs with
  | [] => [(k, v)]
  | (k', v') :: r =>
      if k' =? k then (k, v) :: r else (k', v') :: set_header k v r
  end.

Fixpoint get_property (k : string) (fs : list (string * jsvalue)) : jsvalue :=
  match fs with
  | [] => JUndefined
  | (k', v) :: r => if k' =? k then v else get_property k r
  end.

(** [data.error] *)
Definition data_error (d : jsvalue) : completion jsvalue :=
  match d with
  | JUndefined =>
      Throw (ErrorObject "Cannot read properties of undefined (reading 'error')")
  | JNull =>
      Throw (ErrorObject "Cannot read properties of null (reading 'error')")
  | JObject fs => Normal (get_property "error" fs)
  | _ => Normal JUndefined
  end.

Definition is_form_data (b : request_body) : bool :=
  match b with FormDataBody => true | _ => false end.

(** The headers [request] builds before it calls [fetch], from the token
    it has read *)
Definition request_headers (browser : Browser) (options : RequestInit)
  : list (string * string) :=
  let headers0 := match headers options with Some h => h | None => [] end in
  let token := accessToken browser in
  let headers1 :=
    if truthy_str token
    then set_header "Authorization" ("Bearer " ++ show_str token) headers0
    else headers0 in
  if negb (is_form_data (req_body options))
  then set_header "Content-Type" "application/json" headers1
  else headers1.

(** [fetch(url, { ...options, headers })] as issued by [request] *)
Definition fetched (browser : Browser) (baseURL endpoint : string)
  (options : RequestInit) : completion Response :=
  let url := baseURL ++ endpoint in
  fetch browser url
    {| fetch_method := method options;
       fetch_headers := request_headers browser options;
       fetch_body := req_body options |}.

(** The token is read and the headers are built before the [try]: an
    exception of [localStorage.getItem] leaves [request]; what [fetch] and
    [response.json()] throw is caught. *)
Definition request (browser : Browser) (baseURL endpoint : string)
  (options : RequestInit) : completion ApiResponse :=
  _ <- read_accessToken browser ;;
  try_catch
    (response <- fetched browser baseURL endpoint options ;;
     d <- resp_json response ;;
     if negb (ok response) then
       e <- data_error d ;;
       Normal {| success := false;
                 data := None;
                 api_error :=
                   Some (if truthy e then e
                         else JString ("HTTP " ++ number_to_string (integer (resp_status response))
                                         ++ ": " ++ statusText response)) |}
     else
       Normal {| success := true; data := Some d; api_error := None |})
    (fun error =>
       Normal {| success := false;
                 data := None;
                 api_error :=
                   Some (JString (match error with
                                  | ErrorObject m => m
                                  | OtherThrown => "Network error"
                                  end)) |}).

Definition named_error (e : thrown) : bool :=
  match e with
  | ErrorObject m => negb (m =? "")
  | OtherThrown => true
  end.

(** The platform and the server keep their contracts: an [Error] raised by
    [fetch] or by [response.json()] has a message, and the [error] property
    of a body, when it is set, is a string. *)
Definition well_behaved (o : completion Response) : bool :=
  match o with
  | Throw e => named_error e
  | Normal r =>
      match resp_json r with
      | Throw e => named_error e
      | Normal d =>
          match data_error d with
          | Normal (JString _) => true
          | Normal e => negb (truthy e)
          | Throw _ => true
          end
      end
  end.

Definition nonempty_string (v : option jsvalue) : bool :=
  match v with
  | Some (JString s) => negb (s =? "")
  | _ => false
  end.

Definition sample_browser (o : completion Response) : Browser :=
  {| accessToken := Some "tok"; storage_error := None; fetch := fun _ _ => o |}.


Definition get_options : RequestInit :=
  {| method := Some "GET"; headers := None; req_body := NoBody |}.

Definition not_found : completion Response :=
  Normal {| resp_status := 404; statusText := "Not Found";
            resp_json := Normal (JObject []) |}.



(* ================================================================== *)
(** ** Vocabulary of the statements *)

(** [req.body.contacts] after validation and filtering *)
Definition request_emails (contacts : jsvalue) : list string :=
  map as_string (filter is_email_string (elements contacts)).

(** [family?.emergency_contacts], an absent list read as empty *)
Definition family_contacts (family : option Family) : list Contact :=
  match family with
  | Some f => match emergency_contacts f with Some l => l | None => [] end
  | None => []
  end.

Definition family_name_of (family : option Family) : option string :=
  match family with Some f => family_name f | None => None end.

(** The message [shareSummary] hands to the mailer for one contact, and
    what the mailer answers. *)
Definition summary_send (env : Env) (user : User) (profile : option Profile)
  (medications : list Medication) (family : option Family)
  (vitalsArray : list Vital) (c : Contact) : send_outcome :=
  sendEmergencyEmail env (show_str (email c)) (summary_subject user)
    (summaryText env user profile medications (family_name_of family)
       (family_contacts family) vitalsArray).

Definition delivered (o : send_outcome) : bool :=
  match o with Fulfilled _ => true | Rejected _ => false end.

Definition rejected (o : send_outcome) : bool := negb (delivered o).

Definition rejection_message (o : send_outcome) : string :=
  match o with Rejected m => m | Fulfilled _ => "" end.

(** The contract of the mailer as [shareSummary] relies on it: a fulfilled
    send yields an object, a rejected one an [Error] with a message. *)
Definition keeps_contract (o : send_outcome) : bool :=
  match o with
  | Fulfilled FInfo => true
  | Fulfilled FUndefined => false
  | Rejected m => negb (m =? "")
  end.

(* ================================================================== *)
(** ** Sample data *)

Definition sample_date : string := "1/1/2025, 10:00:00 AM".

(** A mailer that delivers to everyone but [b@x.com]. *)
Definition sample_env : Env := {|
  now := 0;
  toLocaleString := fun _ => sample_date;
  DEFAULT_EMERGENCY_EMAIL := None;
  sendEmergencyEmail := fun to _ _ =>
    if to =? "b@x.com" then Rejected "SMTP down" else Fulfilled FInfo;
  settles_at := fun _ => 0%nat
|}.

(** A mailer that delivers to nobody. *)
Definition down_env : Env := {|
  now := 0;
  toLocaleString := fun _ => sample_date;
  DEFAULT_EMERGENCY_EMAIL := None;
  sendEmergencyEmail := fun _ _ _ => Rejected "SMTP down";
  settles_at := fun _ => 0%nat
|}.

(** A mailer that delivers to everyone, with a default address set. *)
Definition fallback_env : Env := {|
  now := 0;
  toLocaleString := fun _ => sample_date;
  DEFAULT_EMERGENCY_EMAIL := Some "help@x.com";
  sendEmergencyEmail := fun _ _ _ => Fulfilled FInfo;
  settles_at := fun _ => 0%nat
|}.

Definition sample_user : User :=
  {| user_name := "Ann"; user_email := "ann@x.com" |}.

Definition alice : Contact := {|
  contact_id := Some "1"; contact_name := Some "Alice";
  relation := Some "sister"; phone := None; email := Some "a@x.com" |}.

Definition bob : Contact := {|
  contact_id := Some "2"; contact_name := Some "Bob";
  relation := Some "brother"; phone := Some "555-0100";
  email := Some "b@x.com" |}.

Definition carol : Contact := {|
  contact_id := Some "3"; contact_name := Some "Carol";
  relation := Some "aunt"; phone := Some "555-0101"; email := None |}.

Definition dave : Contact := {|
  contact_id := Some "4"; contact_name := Some "Dave";
  relation := Some "uncle"; phone := None; email := Some "not-an-email" |}.

Definition family_of (l : list Contact) : Family :=
  {| family_name := Some "Smith"; emergency_contacts := Some l |}.

Definition sample_family : Family := family_of [alice; dave; bob].


(** 120/80 mmHg, 90.5 mg/dL, 98.6 degrees, no weight *)
Definition newer_vital : Vital := {|
  bp_systolic := Some (integer 120); bp_diastolic := Some (integer 80);
  sugar := Some (Finite false 905 2); temperature := Some (Finite false 986 2);
  weight := None; timestamp := 2 |}.

Definition aspirin : Medication := {|
  medicine_name := Some "Aspirin"; dosage := Some "10mg";
  frequency := Some "daily"; timing := ["morning"; "night"];
  stock_count := Some (integer 12) |}.

Definition bare_profile : Profile := {|
  blood_group := None; age := Some Zero; gender := Some "";
  allergies := Some []; existing_conditions := None;
  family_doctor_email := None |}.

Definition sample_request : jsvalue :=
  JArray [JString "a@x.com"; JString "not-an-email"; JString "b@x.com"].

(** *** Records whose text is free of a pattern *)

Definition free (p s : string) : bool := negb (includes s p).

Definition free_opt (p : string) (o : option string) : bool :=
  match o with Some s => free p s | None => true end.

Definition free_optlist (p : string) (o : option (list string)) : bool :=
  match o with Some l => forallb (free p) l | None => true end.

Definition free_profile (p : string) (pr : Profile) : bool :=
  free_opt p (blood_group pr) && free_opt p (gender pr)
  && free_optlist p (allergies pr)
  && free_optlist p (existing_conditions pr)
  && free_optlist p (family_doctor_email pr).

Definition free_profile_opt (p : string) (profile : option Profile) : bool :=
  match profile with Some pr => free_profile p pr | None => true end.

Definition free_medication (p : string) (m : Medication) : bool :=
  free_opt p (medicine_name m) && free_opt p (dosage m)
  && free_opt p (frequency m) && forallb (free p) (timing m).

Definition free_contact (p : string) (c : Contact) : bool :=
  free_opt p (contact_name c) && free_opt p (relation c)
  && free_opt p (phone c) && free_opt p (email c).

Definition free_vitals (p : string) (env : Env) (vitalsArray : list Vital)
  : bool :=
  match vitalsArray with
  | v :: _ => free p (toLocaleString env (timestamp v))
  | [] => true
  end.

(** No text supplied to the summary (names, addresses, profile, medication
    and contact fields, formatted dates) contains the pattern [p]. *)
Definition free_input (p : string) (env : Env) (user : User)
  (profile : option Profile) (medications : list Medication)
  (familyName : option string) (contacts : list Contact)
  (vitalsArray : list Vital) : bool :=
  free p (toLocaleString env (now env))
  && free p (user_name user) && free p (user_email user)
  && free_opt p familyName
  && free_profile_opt p profile
  && forallb (free_medication p) medications
  && forallb (free_contact p) contacts
  && free_vitals p env vitalsArray.


Definition frequency_label : string := "Frequency:".


(* ================================================================== *)
(** ** GET /api/emergency/ *)

(** The object [emergencyInfo]; a medication is reduced to its
    [{ name, dosage }]. *)
Record EmergencyInfo := {
  info_name : string;
  info_bloodGroup : string;
  info_allergies : list string;
  info_conditions : list string;
  info_medications : list (option string * option string);
  info_emergencyContacts : list Contact
}.

(** [x || []] on an array-or-undefined *)
Definition or_empty {A} (o : option (list A)) : list A :=
  match o with Some l => l | None => [] end.

Definition getEmergencyInfo (user : User) (family : option Family)
  (profile : option Profile) (medications : list Medication)
  : nat * EmergencyInfo :=
  (200%nat,
   {| info_name := user_name user;
      info_bloodGroup := or_str (profile_field profile blood_group) "Not Provided";
      info_allergies := or_empty (profile_field profile allergies);
      info_conditions := or_empty (profile_field profile existing_conditions);
      info_medications :=
        map (fun m => (medicine_name m, dosage m)) medications;
      info_emergencyContacts :=
        or_empty (match family with
                  | Some f => emergency_contacts f
                  | None => None
                  end) |}).

(** A send that [shareSummary] counts as failed: rejected with an error
    whose [message] is truthy. *)
Definition counted_failure (o : send_outcome) : bool :=
  match o with
  | Rejected m => negb (m =? "")
  | Fulfilled _ => false
  end.

Definition fulfils_undefined (o : send_outcome) : bool :=
  match o with Fulfilled FUndefined => true | _ => false end.

(** The subjects and texts of the mails of a trace *)
Definition messages (trace : list event) : list (string * string) :=
  flat_map (fun e => match e with
                     | Send _ subject text => [(subject, text)]
                     | _ => []
                     end) trace.

(** [s] ends with [e]. *)
Definition ends_with (s e : string) : Prop := exists a, s = a ++ e.

(** The passages [ps] occur in [s] one after the other. *)
Fixpoint in_order (ps : list string) (s : string) : Prop :=
  match ps with
  | [] => True
  | p :: rest => exists a b, s = a ++ p ++ b /\ in_order rest b
  end.


(** A mailer that rejects every send with an [Error] without message. *)
Definition silent_env : Env := {|
  now := 0;
  toLocaleString := fun _ => sample_date;
  DEFAULT_EMERGENCY_EMAIL := None;
  sendEmergencyEmail := fun _ _ _ => Rejected "";
  settles_at := fun _ => 0%nat
|}.

(** A mailer whose sends fulfil with [undefined]. *)
Definition void_env : Env := {|
  now := 0;
  toLocaleString := fun _ => sample_date;
  DEFAULT_EMERGENCY_EMAIL := None;
  sendEmergencyEmail := fun _ _ _ => Fulfilled FUndefined;
  settles_at := fun _ => 0%nat
|}.

(** A mailer that delivers to everyone but [b@x.com], its promise
    fulfilling without a value. *)
Definition void_sample_env : Env := {|
  now := 0;
  toLocaleString := fun _ => sample_date;
  DEFAULT_EMERGENCY_EMAIL := None;
  sendEmergencyEmail := fun to _ _ =>
    if to =? "b@x.com" then Rejected "SMTP down" else Fulfilled FUndefined;
  settles_at := fun _ => 0%nat
|}.

(** A mailer that delivers to everyone but [b@x.com], where it rejects
    with an [Error] that has no message. *)
Definition silent_sample_env : Env := {|
  now := 0;
  toLocaleString := fun _ => sample_date;
  DEFAULT_EMERGENCY_EMAIL := None;
  sendEmergencyEmail := fun to _ _ =>
    if to =? "b@x.com" then Rejected "" else Fulfilled FInfo;
  settles_at := fun _ => 0%nat
|}.

(** A mailer that rejects every send, the one to [b@x.com] before the
    others. *)
Definition racing_env : Env := {|
  now := 0;
  toLocaleString := fun _ => sample_date;
  DEFAULT_EMERGENCY_EMAIL := None;
  sendEmergencyEmail := fun to _ _ =>
    if to =? "b@x.com" then Rejected "SMTP down" else Rejected "Mailbox full";
  settles_at := fun to => if to =? "b@x.com" then 1%nat else 2%nat
|}.

(** A mailer that delivers to nobody, with a default address set. *)
Definition fallback_down_env : Env := {|
  now := 0;
  toLocaleString := fun _ => sample_date;
  DEFAULT_EMERGENCY_EMAIL := Some "help@x.com";
  sendEmergencyEmail := fun _ _ _ => Rejected "SMTP down";
  settles_at := fun _ => 0%nat
|}.


(* ================================================================== *)
(** ** POST /api/emergency/generate-summary *)

(** [req.body], destructured: an absent key is [JUndefined]. *)
Record SummaryRequest := {
  body_vitals : jsvalue;
  body_medications : jsvalue;
  body_profile : jsvalue;
  body_healthScoreData : jsvalue
}.

Record UserContext := {
  ctx_name : jsvalue;
  ctx_age : jsvalue;
  ctx_bloodGroup : jsvalue;
  ctx_conditions : list jsvalue;
  ctx_medications : list (jsvalue * jsvalue)      (* [{ name, dosage }] *)
}.

(** The key of the AI service, the JSON printer, the age computed from a
    date of birth (date arithmetic on the clock) and the chatbot. *)
Record AiEnv := {
  GEMINI_API_KEY : option string;
  stringify : jsvalue -> string;
  age_in_years : jsvalue -> jsvalue;
  healthChatbot : string -> UserContext -> completion jsvalue
}.

(** [`${JSON.stringify(v)}`]: [JSON.stringify(undefined)] is [undefined]. *)
Definition json_text (env : AiEnv) (v : jsvalue) : string :=
  match v with
  | JUndefined => "undefined"
  | _ => stringify env v
  end.

(** [v?.k] *)
Definition optional_property (k : string) (v : jsvalue) : jsvalue :=
  match v with
  | JObject fs => get_property k fs
  | _ => JUndefined
  end.

(** [v.k] *)
Definition property (k : string) (v : jsvalue) : completion jsvalue :=
  match v with
  | JUndefined =>
      Throw (ErrorObject ("Cannot read properties of undefined (reading '"
                            ++ k ++ "')"))
  | JNull =>
      Throw (ErrorObject ("Cannot read properties of null (reading '"
                            ++ k ++ "')"))
  | _ => Normal (optional_property k v)
  end.

(** [a || b] *)
Definition or_value (a b : jsvalue) : jsvalue := if truthy a then a else b.

(** [list.map(m => ({ name: m.medicine_name, dosage: m.dosage }))] *)
Fixpoint name_and_dosage (l : list jsvalue)
  : completion (list (jsvalue * jsvalue)) :=
  match l with
  | [] => Normal []
  | m :: rest =>
      n <- property "medicine_name" m ;;
      d <- property "dosage" m ;;
      r <- name_and_dosage rest ;;
      Normal ((n, d) :: r)
  end.

(** [medications?.map(...) || []] *)
Definition context_medications (medications : jsvalue)
  : completion (list (jsvalue * jsvalue)) :=
  match medications with
  | JUndefined | JNull => Normal []
  | JArray l => name_and_dosage l
  | _ => Throw (ErrorObject "medications?.map is not a function")
  end.

Definition userMessage (env : AiEnv) (body : SummaryRequest) : string :=
  "Please analyze the following health data and provide a comprehensive AI-generated health summary report. Include insights, trends, recommendations, and any concerning patterns. Format the response with proper sections, bullet points, and clear headings." ++ nl ++
  nl ++
  "Health Data:" ++ nl ++
  "- Patient Profile: " ++ json_text env (body_profile body) ++ nl ++
  "- Vital Signs: " ++ json_text env (body_vitals body) ++ nl ++
  "- Current Medications: " ++ json_text env (body_medications body) ++ nl ++
  "- Health Score Trend: " ++ json_text env (body_healthScoreData body) ++ nl ++
  nl ++
  "Please provide a detailed analysis including:" ++ nl ++
  "1. Overall Health Assessment" ++ nl ++
  "2. Vital Signs Analysis" ++ nl ++
  "3. Medication Management" ++ nl ++
  "4. Health Trends" ++ nl ++
  "5. Recommendations" ++ nl ++
  "6. Risk Factors (if any)" ++ nl ++
  "7. Next Steps".

Definition userContext (env : AiEnv) (body : SummaryRequest)
  : completion UserContext :=
  let profile := body_profile body in
  meds <- context_medications (body_medications body) ;;
  Normal {|
    ctx_name := or_value (optional_property "user_id" profile) (JString "Patient");
    ctx_age :=
      if truthy (optional_property "DOB" profile)
      then age_in_years env (optional_property "DOB" profile)
      else JString "Not provided";
    ctx_bloodGroup :=
      or_value (optional_property "blood_group" profile) (JString "Not provided");
    ctx_conditions := [];
    ctx_medications := meds |}.

Inductive ai_event :=
| ChatbotCall (message : string) (context : UserContext)
| AiConsoleError (error : thrown).

(** [{ success: true, summary }] and [{ success: false, message, error }] *)
Inductive ai_body :=
| AiSummary (summary : jsvalue)
| AiFailure (message : string) (error : option string).

(** [error.message] *)
Definition error_message (e : thrown) : option string :=
  match e with
  | ErrorObject m => Some m
  | OtherThrown => None
  end.

Definition generateHealthReportSummary (env : AiEnv) (body : SummaryRequest)
  : list ai_event * (nat * ai_body) :=
  let caught (trace : list ai_event) (e : thrown) :=
    ((trace ++ [AiConsoleError e])%list,
     (500%nat,
      AiFailure "Failed to generate health report summary" (error_message e))) in
  if negb (truthy_str (GEMINI_API_KEY env)) then
    caught [] (ErrorObject "GEMINI_API_KEY is not configured")
  else
    let message := userMessage env body in
    match userContext env body with
    | Throw e => caught [] e
    | Normal context =>
        match healthChatbot env message context with
        | Throw e => caught [ChatbotCall message context] e
        | Normal aiSummary =>
            ([ChatbotCall message context], (200%nat, AiSummary aiSummary))
        end
    end.

(** The calls of the chatbot in a trace *)
Definition chatbot_calls (trace : list ai_event)
  : list (string * UserContext) :=
  flat_map (fun e => match e with
                     | ChatbotCall m c => [(m, c)]
                     | _ => []
                     end) trace.

(** A [medications] value the handler can map: absent, or an array without
    [null] entries. *)
Definition mappable (medications : jsvalue) : bool :=
  match medications with
  | JUndefined | JNull => true
  | JArray l =>
      forallb (fun m => match m with
                        | JUndefined | JNull => false
                        | _ => true
                        end) l
  | _ => false
  end.


Definition no_key_env : AiEnv := {|
  GEMINI_API_KEY := None;
  stringify := fun _ => "{}";
  age_in_years := fun _ => JNumber 40;
  healthChatbot := fun _ _ => Normal (JString "summary")
|}.

Definition ai_env : AiEnv := {|
  GEMINI_API_KEY := Some "key";
  stringify := fun _ => "{}";
  age_in_years := fun _ => JNumber 40;
  healthChatbot := fun _ _ => Normal (JString "summary")
|}.

Definition sample_body : SummaryRequest := {|
  body_vitals := JArray [];
  body_medications :=
    JArray [JObject [("medicine_name", JString "Aspirin");
                     ("dosage", JString "10mg")]];
  body_profile := JObject [("blood_group", JString "O+")];
  body_healthScoreData := JUndefined
|}.

(* ================================================================== *)
(** ** frontend/lib/api.ts: the methods around [request] *)

(** [localStorage]: keys with their string values *)
Definition Storage := list (string * string).

Fixpoint getItem (k : string) (st : Storage) : option string :=
  match st with
  | [] => None
  | (k', v) :: r => if k' =? k then Some v else getItem k r
  end.

Definition setItem (k v : string) (st : Storage) : Storage := set_header k v st.

(** [headers[k]] *)
Definition get_header (k : string) (hs : list (string * string))
  : option string := getItem k hs.

(** [String(v)], as applied by [localStorage.setItem] *)
Fixpoint js_string (v : jsvalue) : string :=
  match v with
  | JUndefined => "undefined"
  | JNull => "null"
  | JBoolean b => if b then "true" else "false"
  | JNumber n => number_to_string n
  | JString s => s
  | JArray l =>
      join "," (map (fun x => match x with
                              | JUndefined | JNull => ""
                              | _ => js_string x
                              end) l)
  | JObject _ => "[object Object]"
  end.

(** The page: its storage and [window.location.href] *)
Record Page := {
  localStorage : Storage;
  location : string
}.

(** The accesses of the client to [localStorage] and to
    [window.location] *)
Inductive access :=
| GetItem (key : string)
| SetItem (key value : string)
| ClearStorage
| SetLocation (href : string).

(** The network, [JSON.stringify] and the accesses the platform refuses:
    where the storage is blocked or full, or where there is no window, the
    access throws instead of being carried out. *)
Record Platform := {
  net : string -> FetchInit -> completion Response;
  JSON_stringify : jsvalue -> string;
  refuses : access -> option thrown
}.

(** An access and the value it yields when it is carried out *)
Definition attempt {A} (platform : Platform) (a : access) (v : A)
  : completion A :=
  match refuses platform a with
  | Some e => Throw e
  | None => Normal v
  end.

(** A platform on which the storage and the location can be used *)
Definition usable (platform : Platform) : Prop :=
  forall a, refuses platform a = None.

Definition browser_of (platform : Platform) (page : Page) : Browser :=
  {| accessToken := getItem "accessToken" (localStorage page);
     storage_error := refuses platform (GetItem "accessToken");
     fetch := net platform |}.

Definition API_BASE_URL : string := "http://localhost:8000/api/v1".

(** [apiClient.request(endpoint, options)] *)
Definition apiClient_request (platform : Platform) (page : Page)
  (endpoint : string) (options : RequestInit) : completion ApiResponse :=
  request (browser_of platform page) API_BASE_URL endpoint options.

Definition json_options (platform : Platform) (verb : string) (d : jsvalue)
  : RequestInit :=
  {| method := Some verb; headers := None;
     req_body := TextBody (JSON_stringify platform d) |}.

Definition bare_options (verb : string) : RequestInit :=
  {| method := Some verb; headers := None; req_body := NoBody |}.

Definition api_get (platform : Platform) (page : Page) (endpoint : string) :=
  apiClient_request platform page endpoint (bare_options "GET").

Definition api_post (platform : Platform) (page : Page) (endpoint : string)
  (d : jsvalue) :=
  apiClient_request platform page endpoint (json_options platform "POST" d).

Definition api_put (platform : Platform) (page : Page) (endpoint : string)
  (d : jsvalue) :=
  apiClient_request platform page endpoint (json_options platform "PUT" d).

Definition api_delete (platform : Platform) (page : Page) (endpoint : string) :=
  apiClient_request platform page endpoint (bare_options "DELETE").

(** [uploadPrescription(formData)]: an empty [headers] object is passed. *)
Definition uploadPrescription_options : RequestInit :=
  {| method := Some "POST"; headers := Some []; req_body := FormDataBody |}.

Definition uploadPrescription (platform : Platform) (page : Page) :=
  apiClient_request platform page "/prescriptions" uploadPrescription_options.

Definition refreshToken (platform : Platform) (page : Page)
  : completion ApiResponse :=
  token <- attempt platform (GetItem "refreshToken")
             (getItem "refreshToken" (localStorage page)) ;;
  if negb (truthy_str token) then
    Normal {| success := false; data := None;
              api_error := Some (JString "No refresh token available") |}
  else
    apiClient_request platform page "/users/refresh-token"
      (json_options platform "POST"
         (JObject [("refreshToken", JString (show_str token))])).

Definition truthy_opt (o : option jsvalue) : bool :=
  match o with Some v => truthy v | None => false end.

(** [handleTokenRefresh]: its result and the page it leaves when it
    returns. None of its accesses to the storage and to the location is
    inside a [try]: an access that throws ends the call. *)
Definition handleTokenRefresh (platform : Platform) (page : Page)
  : completion (bool * Page) :=
  response <- refreshToken platform page ;;
  if success response && truthy_opt (data response) then
    let d := match data response with Some v => v | None => JUndefined end in
    let accessToken := js_string (optional_property "accessToken" d) in
    let refreshToken := js_string (optional_property "refreshToken" d) in
    _ <- attempt platform (SetItem "accessToken" accessToken) tt ;;
    _ <- attempt platform (SetItem "refreshToken" refreshToken) tt ;;
    Normal (true,
            {| localStorage :=
                 setItem "refreshToken" refreshToken
                   (setItem "accessToken" accessToken (localStorage page));
               location := location page |})
  else
    _ <- attempt platform ClearStorage tt ;;
    _ <- attempt platform (SetLocation "/login") tt ;;
    Normal (false, {| localStorage := []; location := "/login" |}).

(** [getAuthHeaders()] *)
Definition getAuthHeaders (platform : Platform) (page : Page)
  : completion (list (string * string)) :=
  token <- attempt platform (GetItem "accessToken")
             (getItem "accessToken" (localStorage page)) ;;
  Normal (if truthy_str token
          then [("Authorization", "Bearer " ++ show_str token)]
          else []).

(** [`${x}`] for a value read from storage: [null] prints as "null". *)
Definition show_item (o : option string) : string :=
  match o with Some s => s | None => "null" end.

(** frontend/utils/api.ts: the request [getAgentById] issues, once the
    token has been read *)
Definition agent_request (page : Page) : FetchInit :=
  {| fetch_method := None;
     fetch_headers :=
       [("Authorization",
         "Bearer " ++ show_item (getItem "token" (localStorage page)))];
     fetch_body := NoBody |}.

Definition agent_url (id : string) : string :=
  "https://nfc4-hackoholics.onrender.com/api/agent/" ++ id.

(** frontend/utils/api.ts: [getAgentById(id)]; the token is read while
    the argument of [fetch] is built. *)
Definition getAgentById (platform : Platform) (page : Page) (id : string)
  : completion jsvalue :=
  _ <- attempt platform (GetItem "token") (getItem "token" (localStorage page)) ;;
  res <- net platform (agent_url id) (agent_request page) ;;
  if negb (ok res) then Throw (ErrorObject "Failed to fetch agent")
  else resp_json res.

(** The request [refreshToken] issues when a token is stored *)
Definition refresh_fetch (platform : Platform) (page : Page)
  : completion Response :=
  fetched (browser_of platform page) API_BASE_URL "/users/refresh-token"
    (json_options platform "POST"
       (JObject [("refreshToken",
                  JString (show_str (getItem "refreshToken"
                                       (localStorage page))))])).

(** The refresh succeeded: a token was stored and the server answered an
    ok response whose body parsed to a truthy value [d]. *)
Definition refresh_succeeded (platform : Platform) (page : Page) (d : jsvalue)
  : Prop :=
  truthy_str (getItem "refreshToken" (localStorage page)) = true
  /\ exists response,
       refresh_fetch platform page = Normal response
       /\ resp_json response = Normal d
       /\ ok response = true
       /\ truthy d = true.

(** The page after a refresh that answered [d] *)
Definition page_with_tokens (page : Page) (d : jsvalue) : Page :=
  {| localStorage :=
       setItem "refreshToken" (js_string (optional_property "refreshToken" d))
         (setItem "accessToken" (js_string (optional_property "accessToken" d))
            (localStorage page));
     location := location page |}.

Definition login_page : Page := {| localStorage := []; location := "/login" |}.

(** Keys of a header or storage object, each at most once *)
Definition keys (hs : list (string * string)) : list string := map fst hs.

Definition sample_platform (o : completion Response) : Platform :=
  {| net := fun _ _ => o; JSON_stringify := fun _ => "{}";
     refuses := fun _ => None |}.

(** A platform whose storage is full: it can be read and cleared, and
    every [setItem] throws. *)
Definition full_platform (o : completion Response) : Platform :=
  {| net := fun _ _ => o; JSON_stringify := fun _ => "{}";
     refuses := fun a =>
       match a with
       | SetItem _ _ => Some (ErrorObject "The quota has been exceeded.")
       | _ => None
       end |}.

(** A platform that refuses every access to the storage *)
Definition blocked_platform (o : completion Response) : Platform :=
  {| net := fun _ _ => o; JSON_stringify := fun _ => "{}";
     refuses := fun a =>
       match a with
       | SetLocation _ => None
       | _ => Some (ErrorObject "The operation is insecure.")
       end |}.

Definition logged_in : Page :=
  {| localStorage := [("accessToken", "old"); ("refreshToken", "r1")];
     location := "/dashboard" |}.

Definition refreshed : completion Response :=
  Normal {| resp_status := 200; statusText := "OK";
            resp_json :=
              Normal (JObject [("accessToken", JString "new");
                               ("refreshToken", JString "r2")]) |}.

Definition refreshed_without_tokens : completion Response :=
  Normal {| resp_status := 200; statusText := "OK";
            resp_json := Normal (JObject [("message", JString "ok")]) |}.


(* ================================================================== *)
(** * Properties *)

(* ------------------------------------------------------------------ *)
(** ** Fan-out delivery *)

Lemma combine_map_self {A B} (f : A -> B) (l : list A) :
  combine l (map f l) = map (fun x => (x, f x)) l.
Proof. induction l as [|x l IH]; simpl; [reflexivity | now rewrite IH]. Qed.



Lemma reasons_logged_app (t1 t2 : list event) :
  reasons_logged (t1 ++ t2) = (reasons_logged t1 ++ reasons_logged t2)%list.
Proof. unfold reasons_logged. apply flat_map_app. Qed.

Lemma reasons_logged_sends (subject text : string) (tos : list string) :
  reasons_logged (map (fun to => Send to subject text) tos) = [].
Proof. induction tos as [|t tos IH]; simpl; [reflexivity | exact IH]. Qed.

Lemma reasons_of_failures (f g : Contact -> string) (R : list Contact) :
  flat_map (fun r => match r with RFailure a m => [(a, m)] | _ => [] end)
           (map (fun c => RFailure (f c) (g c)) R)
  = map (fun c => (f c, g c)) R.
Proof. induction R as [|c R IH]; [reflexivity|]. cbn. now rewrite IH. Qed.

Section Dispatch.
Variables (env : Env) (user : User) (profile : option Profile).
Variables (medications : list Medication) (fam : Family).
Variables (contacts : list Contact) (vitalsArray : list Vital).
Hypothesis Hcontacts : emergency_contacts fam = Some contacts.

(** Once the contact list has passed validation, [shareSummary] is the
    aggregation of the settled sends to the valid contacts. *)
Lemma shareSummary_unfold :
  filter valid_contact contacts <> [] ->
  shareSummary env user profile medications (Some fam) vitalsArray =
  let R := filter valid_contact contacts in
  let text := summaryText env user profile medications (family_name fam)
                contacts vitalsArray in
  let sends := map (fun to => Send to (summary_subject user) text)
                   (map (fun c => show_str (email c)) R) in
  let results :=
    map (fun c => settle c (summary_send env user profile medications
                              (Some fam) vitalsArray c)) R in
  let caught (m : string) :=
    ([ConsoleError "Email sending error:" (LogMessage m)],
     reply 500 (Failure "Failed to send summary email. Please try again.")) in
  match filter_failures results with
  | None => ((sends ++ fst (caught (cannot_read "error")))%list,
             snd (caught (cannot_read "error")))
  | Some failures =>
      let logged :=
        if (0 <? List.length failures)%nat
        then [ConsoleError "Failed to send to some contacts:"
                (LogFailures failures)]
        else [] in
      if (0 <? List.length failures)%nat
         && (List.length failures =? List.length R)%nat
      then ((sends ++ logged
               ++ fst (caught "Failed to send emails to all contacts"))%list,
            snd (caught "Failed to send emails to all contacts"))
      else ((sends ++ logged)%list,
            reply 200
              (SummaryShared "Health summary shared with emergency contacts"
                 (sentTo_of R results)
                 (if (0 <? List.length failures)%nat
                  then Some failures else None)))
  end.
Proof.
  intros HR. unfold shareSummary. rewrite Hcontacts.
  destruct contacts as [|c0 cs] eqn:Ec.
  - exfalso. apply HR. reflexivity.
  - destruct (List.length (filter valid_contact (c0 :: cs)) =? 0)%nat eqn:El.
    + apply Nat.eqb_eq in El.
      destruct (filter valid_contact (c0 :: cs)); [now elim HR | discriminate].
    + unfold send_all. cbv zeta.
      rewrite map_map, combine_map_self, map_map. cbn [fst snd].
      unfold summary_send. cbn [family_name_of family_contacts].
      rewrite Hcontacts. reflexivity.
Qed.

End Dispatch.

Section Outcomes.
Variable out : Contact -> send_outcome.

Lemma filter_failures_contract (R : list Contact) :
  (forall c, In c R -> keeps_contract (out c) = true) ->
  filter_failures (map (fun c => settle c (out c)) R)
  = Some (map (fun c => RFailure (show_str (email c))
                          (rejection_message (out c)))
              (filter (fun c => rejected (out c)) R)).
Proof.
  induction R as [|c R IH]; intros H; [reflexivity|].
  cbn [map filter_failures filter].
  rewrite IH by (intros; apply H; now right).
  specialize (H c (or_introl eq_refl)).
  unfold rejected.
  destruct (out c) as [[|]|m] eqn:E; cbn in *;
    try discriminate; try reflexivity.
  now rewrite H, E.
Qed.

Lemma sentTo_of_contract (R : list Contact) :
  (forall c, In c R -> keeps_contract (out c) = true) ->
  sentTo_of R (map (fun c => settle c (out c)) R)
  = map (fun c => show_str (email c)) (filter (fun c => delivered (out c)) R).
Proof.
  unfold sentTo_of. rewrite combine_map_self.
  induction R as [|c R IH]; intros H; [reflexivity|].
  cbn [map filter fst snd].
  specialize (IH (fun c' Hc' => H c' (or_intror Hc'))).
  specialize (H c (or_introl eq_refl)).
  destruct (out c) as [[|]|m]; cbn in *; try discriminate.
  - now rewrite IH.
  - rewrite H. cbn. exact IH.
Qed.

Lemma partition_lengths (R : list Contact) :
  (List.length (filter (fun c => delivered (out c)) R)
   + List.length (filter (fun c => rejected (out c)) R) = List.length R)%nat.
Proof.
  induction R as [|c R IH]; [reflexivity|]. cbn [filter].
  unfold rejected in *.
  destruct (delivered (out c)); cbn [negb List.length]; lia.
Qed.

Lemma filter_counted (f : Contact -> bool) (R : list Contact) (c : Contact) :
  In c R -> f c = true -> (0 < List.length (filter f R))%nat.
Proof.
  intros Hin Hd.
  assert (Hf : In c (filter f R)) by (apply filter_In; auto).
  destruct (filter f R); [contradiction | cbn; lia].
Qed.

Lemma all_rejected_filter (R : list Contact) :
  (forall c, In c R -> rejected (out c) = true) ->
  filter (fun c => rejected (out c)) R = R.
Proof.
  induction R as [|c R IH]; intros H; [reflexivity|]. cbn [filter].
  rewrite (H c (or_introl eq_refl)), IH; auto. intros; apply H; now right.
Qed.

End Outcomes.

(** Partial failure, where the mailer keeps the contract [shareSummary]
    relies on (a delivered send fulfils with an object, a rejected one
    carries a message): when the valid contacts split into a non-empty set
    [S] of delivered sends and a non-empty set [F] of rejected ones, the
    handler answers 200 with [success: true]; [sentTo] lists exactly [S],
    [failures] lists exactly [F] with each recipient's reason, and the two
    lists together have as many entries as there are valid contacts. *)
Theorem shareSummary_partial_failure
  (env : Env) (user : User) (profile : option Profile)
  (medications : list Medication) (fam : Family) (contacts : list Contact)
  (vitalsArray : list Vital) :
  let R := filter valid_contact contacts in
  let out := summary_send env user profile medications (Some fam) vitalsArray in
  let S := filter (fun c => delivered (out c)) R in
  let F := filter (fun c => rejected (out c)) R in
  emergency_contacts fam = Some contacts ->
  (forall c, In c R -> keeps_contract (out c) = true) ->
  (exists c, In c R /\ delivered (out c) = true) ->
  (exists c, In c R /\ rejected (out c) = true) ->
  snd (shareSummary env user profile medications (Some fam) vitalsArray)
  = reply 200
      (SummaryShared "Health summary shared with emergency contacts"
         (map (fun c => show_str (email c)) S)
         (Some (map (fun c => RFailure (show_str (email c))
                                (rejection_message (out c))) F)))
  /\ (List.length S + List.length F = List.length R)%nat.
Proof.
  intros R out S F Hc Hk [cd [Hd1 Hd2]] [cr [Hr1 Hr2]].
  assert (HR : R <> []) by (intros E; rewrite E in Hd1; contradiction).
  pose proof (partition_lengths out R) as Hlen.
  pose proof (filter_counted (fun c => delivered (out c)) R cd Hd1 Hd2) as HS.
  pose proof (filter_counted (fun c => rejected (out c)) R cr Hr1 Hr2) as HF.
  change (List.length S + List.length F = List.length R)%nat in Hlen.
  change (0 < List.length S)%nat in HS.
  change (0 < List.length F)%nat in HF.
  split; [| exact Hlen].
  rewrite (shareSummary_unfold env user profile medications fam contacts
             vitalsArray Hc HR).
  cbv zeta. fold R. fold out.
  rewrite (filter_failures_contract out R Hk).
  rewrite (sentTo_of_contract out R Hk).
  rewrite length_map. fold F. fold S.
  assert (E1 : (0 <? List.length F)%nat = true) by (apply Nat.ltb_lt; exact HF).
  assert (E2 : (List.length F =? List.length R)%nat = false)
    by (apply Nat.eqb_neq; lia).
  rewrite E1, E2. reflexivity.
Qed.

Lemma shareSummary_partial_failure_witness :
  snd (shareSummary sample_env sample_user None [] (Some sample_family) [])
  = reply 200
      (SummaryShared "Health summary shared with emergency contacts"
         ["a@x.com"] (Some [RFailure "b@x.com" "SMTP down"]))
  /\ (1 + 1 = 2)%nat.
Proof.
  refine (shareSummary_partial_failure sample_env sample_user None []
           sample_family [alice; dave; bob] [] eq_refl _ _ _).
  - intros c Hc. vm_compute in Hc.
    destruct Hc as [<- | [<- | []]]; vm_compute; reflexivity.
  - exists alice. split; [vm_compute; auto | vm_compute; reflexivity].
  - exists bob. split; [vm_compute; auto | vm_compute; reflexivity].
Defined.

(** C3 fails in [shareSummary]. With valid contacts [a@x.com] and
    [b@x.com], a mailer that delivers to the first and rejects the second
    with "SMTP down" is a mixed outcome; yet when the delivered send fulfils
    without a value, reading [r.error] of its result throws and the handler
    answers 500 as if nothing had been sent. And when the rejection carries
    an [Error] without message, the test [r.error] takes it for a success:
    the handler answers 200 with [b@x.com] in [sentTo] and no [failures]. *)
Theorem shareSummary_partial_failure_misreported :
  let out := summary_send void_sample_env sample_user None []
               (Some sample_family) [] in
  let run := shareSummary void_sample_env sample_user None []
               (Some sample_family) [] in
  let out' := summary_send silent_sample_env sample_user None []
                (Some sample_family) [] in
  let run' := shareSummary silent_sample_env sample_user None []
                (Some sample_family) [] in
  filter valid_contact (family_contacts (Some sample_family)) = [alice; bob]
  /\ (out alice = Fulfilled FUndefined
      /\ out bob = Rejected "SMTP down"
      /\ sent_to (fst run) = ["a@x.com"; "b@x.com"]
      /\ snd run
         = reply 500 (Failure "Failed to send summary email. Please try again."))
  /\ (out' alice = Fulfilled FInfo
      /\ out' bob = Rejected ""
      /\ sent_to (fst run') = ["a@x.com"; "b@x.com"]
      /\ snd run'
         = reply 200
             (SummaryShared "Health summary shared with emergency contacts"
                ["a@x.com"; "b@x.com"] None)).
Proof. vm_compute. repeat split; reflexivity. Qed.

(** C2, as the code has it. When every send to a valid contact is rejected
    (each with a message), [shareSummary] answers 500 with the fixed text
    "Failed to send summary email. Please try again."; the response carries
    no per-recipient reason, and the reasons, one for each valid contact,
    are written to the error log. *)
Theorem shareSummary_total_failure
  (env : Env) (user : User) (profile : option Profile)
  (medications : list Medication) (fam : Family) (contacts : list Contact)
  (vitalsArray : list Vital) :
  let R := filter valid_contact contacts in
  let out := summary_send env user profile medications (Some fam) vitalsArray in
  let run := shareSummary env user profile medications (Some fam) vitalsArray in
  emergency_contacts fam = Some contacts ->
  R <> [] ->
  (forall c, In c R -> rejected (out c) = true /\ rejection_message (out c) <> "") ->
  snd run = reply 500 (Failure "Failed to send summary email. Please try again.")
  /\ reasons_carried (snd run) = []
  /\ reasons_logged (fst run)
     = map (fun c => (show_str (email c), rejection_message (out c))) R
  /\ List.length (reasons_logged (fst run)) = List.length R.
Proof.
  intros R out run Hc HR Hall.
  assert (Hk : forall c, In c R -> keeps_contract (out c) = true).
  { intros c Hin. destruct (Hall c Hin) as [Hr Hm]. unfold rejected in Hr.
    destruct (out c) as [v|m]; cbn in *; [discriminate|].
    destruct (String.eqb_spec m ""); [contradiction | reflexivity]. }
  assert (HF : filter (fun c => rejected (out c)) R = R).
  { apply all_rejected_filter. intros c Hin. apply (Hall c Hin). }
  assert (Hrun : run =
    ((map (fun to => Send to (summary_subject user)
             (summaryText env user profile medications (family_name fam) contacts vitalsArray))
          (map (fun c => show_str (email c)) R)
      ++ [ConsoleError "Failed to send to some contacts:"
            (LogFailures (map (fun c => RFailure (show_str (email c))
                                          (rejection_message (out c))) R))]
      ++ [ConsoleError "Email sending error:"
            (LogMessage "Failed to send emails to all contacts")])%list,
     reply 500 (Failure "Failed to send summary email. Please try again."))).
  { unfold run.
    rewrite (shareSummary_unfold env user profile medications fam contacts
               vitalsArray Hc HR).
    cbv zeta. fold R. fold out.
    rewrite (filter_failures_contract out R Hk), HF, length_map.
    rewrite Nat.eqb_refl.
    assert (E : (0 <? List.length R)%nat = true).
    { apply Nat.ltb_lt. destruct R; [now elim HR | cbn; lia]. }
    rewrite E. reflexivity. }
  rewrite Hrun. cbn [fst snd].
  assert (Hlog : reasons_logged
     (map (fun to => Send to (summary_subject user)
             (summaryText env user profile medications (family_name fam) contacts vitalsArray))
          (map (fun c => show_str (email c)) R)
      ++ [ConsoleError "Failed to send to some contacts:"
            (LogFailures (map (fun c => RFailure (show_str (email c))
                                          (rejection_message (out c))) R))]
      ++ [ConsoleError "Email sending error:"
            (LogMessage "Failed to send emails to all contacts")])
     = map (fun c => (show_str (email c), rejection_message (out c))) R).
  { rewrite reasons_logged_app, reasons_logged_sends. cbn [app reasons_logged flat_map].
    rewrite List.app_nil_r.
    apply (reasons_of_failures (fun c => show_str (email c))
             (fun c => rejection_message (out c))). }
  repeat split.
  - exact Hlog.
  - rewrite Hlog. apply length_map.
Qed.

Lemma shareSummary_total_failure_witness :
  snd (shareSummary down_env sample_user None [] (Some sample_family) [])
  = reply 500 (Failure "Failed to send summary email. Please try again.")
  /\ reasons_carried
       (snd (shareSummary down_env sample_user None [] (Some sample_family) [])) = []
  /\ reasons_logged
       (fst (shareSummary down_env sample_user None [] (Some sample_family) []))
     = [("a@x.com", "SMTP down"); ("b@x.com", "SMTP down")]
  /\ List.length (reasons_logged
       (fst (shareSummary down_env sample_user None [] (Some sample_family) [])))
     = 2%nat.
Proof.
  refine (shareSummary_total_failure down_env sample_user None []
           sample_family [alice; dave; bob] [] eq_refl _ _).
  - vm_compute. discriminate.
  - intros c Hc. vm_compute in Hc.
    destruct Hc as [<- | [<- | []]]; (split; [vm_compute; reflexivity | vm_compute; discriminate]).
Defined.

(** C2 as stated fails: with two valid contacts whose sends are both
    rejected the response is the 500 above and carries none of the two
    reasons. *)
Lemma shareSummary_total_failure_carries_no_reasons :
  let run := shareSummary down_env sample_user None [] (Some sample_family) [] in
  filter valid_contact (family_contacts (Some sample_family)) = [alice; bob]
  /\ (forall c, In c [alice; bob] ->
        summary_send down_env sample_user None [] (Some sample_family) [] c
        = Rejected "SMTP down")
  /\ snd run = reply 500 (Failure "Failed to send summary email. Please try again.")
  /\ List.length (reasons_carried (snd run)) <> List.length [alice; bob].
Proof.
  cbv zeta. split; [reflexivity|]. split.
  - intros c [<- | [<- | []]]; reflexivity.
  - split; [vm_compute; reflexivity | vm_compute; discriminate].
Qed.

Lemma earliest_rejection_none (l : list (nat * send_outcome)) :
  earliest_rejection l = None <-> forall p, In p l -> delivered (snd p) = true.
Proof.
  induction l as [|[t o] l IH]; cbn [earliest_rejection].
  - split; [intros _ p [] | reflexivity].
  - destruct o as [v|m].
    + rewrite IH. split.
      * intros H p [<- | Hin]; [reflexivity | now apply H].
      * intros H p Hin. apply H. now right.
    + split.
      * destruct (earliest_rejection l) as [[t' m']|];
          [destruct (t' <? t)%nat|]; discriminate.
      * intros H. specialize (H (t, Rejected m) (or_introl eq_refl)).
        discriminate.
Qed.

Lemma first_rejection_none (l : list (nat * send_outcome)) :
  first_rejection l = None <-> forall p, In p l -> delivered (snd p) = true.
Proof.
  rewrite <- earliest_rejection_none. unfold first_rejection.
  destruct (earliest_rejection l); split; intros; now try discriminate.
Qed.

Lemma first_rejection_some (l : list (nat * send_outcome)) :
  (exists p, In p l /\ rejected (snd p) = true) ->
  exists m, first_rejection l = Some m.
Proof.
  intros [p [Hin Hr]]. destruct (first_rejection l) as [m|] eqn:E;
    [now exists m|].
  rewrite first_rejection_none in E. unfold rejected in Hr.
  rewrite (E p Hin) in Hr. discriminate.
Qed.

(** The times and outcomes of the sends of [mailEmergencyContacts] *)
Lemma combine_map2 {A B C} (f : A -> B) (g : A -> C) (l : list A) :
  combine (map f l) (map g l) = map (fun x => (f x, g x)) l.
Proof. induction l as [|x l IH]; [reflexivity|]. cbn. now rewrite IH. Qed.

Lemma mailEmergencyContacts_unfold
  (env : Env) (user : User) (contacts : jsvalue) (profile : option Profile)
  (medications : list Medication) :
  request_emails contacts <> [] ->
  mailEmergencyContacts env user contacts profile medications =
  let emails := request_emails contacts in
  let emailText := mailEmergencyContacts_text env user profile medications in
  let sends := map (fun to => Send to mail_subject emailText) emails in
  match first_rejection
          (map (fun to => (settles_at env to,
                           sendEmergencyEmail env to mail_subject emailText))
               emails) with
  | Some m =>
      ((sends ++ [ConsoleError "❌ mailEmergencyContacts error:"
                    (LogMessage m)])%list,
       reply 500 (ErrorOnly m))
  | None =>
      (sends, reply 200 (MailSent "Emergency info sent successfully." emails))
  end.
Proof.
  intros Hne. unfold mailEmergencyContacts, request_emails in *.
  destruct contacts as [| | | | |l|]; try (now elim Hne).
  cbn [truthy isArray elements negb orb] in *.
  destruct l as [|x l]; [now elim Hne|]. cbn [List.length Nat.eqb].
  destruct (map as_string (filter is_email_string (x :: l))) as [|e es] eqn:E;
    [now elim Hne|].
  unfold send_all. cbv zeta. rewrite combine_map2. reflexivity.
Qed.

(** In [mailEmergencyContacts] one rejected send fails the whole call. *)
Lemma mailEmergencyContacts_rejection_fails_call
  (env : Env) (user : User) (contacts : jsvalue) (profile : option Profile)
  (medications : list Medication) (to : string) :
  In to (request_emails contacts) ->
  rejected (sendEmergencyEmail env to mail_subject
              (mailEmergencyContacts_text env user profile medications)) = true ->
  exists m,
    snd (mailEmergencyContacts env user contacts profile medications)
    = reply 500 (ErrorOnly m).
Proof.
  intros Hin Hr.
  rewrite mailEmergencyContacts_unfold by (intros E; rewrite E in Hin; contradiction).
  cbv zeta.
  destruct (first_rejection_some
              (map (fun to0 => (settles_at env to0,
                                sendEmergencyEmail env to0 mail_subject
                                  (mailEmergencyContacts_text env user profile
                                     medications)))
                   (request_emails contacts))) as [m Hm].
  { exists (settles_at env to,
            sendEmergencyEmail env to mail_subject
              (mailEmergencyContacts_text env user profile medications)).
    split; [| exact Hr]. apply in_map_iff. now exists to. }
  rewrite Hm. now exists m.
Qed.

Lemma mailEmergencyContacts_rejects_empty
  (env : Env) (user : User) (contacts : jsvalue) (profile : option Profile)
  (medications : list Medication) :
  request_emails contacts = [] ->
  fst (mailEmergencyContacts env user contacts profile medications) = []
  /\ status (snd (mailEmergencyContacts env user contacts profile medications))
     = 400%nat.
Proof.
  intros H. unfold mailEmergencyContacts.
  destruct (negb (truthy contacts) || negb (isArray contacts)
            || (List.length (elements contacts) =? 0)%nat); [now split|].
  fold (request_emails contacts). rewrite H. now split.
Qed.

Lemma shareSummary_rejects_empty
  (env : Env) (user : User) (profile : option Profile)
  (medications : list Medication) (family : option Family)
  (vitalsArray : list Vital) :
  filter valid_contact (family_contacts family) = [] ->
  fst (shareSummary env user profile medications family vitalsArray) = []
  /\ status (snd (shareSummary env user profile medications family vitalsArray))
     = 400%nat.
Proof.
  intros H. unfold shareSummary.
  destruct family as [fam|]; [| now split].
  cbn [family_contacts] in H.
  destruct (emergency_contacts fam) as [[|c l]|]; try now split.
  rewrite H. now split.
Qed.

(** C1 fails in [mailEmergencyContacts]: with recipients [a@x.com] and
    [b@x.com], a mailer that delivers to the first and rejects the second
    makes the handler answer 500 with the rejection's message, although both
    sends were issued and the first one succeeded; the rejection is not
    turned into a per-recipient outcome. *)
Theorem mailEmergencyContacts_one_rejection_fails_call :
  let text := mailEmergencyContacts_text sample_env sample_user None [] in
  let run := mailEmergencyContacts sample_env sample_user sample_request None [] in
  sendEmergencyEmail sample_env "a@x.com" mail_subject text = Fulfilled FInfo
  /\ sendEmergencyEmail sample_env "b@x.com" mail_subject text = Rejected "SMTP down"
  /\ sent_to (fst run) = ["a@x.com"; "b@x.com"]
  /\ snd run = reply 500 (ErrorOnly "SMTP down").
Proof. vm_compute. repeat split; reflexivity. Qed.

(** C4. A request without a valid recipient (no array, an empty array, or
    no entry that is a string containing "@"; no family, no contact, or no
    contact whose email contains "@") is answered with status 400 and no
    mail is sent: the handler performs no effect at all. *)
Theorem validation_error_without_dispatch
  (env : Env) (user : User) (profile : option Profile)
  (medications : list Medication) :
  (forall contacts,
     request_emails contacts = [] ->
     let run := mailEmergencyContacts env user contacts profile medications in
     fst run = [] /\ status (snd run) = 400%nat)
  /\
  (forall family vitalsArray,
     filter valid_contact (family_contacts family) = [] ->
     let run := shareSummary env user profile medications family vitalsArray in
     fst run = [] /\ status (snd run) = 400%nat).
Proof.
  split.
  - intros contacts H. exact (mailEmergencyContacts_rejects_empty _ _ _ _ _ H).
  - intros family vitalsArray H. exact (shareSummary_rejects_empty _ _ _ _ _ _ H).
Qed.

Lemma validation_error_without_dispatch_witness :
  (fst (mailEmergencyContacts sample_env sample_user
          (JArray [JString "not-an-email"; JNumber 7]) None []) = []
   /\ status (snd (mailEmergencyContacts sample_env sample_user
                     (JArray [JString "not-an-email"; JNumber 7]) None []))
      = 400%nat)
  /\
  (fst (shareSummary sample_env sample_user None []
          (Some (family_of [carol; dave])) []) = []
   /\ status (snd (shareSummary sample_env sample_user None []
                     (Some (family_of [carol; dave])) [])) = 400%nat).
Proof.
  pose proof (validation_error_without_dispatch sample_env sample_user None [])
    as [Hm Hs].
  split.
  - exact (Hm (JArray [JString "not-an-email"; JNumber 7]) eq_refl).
  - exact (Hs (Some (family_of [carol; dave])) [] eq_refl).
Defined.








Lemma filter_failures_undefined (results : list result) :
  In RUndefined results -> filter_failures results = None.
Proof.
  induction results as [|r l IH]; [contradiction|]. intros [-> | Hin].
  - reflexivity.
  - cbn [filter_failures]. rewrite (IH Hin). now destruct (error_of r).
Qed.

(** A mailer that fulfils with [undefined] makes [shareSummary] fail: reading
    [r.error] of that result throws, and the handler answers 500. *)
Lemma shareSummary_undefined_fulfilment
  (env : Env) (user : User) (profile : option Profile)
  (medications : list Medication) (fam : Family) (contacts : list Contact)
  (vitalsArray : list Vital) (c : Contact) :
  emergency_contacts fam = Some contacts ->
  In c (filter valid_contact contacts) ->
  summary_send env user profile medications (Some fam) vitalsArray c
  = Fulfilled FUndefined ->
  snd (shareSummary env user profile medications (Some fam) vitalsArray)
  = reply 500 (Failure "Failed to send summary email. Please try again.").
Proof.
  intros Hc Hin Hu.
  rewrite (shareSummary_unfold env user profile medications fam contacts
             vitalsArray Hc) by (intros E; rewrite E in Hin; contradiction).
  cbv zeta. rewrite filter_failures_undefined; [reflexivity|].
  apply in_map_iff. exists c. split; [| exact Hin]. now rewrite Hu.
Qed.

Lemma none_rejected_filter (out : Contact -> send_outcome) (R : list Contact) :
  (forall c, In c R -> delivered (out c) = true) ->
  filter (fun c => rejected (out c)) R = []
  /\ filter (fun c => delivered (out c)) R = R.
Proof.
  induction R as [|c R IH]; intros H; [now split|]. cbn [filter].
  unfold rejected. rewrite (H c (or_introl eq_refl)). cbn [negb].
  destruct IH as [IH1 IH2]; [intros; apply H; now right|].
  unfold rejected in IH1. now rewrite IH1, IH2.
Qed.

(** When every send is delivered, [shareSummary] answers 200 with every
    valid contact in [sentTo] and no [failures]. *)
Lemma shareSummary_all_delivered
  (env : Env) (user : User) (profile : option Profile)
  (medications : list Medication) (fam : Family) (contacts : list Contact)
  (vitalsArray : list Vital) :
  let R := filter valid_contact contacts in
  let out := summary_send env user profile medications (Some fam) vitalsArray in
  emergency_contacts fam = Some contacts ->
  R <> [] ->
  (forall c, In c R -> out c = Fulfilled FInfo) ->
  shareSummary env user profile medications (Some fam) vitalsArray
  = (map (fun to => Send to (summary_subject user)
                      (summaryText env user profile medications
                         (family_name fam) contacts vitalsArray))
         (map (fun c => show_str (email c)) R),
     reply 200
       (SummaryShared "Health summary shared with emergency contacts"
          (map (fun c => show_str (email c)) R) None)).
Proof.
  intros R out Hc HR Hall.
  assert (Hk : forall c, In c R -> keeps_contract (out c) = true)
    by (intros c Hin; now rewrite (Hall c Hin)).
  destruct (none_rejected_filter out R) as [HF HS];
    [intros c Hin; now rewrite (Hall c Hin)|].
  rewrite (shareSummary_unfold env user profile medications fam contacts
             vitalsArray Hc HR).
  cbv zeta. fold R. fold out.
  rewrite (filter_failures_contract out R Hk), (sentTo_of_contract out R Hk).
  rewrite HF, HS. cbn [map List.length Nat.ltb Nat.leb andb].
  now rewrite List.app_nil_r.
Qed.

(* ------------------------------------------------------------------ *)
(** ** The single-contact share and the API client *)

Lemma truthy_str_show (o : option string) :
  truthy_str o = true -> exists d, o = Some d /\ d <> "" /\ show_str o = d.
Proof.
  destruct o as [d|]; [| discriminate]. cbn. intros H. exists d.
  repeat split. intros ->. discriminate.
Qed.

Lemma named_error_message (e : thrown) :
  named_error e = true ->
  nonempty_string (Some (JString (match e with
                                  | ErrorObject m => m
                                  | OtherThrown => "Network error"
                                  end))) = true.
Proof. destruct e; cbn; auto. Qed.

(** Once the token is read, [request] returns: what [fetch] and
    [response.json()] throw is caught. *)
Lemma request_returns
  (browser : Browser) (baseURL endpoint : string) (options : RequestInit) :
  let outcome := fetched browser baseURL endpoint options in
  let failed (r : ApiResponse) :=
    success r = false /\ data r = None /\
    (well_behaved outcome = true -> nonempty_string (api_error r) = true) in
  storage_error browser = None ->
  exists r,
    request browser baseURL endpoint options = Normal r
    /\ match outcome with
       | Normal response =>
           match resp_json response with
           | Normal d =>
               if ok response
               then r = {| success := true; data := Some d; api_error := None |}
               else failed r
           | Throw _ => failed r
           end
       | Throw _ => failed r
       end.
Proof.
  cbv zeta. intros Hs. unfold request, read_accessToken, well_behaved.
  rewrite Hs. cbn [bind].
  destruct (fetched browser baseURL endpoint options) as [response|e];
    cbn [bind try_catch].
  - destruct (resp_json response) as [d|e]; cbn [bind try_catch].
    + destruct (ok response); cbn [negb bind try_catch].
      * eexists. split; reflexivity.
      * destruct (data_error d) as [e|e] eqn:Ed; cbn [bind try_catch].
        -- eexists. split; [reflexivity|]. cbn [success data api_error].
           split; [reflexivity|]. split; [reflexivity|]. intros Hw.
           destruct (truthy e) eqn:Ht; [| reflexivity].
           destruct e; cbn in Hw; try discriminate;
             try (rewrite Ht in Hw; discriminate).
           exact Ht.
        -- eexists. split; [reflexivity|]. cbn [success data api_error].
           split; [reflexivity|]. split; [reflexivity|]. intros _.
           destruct d; cbn in Ed; try discriminate; injection Ed as <-;
             reflexivity.
    + eexists. split; [reflexivity|]. cbn [success data api_error].
      split; [reflexivity|]. split; [reflexivity|].
      intros Hw. now apply named_error_message.
  - eexists. split; [reflexivity|]. cbn [success data api_error].
    split; [reflexivity|]. split; [reflexivity|].
    intros Hw. now apply named_error_message.
Qed.

(** [request] throws exactly what reading the token throws. *)
Lemma request_throws
  (browser : Browser) (baseURL endpoint : string) (options : RequestInit)
  (e : thrown) :
  request browser baseURL endpoint options = Throw e
  <-> storage_error browser = Some e.
Proof.
  destruct (storage_error browser) as [e0|] eqn:Hs.
  - unfold request, read_accessToken. rewrite Hs. cbn [bind].
    split; intros H; injection H as <-; reflexivity.
  - destruct (request_returns browser baseURL endpoint options Hs) as [r [Hr _]].
    rewrite Hr. split; discriminate.
Qed.




(* ------------------------------------------------------------------ *)
(** ** Strings: trimming, inclusion, guards *)

Lemma append_assoc (a b c : string) : (a ++ b) ++ c = a ++ b ++ c.
Proof. induction a as [|x a IH]; cbn; [reflexivity | now rewrite IH]. Qed.

Lemma append_nil_r (a : string) : a ++ "" = a.
Proof. induction a as [|x a IH]; cbn; [reflexivity | now rewrite IH]. Qed.

(** *** Last characters *)

Lemma last_char_cons (x : ascii) (t : string) :
  last_char (String x t)
  = match last_char t with Some c => Some c | None => Some x end.
Proof.
  revert x. induction t as [|y t IH]; intros x; [reflexivity|].
  change (last_char (String x (String y t))) with (last_char (String y t)).
  rewrite (IH y). now destruct (last_char t).
Qed.

Lemma last_char_app (a b : string) :
  last_char (a ++ b)
  = match last_char b with Some c => Some c | None => last_char a end.
Proof.
  induction a as [|x a IH]; cbn [append].
  - now destruct (last_char b).
  - rewrite !last_char_cons, IH. now destruct (last_char b).
Qed.

(** *** [includes] *)

Lemma prefix_app (p b : string) : prefix p (p ++ b) = true.
Proof.
  induction p as [|c p IH]; [destruct b; reflexivity|]. cbn.
  destruct (ascii_dec c c); [exact IH | contradiction].
Qed.

Lemma prefix_inv (p s : string) :
  prefix p s = true -> exists b, s = p ++ b.
Proof.
  revert s. induction p as [|c p IH]; intros s H.
  - now exists s.
  - destruct s as [|d s]; [discriminate|]. cbn in H.
    destruct (ascii_dec c d) as [->|]; [| discriminate].
    destruct (IH s H) as [b ->]. now exists b.
Qed.

Lemma includes_nil (s : string) : includes s "" = true.
Proof. destruct s; reflexivity. Qed.

Lemma includes_cons (c : ascii) (s p : string) :
  includes (String c s) p = prefix p (String c s) || includes s p.
Proof. reflexivity. Qed.

Lemma includes_app_r (a b p : string) :
  includes b p = true -> includes (a ++ b) p = true.
Proof.
  intros H. induction a as [|c a IH]; [exact H|].
  cbn [append]. rewrite includes_cons, IH. apply orb_true_r.
Qed.

Lemma prefix_app_l (p a b : string) :
  prefix p a = true -> prefix p (a ++ b) = true.
Proof.
  intros H. destruct (prefix_inv p a H) as [x ->].
  rewrite append_assoc. apply prefix_app.
Qed.

Lemma includes_app_l (a b p : string) :
  includes a p = true -> includes (a ++ b) p = true.
Proof.
  induction a as [|c a IH]; intros H.
  - destruct p; [apply includes_nil | discriminate].
  - cbn [append]. rewrite includes_cons in *.
    apply orb_true_iff in H. apply orb_true_iff. destruct H as [H|H].
    + left. exact (prefix_app_l p (String c a) b H).
    + right. now apply IH.
Qed.

(** [includes] decides [occurs]. *)
Lemma includes_occurs (s p : string) :
  includes s p = true <-> occurs p s.
Proof.
  split.
  - induction s as [|c s IH]; intros H.
    + destruct p; [| discriminate]. now exists "", "".
    + rewrite includes_cons in H. apply orb_true_iff in H. destruct H as [H|H].
      * destruct (prefix_inv _ _ H) as [b Hb]. now exists "", b.
      * destruct (IH H) as [a [b ->]]. now exists (String c a), b.
  - intros [a [b ->]]. apply includes_app_r, includes_app_l.
    destruct p as [|c p]; [reflexivity|]. rewrite includes_cons.
    pose proof (prefix_app (String c p) "") as H.
    rewrite append_nil_r in H. now rewrite H.
Qed.

(** *** Guards and barriers *)

Lemma mem_char_eq (c d : ascii) (s : string) :
  mem_char c (String d s) = Ascii.eqb c d || mem_char c s.
Proof. reflexivity. Qed.

Lemma prefix_cons (c d : ascii) (p s : string) :
  prefix (String c p) (String d s) = Ascii.eqb c d && prefix p s.
Proof.
  cbn. destruct (ascii_dec c d) as [->|N].
  - now rewrite Ascii.eqb_refl.
  - apply Ascii.eqb_neq in N. now rewrite N.
Qed.

Lemma prefix_nil_l (s : string) : prefix "" s = true.
Proof. destruct s; reflexivity. Qed.

Lemma prefix_nil_r (p : string) : prefix p "" = true -> p = "".
Proof. destruct p; [reflexivity | discriminate]. Qed.

(** A prefix match of [p] cannot run across a character foreign to [p]. *)
Lemma prefix_stops_at_sep (p u v : string) (c : ascii) :
  mem_char c p = false ->
  prefix p (u ++ String c v) = true -> prefix p u = true.
Proof.
  revert u. induction p as [|e q IH]; intros u Hc H; [apply prefix_nil_l|].
  rewrite mem_char_eq in Hc. apply orb_false_iff in Hc. destruct Hc as [Hce Hcq].
  destruct u as [|f u]; cbn [append] in H; rewrite prefix_cons in *;
    apply andb_true_iff in H; destruct H as [H1 H2].
  - apply Ascii.eqb_eq in H1. subst. rewrite Ascii.eqb_refl in Hce. discriminate.
  - rewrite H1. cbn [andb]. now apply IH.
Qed.

Lemma includes_split_at_sep (p a b : string) (c : ascii) :
  mem_char c p = false ->
  includes (a ++ String c b) p = true ->
  includes a p = true \/ includes b p = true.
Proof.
  intros Hc. induction a as [|d a IH]; cbn [append]; rewrite includes_cons;
    intros H; apply orb_true_iff in H; destruct H as [H|H].
  - left. pose proof (prefix_stops_at_sep p "" b c Hc H) as H'.
    apply prefix_nil_r in H'. rewrite H'. reflexivity.
  - now right.
  - left. rewrite includes_cons.
    now rewrite (prefix_stops_at_sep p (String d a) b c Hc H).
  - destruct (IH H) as [H'|H']; [left | now right].
    rewrite includes_cons, H'. apply orb_true_r.
Qed.

(** Every character of a matched pattern occurs in the text. *)
Lemma prefix_mem (p s : string) (e : ascii) :
  prefix p s = true -> mem_char e p = true -> mem_char e s = true.
Proof.
  revert s. induction p as [|c q IH]; intros s H He; [discriminate|].
  destruct s as [|d s]; [discriminate|]. rewrite prefix_cons in H.
  apply andb_true_iff in H. destruct H as [H1 H2].
  apply Ascii.eqb_eq in H1. subst d.
  rewrite mem_char_eq in *. apply orb_true_iff in He. apply orb_true_iff.
  destruct He as [He|He]; [now left | right; now apply IH].
Qed.

Lemma includes_mem (p s : string) (e : ascii) :
  includes s p = true -> mem_char e p = true -> mem_char e s = true.
Proof.
  induction s as [|d s IH]; intros H He.
  - destruct p; discriminate.
  - rewrite includes_cons in H. apply orb_true_iff in H. destruct H as [H|H].
    + now apply (prefix_mem p).
    + rewrite mem_char_eq, (IH H He). apply orb_true_r.
Qed.

Lemma last_char_mem (p : string) (e : ascii) :
  last_char p = Some e -> mem_char e p = true.
Proof.
  induction p as [|c q IH]; [discriminate|]. rewrite last_char_cons, mem_char_eq.
  destruct (last_char q) as [x|] eqn:E; intros H; injection H as ->.
  - rewrite IH by reflexivity. apply orb_true_r.
  - now rewrite Ascii.eqb_refl.
Qed.

(** *** [trim] *)

Lemma is_ws_ascii (c : ascii) : is_ws c = true -> (nat_of_ascii c < 128)%nat.
Proof.
  destruct c as [[] [] [] [] [] [] [] []]; cbn; intros H;
    try discriminate; lia.
Qed.

Lemma byte_ascii (n : nat) (c : ascii) :
  (nat_of_ascii c < 128)%nat -> (128 <= n)%nat -> byte n c = false.
Proof. intros Hc Hn. apply Nat.eqb_neq. lia. Qed.

Lemma is_ws2_ascii (a b : ascii) :
  (nat_of_ascii a < 128)%nat \/ (nat_of_ascii b < 128)%nat ->
  is_ws2 a b = false.
Proof.
  unfold is_ws2. intros [H|H].
  - rewrite (byte_ascii 194 a H) by lia. reflexivity.
  - rewrite (byte_ascii 160 b H) by lia. apply andb_false_r.
Qed.

Lemma is_ws3_ascii (a b c : ascii) :
  (nat_of_ascii a < 128)%nat \/ (nat_of_ascii b < 128)%nat
  \/ (nat_of_ascii c < 128)%nat ->
  is_ws3 a b c = false.
Proof.
  unfold is_ws3. intros [H|[H|H]].
  - rewrite !(byte_ascii _ a H) by lia. reflexivity.
  - rewrite !(byte_ascii _ b H) by lia. now rewrite !andb_false_r.
  - rewrite !(byte_ascii _ c H) by lia.
    assert (E : (128 <=? nat_of_ascii c)%nat = false) by (apply Nat.leb_gt; lia).
    rewrite E. now rewrite !andb_false_r.
Qed.

Lemma plain_ascii (c : ascii) :
  plain c = true -> (nat_of_ascii c < 128)%nat /\ is_ws c = false.
Proof.
  unfold plain. intros H. apply andb_true_iff in H. destruct H as [Hc Hw].
  split; [now apply Nat.ltb_lt | now apply negb_true_iff].
Qed.

Lemma trimStart_cons (a : ascii) (r : string) :
  trimStart (String a r)
  = if is_ws a then trimStart r
    else match r with
         | String b r2 =>
             if is_ws2 a b then trimStart r2
             else match r2 with
                  | String c r3 =>
                      if is_ws3 a b c then trimStart r3 else String a r
                  | EmptyString => String a r
                  end
         | EmptyString => String a r
         end.
Proof. reflexivity. Qed.

Lemma trimStart_plain (s : string) (c : ascii) :
  first_char s = Some c -> plain c = true -> trimStart s = s.
Proof.
  destruct s as [|d s]; [discriminate|]. cbn [first_char]. intros H Hc.
  injection H as ->. apply plain_ascii in Hc. destruct Hc as [Ha Hw].
  rewrite trimStart_cons, Hw.
  destruct s as [|b s]; [reflexivity|]. rewrite is_ws2_ascii by now left.
  destruct s as [|e s]; [reflexivity|]. now rewrite is_ws3_ascii by now left.
Qed.

Lemma trimStart_ws (w : string) :
  forallb is_ws (list_ascii_of_string w) = true -> trimStart w = "".
Proof.
  induction w as [|c w IH]; [reflexivity|].
  cbn [list_ascii_of_string forallb]. intros H.
  apply andb_true_iff in H. destruct H as [Hc Hw].
  now rewrite trimStart_cons, Hc, IH.
Qed.

Lemma has_plain_mem (s : string) :
  has_plain s = true <-> exists c, mem_char c s = true /\ plain c = true.
Proof.
  induction s as [|d s IH]; cbn [has_plain].
  - split; [discriminate | intros [c [H _]]; discriminate].
  - rewrite orb_true_iff, IH. split.
    + intros [H | [c [Hm Hc]]].
      * exists d. now rewrite mem_char_eq, Ascii.eqb_refl.
      * exists c. rewrite mem_char_eq, Hm. split; [apply orb_true_r | exact Hc].
    + intros [c [Hm Hc]]. rewrite mem_char_eq in Hm.
      apply orb_true_iff in Hm. destruct Hm as [Hm | Hm].
      * apply Ascii.eqb_eq in Hm. subst. now left.
      * right. now exists c.
Qed.

Lemma has_plain_app (a b : string) :
  has_plain (a ++ b) = has_plain a || has_plain b.
Proof.
  induction a as [|c a IH]; [reflexivity|]. cbn [append has_plain].
  now rewrite IH, orb_assoc.
Qed.

(** Text that is nothing but white space has no ASCII character other
    than white space. *)
Lemma blank_has_no_plain (n : nat) (s : string) :
  (String.length s <= n)%nat -> trimStart s = "" -> has_plain s = false.
Proof.
  revert s. induction n as [|n IH]; intros s Hn H.
  - destruct s; [reflexivity | cbn in Hn; lia].
  - destruct s as [|a r]; [reflexivity|]. cbn [String.length] in Hn.
    rewrite trimStart_cons in H. cbn [has_plain].
    destruct (is_ws a) eqn:Ea.
    { unfold plain. rewrite Ea, andb_false_r. apply IH; [lia | exact H]. }
    destruct r as [|b r2]; [discriminate|]. cbn [String.length] in Hn.
    assert (Hbig : forall x y, is_ws2 x y = true \/ (exists z, is_ws3 x y z = true)
                               \/ (exists z, is_ws3 z x y = true)
                               -> plain x = false /\ plain y = false).
    { intros x y Hxy. unfold plain.
      destruct (nat_of_ascii x <? 128)%nat eqn:Ex.
      - apply Nat.ltb_lt in Ex. exfalso. destruct Hxy as [Hxy|[[z Hxy]|[z Hxy]]].
        + rewrite is_ws2_ascii in Hxy by now left. discriminate.
        + rewrite is_ws3_ascii in Hxy by now left. discriminate.
        + rewrite is_ws3_ascii in Hxy by (right; now left). discriminate.
      - destruct (nat_of_ascii y <? 128)%nat eqn:Ey; [| now split].
        apply Nat.ltb_lt in Ey. exfalso. destruct Hxy as [Hxy|[[z Hxy]|[z Hxy]]].
        + rewrite is_ws2_ascii in Hxy by now right. discriminate.
        + rewrite is_ws3_ascii in Hxy by (right; now left). discriminate.
        + rewrite is_ws3_ascii in Hxy by (right; now right). discriminate. }
    destruct (is_ws2 a b) eqn:Eab.
    { destruct (Hbig a b (or_introl Eab)) as [Ha Hb].
      cbn [has_plain]. rewrite Ha, Hb. apply IH; [lia | exact H]. }
    destruct r2 as [|c r3]; [discriminate|]. cbn [String.length] in Hn.
    destruct (is_ws3 a b c) eqn:Eabc; [| discriminate].
    destruct (Hbig a b (or_intror (or_introl (ex_intro _ c Eabc)))) as [Ha Hb].
    destruct (Hbig b c (or_intror (or_intror (ex_intro _ a Eabc)))) as [_ Hc].
    cbn [has_plain]. rewrite Ha, Hb, Hc. apply IH; [lia | exact H].
Qed.

Lemma has_plain_not_blank (s : string) : has_plain s = true -> blank s = false.
Proof.
  intros H. unfold blank. destruct (trimStart s) eqn:E; [| reflexivity].
  rewrite (blank_has_no_plain (String.length s) s (le_n _) E) in H.
  discriminate.
Qed.

Lemma last_char_has_plain (s : string) (c : ascii) :
  last_char s = Some c -> plain c = true -> has_plain s = true.
Proof.
  intros Hl Hc. apply has_plain_mem. exists c. split; [| exact Hc].
  now apply last_char_mem.
Qed.

Lemma trimEnd_cons (c : ascii) (r : string) :
  trimEnd (String c r)
  = if blank (String c r) then "" else String c (trimEnd r).
Proof. reflexivity. Qed.

Lemma trimEnd_nonblank (s : string) (c : ascii) :
  last_char s = Some c -> plain c = true -> trimEnd s = s.
Proof.
  induction s as [|d s IH]; [discriminate|]. intros Hl Hc.
  rewrite trimEnd_cons,
    (has_plain_not_blank _ (last_char_has_plain _ c Hl Hc)).
  destruct s as [|e s']; [reflexivity|]. now rewrite (IH Hl Hc).
Qed.

Lemma trimEnd_blank (w : string) :
  forallb is_ws (list_ascii_of_string w) = true -> trimEnd w = "".
Proof.
  intros H. destruct w as [|c w]; [reflexivity|].
  rewrite trimEnd_cons. unfold blank. now rewrite (trimStart_ws _ H).
Qed.

(** White space appended to a text does not change whether it is blank. *)
Lemma trimStart_app_ws (n : nat) (x w : string) :
  (String.length x <= n)%nat ->
  forallb is_ws (list_ascii_of_string w) = true ->
  (trimStart (x ++ w) = "" <-> trimStart x = "").
Proof.
  intros Hn Hw. revert x Hn. induction n as [|n IH]; intros x Hn.
  - destruct x; [| cbn in Hn; lia]. cbn [append].
    rewrite (trimStart_ws w Hw). tauto.
  - destruct x as [|a r].
    { cbn [append]. rewrite (trimStart_ws w Hw). tauto. }
    cbn [String.length] in Hn. cbn [append]. rewrite !trimStart_cons.
    destruct (is_ws a); [apply IH; lia|].
    assert (Hhead : forall y, first_char w = Some y ->
                               (nat_of_ascii y < 128)%nat).
    { intros y Hy. destruct w as [|y' w']; [discriminate|].
      cbn in Hy, Hw. injection Hy as ->. apply andb_true_iff in Hw.
      now apply is_ws_ascii. }
    destruct r as [|b r2].
    { cbn [append]. split; [| discriminate]. intros H. exfalso.
      destruct w as [|y w']; [discriminate|].
      rewrite is_ws2_ascii in H by (right; now apply Hhead).
      destruct w' as [|z w'']; [discriminate|].
      rewrite is_ws3_ascii in H by (right; left; now apply Hhead).
      discriminate. }
    cbn [String.length] in Hn. cbn [append].
    destruct (is_ws2 a b); [apply IH; lia|].
    destruct r2 as [|c r3].
    { cbn [append]. split; [| discriminate]. intros H. exfalso.
      destruct w as [|y w']; [discriminate|].
      rewrite is_ws3_ascii in H by (right; right; now apply Hhead).
      discriminate. }
    cbn [String.length] in Hn. cbn [append].
    destruct (is_ws3 a b c); [apply IH; lia|]. split; discriminate.
Qed.

Lemma blank_app_ws (x w : string) :
  forallb is_ws (list_ascii_of_string w) = true -> blank (x ++ w) = blank x.
Proof.
  intros Hw. unfold blank.
  pose proof (trimStart_app_ws (String.length x) x w (le_n _) Hw) as H.
  destruct (trimStart (x ++ w)), (trimStart x); try reflexivity.
  - discriminate (proj1 H eq_refl).
  - discriminate (proj2 H eq_refl).
Qed.

Lemma trimEnd_app_blank (s w : string) :
  forallb is_ws (list_ascii_of_string w) = true ->
  trimEnd (s ++ w) = trimEnd s.
Proof.
  intros Hw. induction s as [|c s IH]; cbn [append].
  - now apply trimEnd_blank.
  - rewrite !trimEnd_cons, IH.
    change (String c (s ++ w)) with (String c s ++ w).
    now rewrite blank_app_ws.
Qed.

(** What precedes text is kept. *)
Lemma trimEnd_app_kept (a b : string) :
  has_plain b = true -> trimEnd (a ++ b) = a ++ trimEnd b.
Proof.
  intros Hb. induction a as [|c a IH]; [reflexivity|].
  cbn [append]. rewrite trimEnd_cons, IH.
  change (String c (a ++ b)) with (String c a ++ b).
  rewrite has_plain_not_blank; [reflexivity|].
  rewrite has_plain_app, Hb. apply orb_true_r.
Qed.

(** [trim] removes white space outside ASCII too (a no-break space, a line
    separator), and white space only (not a dagger, whose code shares two
    bytes with the line separator's). *)
Lemma trim_examples :
  let nbsp := String (ascii_of_nat 194) (String (ascii_of_nat 160) "") in
  let line_separator :=
    String (ascii_of_nat 226)
      (String (ascii_of_nat 128) (String (ascii_of_nat 168) "")) in
  let dagger :=
    String (ascii_of_nat 226)
      (String (ascii_of_nat 128) (String (ascii_of_nat 160) "")) in
  trim (nbsp ++ " a b" ++ nl ++ line_separator ++ nbsp) = "a b"
  /\ trim (" " ++ dagger ++ " ") = dagger
  /\ trim (nl ++ "  " ++ nbsp) = "".
Proof. vm_compute. repeat split. Qed.

Lemma trimEnd_after_nonblank (a b : string) (c : ascii) :
  last_char a = Some c -> plain c = true -> trimEnd (a ++ b) = a ++ trimEnd b.
Proof.
  intros Hl Hc. induction a as [|d a IH]; [discriminate|].
  cbn [append]. rewrite trimEnd_cons.
  change (String d (a ++ b)) with (String d a ++ b).
  rewrite has_plain_not_blank
    by (rewrite has_plain_app, (last_char_has_plain _ c Hl Hc); reflexivity).
  destruct a as [|e a']; [reflexivity|]. now rewrite (IH Hl).
Qed.

Lemma last_char_none (p : string) : last_char p = None -> p = "".
Proof.
  destruct p as [|c q]; [reflexivity|]. rewrite last_char_cons.
  now destruct (last_char q).
Qed.

(** A match whose last character is missing from [u] ends before [u]. *)
Lemma prefix_ends_before (p x u : string) (e : ascii) :
  last_char p = Some e -> mem_char e u = false ->
  prefix p (x ++ u) = true -> prefix p x = true.
Proof.
  intros Hl Hu. revert x Hl.
  induction p as [|c q IH]; intros x Hl H; [discriminate|].
  destruct x as [|d x]; cbn [append] in H.
  - rewrite (prefix_mem _ _ e H (last_char_mem _ _ Hl)) in Hu. discriminate.
  - rewrite prefix_cons in *. apply andb_true_iff in H. destruct H as [H1 H2].
    rewrite H1. cbn [andb]. destruct q as [|c' q']; [apply prefix_nil_l|].
    now apply IH.
Qed.

Lemma includes_ends_before (p a u : string) :
  mem_opt (last_char p) u = false ->
  includes (a ++ u) p = true -> includes a p = true.
Proof.
  intros Hu. destruct (last_char p) as [e|] eqn:Hl.
  - cbn [mem_opt] in Hu. induction a as [|d a IH]; cbn [append]; intros H.
    + rewrite (includes_mem p u e H (last_char_mem _ _ Hl)) in Hu. discriminate.
    + rewrite includes_cons in *. apply orb_true_iff in H. apply orb_true_iff.
      destruct H as [H|H]; [left | right; now apply IH].
      exact (prefix_ends_before p (String d a) u e Hl Hu H).
  - intros _. rewrite (last_char_none p Hl). apply includes_nil.
Qed.

Lemma includes_starts_after (p v b : string) :
  mem_opt (first_char p) v = false ->
  includes (v ++ b) p = true -> includes b p = true.
Proof.
  destruct p as [|e q]; [intros _ _; apply includes_nil|].
  cbn [first_char mem_opt]. induction v as [|d v IH]; cbn [append]; intros Hv H.
  - exact H.
  - rewrite mem_char_eq in Hv. apply orb_false_iff in Hv. destruct Hv as [Hd Hv].
    rewrite includes_cons, prefix_cons, Hd in H. cbn [andb orb] in H.
    now apply IH.
Qed.

Lemma break_at_sep_spec (p l u r : string) :
  break_at_sep p l = Some (u, r) ->
  exists c, mem_char c p = false /\ l = u ++ String c r.
Proof.
  revert u. induction l as [|c l IH]; intros u H; [discriminate|].
  cbn [break_at_sep] in H. destruct (mem_char c p) eqn:Hc.
  - destruct (break_at_sep p l) as [[u' v']|]; [| discriminate].
    injection H as <- <-. destruct (IH u' eq_refl) as [c' [Hc' ->]].
    now exists c'.
  - injection H as <- <-. now exists c.
Qed.

Lemma break_at_sep_found (p m t : string) (c : ascii) :
  mem_char c p = false -> break_at_sep p (m ++ String c t) <> None.
Proof.
  intros Hc. induction m as [|x m IH]; cbn [append break_at_sep].
  - now rewrite Hc.
  - destruct (mem_char x p); [| discriminate].
    destruct (break_at_sep p (m ++ String c t)) as [[u v]|];
      [discriminate | exact IH].
Qed.

Lemma after_last_sep_spec (p r : string) :
  (break_at_sep p r = None /\ after_last_sep p r = r)
  \/ exists m c, mem_char c p = false /\ r = m ++ String c (after_last_sep p r).
Proof.
  induction r as [|d r IH]; [now left|].
  cbn [after_last_sep break_at_sep].
  destruct IH as [[Hn Hv] | [m [c [Hc Hr]]]].
  - rewrite Hn. destruct (mem_char d p) eqn:Hd.
    + now left.
    + right. now exists "", d.
  - destruct (break_at_sep p r) as [[u v]|] eqn:Hb.
    + right. exists (String d m), c. split; [exact Hc|].
      cbn [append]. now rewrite <- Hr.
    + exfalso. rewrite Hr in Hb.
      exact (break_at_sep_found p m _ c Hc Hb).
Qed.

Theorem leftguardb_sound (p l : string) :
  leftguardb p l = true -> leftguard p l.
Proof.
  unfold leftguardb, leftguard.
  destruct (break_at_sep p l) as [[u r]|] eqn:Hb; [| discriminate].
  intros H a Hin. apply andb_true_iff in H. destruct H as [Hu Hr].
  apply negb_true_iff in Hu, Hr.
  destruct (break_at_sep_spec p l u r Hb) as [c [Hc ->]].
  rewrite <- append_assoc in Hin.
  destruct (includes_split_at_sep p (a ++ u) r c Hc Hin) as [H|H].
  - exact (includes_ends_before p a u Hu H).
  - rewrite H in Hr. discriminate.
Qed.

Theorem barrierb_sound (p l : string) :
  barrierb p l = true -> barrier p l.
Proof.
  unfold barrierb, leftguardb, barrier.
  destruct (break_at_sep p l) as [[u r]|] eqn:Hb; [| discriminate].
  intros H a b Hin. apply andb_true_iff in H. destruct H as [H Hv].
  apply andb_true_iff in H. destruct H as [Hu Hr].
  apply negb_true_iff in Hu, Hr, Hv.
  destruct (break_at_sep_spec p l u r Hb) as [c [Hc ->]].
  rewrite append_assoc in Hin. cbn [append] in Hin. rewrite <- append_assoc in Hin.
  destruct (includes_split_at_sep p (a ++ u) (r ++ b) c Hc Hin) as [H|H].
  - left. exact (includes_ends_before p a u Hu H).
  - right. destruct (after_last_sep_spec p r) as [[_ Hv'] | [m [c' [Hc' Hr']]]].
    + rewrite Hv' in Hv. exact (includes_starts_after p r b Hv H).
    + rewrite Hr' in H. rewrite append_assoc in H. cbn [append] in H.
      destruct (includes_split_at_sep p m _ c' Hc' H) as [H'|H'].
      * exfalso. rewrite Hr' in Hr.
        rewrite (includes_app_l m _ p H') in Hr. discriminate.
      * exact (includes_starts_after p _ b Hv H').
Qed.

(** *** Composing guards *)

Lemma free_iff (p s : string) : free p s = true <-> includes s p = false.
Proof. unfold free. apply negb_true_iff. Qed.

Lemma includes_empty (p : string) : p <> "" -> includes "" p = false.
Proof. destruct p; [now intros H | reflexivity]. Qed.

Lemma leftguard_nil (p : string) : leftguard p "".
Proof. intros a H. now rewrite append_nil_r in H. Qed.

Lemma leftguard_app (p s1 s2 : string) :
  leftguard p s1 -> leftguard p s2 -> leftguard p (s1 ++ s2).
Proof.
  intros H1 H2 a H. rewrite <- append_assoc in H. exact (H1 a (H2 _ H)).
Qed.

Lemma leftguard_lit (p l rest : string) :
  leftguardb p l = true -> leftguard p rest -> leftguard p (l ++ rest).
Proof. intros H. apply leftguard_app. now apply leftguardb_sound. Qed.

Lemma leftguard_lit_end (p l : string) :
  leftguardb p l = true -> leftguard p l.
Proof. apply leftguardb_sound. Qed.

Lemma leftguard_data_end (p l d : string) :
  barrierb p l = true -> free p d = true -> leftguard p (l ++ d).
Proof.
  intros Hl Hd a H. apply free_iff in Hd.
  destruct (barrierb_sound p l Hl a d H) as [H'|H']; [exact H'|].
  rewrite H' in Hd. discriminate.
Qed.

Lemma leftguard_data (p l d rest : string) :
  barrierb p l = true -> free p d = true -> leftguard p rest ->
  leftguard p (l ++ d ++ rest).
Proof.
  intros Hl Hd Hr. rewrite <- append_assoc.
  apply leftguard_app; [now apply leftguard_data_end | exact Hr].
Qed.

Lemma leftguard_data2 (p l1 l2 d rest : string) :
  barrierb p (l1 ++ l2) = true -> free p d = true -> leftguard p rest ->
  leftguard p (l1 ++ l2 ++ d ++ rest).
Proof.
  intros Hl Hd Hr. rewrite <- append_assoc. now apply leftguard_data.
Qed.

Lemma leftguard_free (p s : string) :
  p <> "" -> leftguard p s -> includes s p = false.
Proof.
  intros Hp H. destruct (includes s p) eqn:E; [| reflexivity].
  rewrite <- (includes_empty p Hp). symmetry. exact (H "" E).
Qed.

Lemma leftguard_join (p sep : string) (items : list string) :
  leftguardb p sep = true -> Forall (leftguard p) items ->
  leftguard p (join sep items).
Proof.
  intros Hs H. induction H as [|x l Hx Hl IH]; [apply leftguard_nil|].
  unfold join in *. cbn [String.concat]. destruct l as [|y l]; [exact Hx|].
  apply leftguard_app; [exact Hx|]. apply leftguard_lit; [exact Hs | exact IH].
Qed.

Lemma free_join (p sep : string) (xs : list string) :
  p <> "" -> barrierb p sep = true -> forallb (free p) xs = true ->
  free p (join sep xs) = true.
Proof.
  intros Hp Hs. induction xs as [|x l IH]; intros H.
  - apply free_iff. now apply includes_empty.
  - cbn [forallb] in H. apply andb_true_iff in H. destruct H as [Hx Hl].
    unfold join in *. cbn [String.concat]. destruct l as [|y l]; [exact Hx|].
    specialize (IH Hl). apply free_iff. apply free_iff in Hx, IH.
    destruct (includes (x ++ sep ++ String.concat sep (y :: l)) p) eqn:E;
      [| reflexivity].
    destruct (barrierb_sound p sep Hs x _ E) as [H'|H']; congruence.
Qed.

(** *** Decimal numerals *)

Lemma string_of_uint_num (d : Decimal.uint) :
  all_num_chars (NilEmpty.string_of_uint d) = true.
Proof. induction d; cbn; auto. Qed.

Lemma all_num_chars_app (a b : string) :
  all_num_chars a = true -> all_num_chars b = true ->
  all_num_chars (a ++ b) = true.
Proof.
  induction a as [|c a IH]; cbn [append all_num_chars]; [auto|].
  intros H Hb. apply andb_true_iff in H. destruct H as [Hc Ha].
  now rewrite Hc, IH.
Qed.

Lemma all_num_chars_substring (s : string) (n m : nat) :
  all_num_chars s = true -> all_num_chars (substring n m s) = true.
Proof.
  revert n m. induction s as [|c s IH]; intros n m H.
  - now destruct n, m.
  - cbn [all_num_chars] in H. apply andb_true_iff in H. destruct H as [Hc Hs].
    destruct n as [|n]; cbn [substring].
    + destruct m as [|m]; [reflexivity|]. cbn [all_num_chars].
      now rewrite Hc, IH.
    + now apply IH.
Qed.

Lemma zeros_num (n : nat) : all_num_chars (zeros n) = true.
Proof. induction n; cbn; auto. Qed.

Lemma string_of_int_num (i : Decimal.int) :
  all_num_chars (NilZero.string_of_int i) = true.
Proof.
  assert (H : forall d, all_num_chars (NilZero.string_of_uint d) = true).
  { intros d. destruct d; try reflexivity; exact (string_of_uint_num _). }
  destruct i as [d|d]; cbn [NilZero.string_of_int]; [apply H|].
  cbn [all_num_chars]. now rewrite H.
Qed.

Lemma exponent_part_num (e : Z) : all_num_chars (exponent_part e) = true.
Proof.
  unfold exponent_part. apply all_num_chars_app; [reflexivity|].
  apply all_num_chars_app; [now destruct (e <? 0)%Z | apply string_of_int_num].
Qed.

Lemma finite_to_string_num (s : positive) (n : Z) :
  all_num_chars (finite_to_string s n) = true.
Proof.
  unfold finite_to_string.
  pose proof (string_of_uint_num (Pos.to_uint s)) as Hd.
  fold (digits_of s) in Hd.
  destruct (_ && _).
  { apply all_num_chars_app; [exact Hd | apply zeros_num]. }
  destruct (_ && _).
  { apply all_num_chars_app; [now apply all_num_chars_substring|].
    apply all_num_chars_app; [reflexivity | now apply all_num_chars_substring]. }
  destruct (_ && _).
  { apply all_num_chars_app; [reflexivity|].
    apply all_num_chars_app; [apply zeros_num | exact Hd]. }
  destruct (digits_of s) as [|c r]; [reflexivity|].
  cbn [all_num_chars] in Hd. apply andb_true_iff in Hd. destruct Hd as [Hc Hr].
  destruct r as [|c' r'].
  - cbn [all_num_chars]. now rewrite Hc, exponent_part_num.
  - cbn [append all_num_chars]. rewrite Hc. cbn [andb].
    apply (all_num_chars_app (String "." (String c' r')));
      [| apply exponent_part_num].
    cbn [all_num_chars] in *. exact Hr.
Qed.

Lemma number_to_string_num (x : number) :
  all_num_chars (number_to_string x) = true.
Proof.
  destruct x as [|b| |b s n]; cbn [number_to_string]; try reflexivity.
  - now destruct b.
  - apply all_num_chars_app; [now destruct b | apply finite_to_string_num].
Qed.

(** *** Integers *)








(** Some Numbers and how they print *)
Lemma number_to_string_examples :
  number_to_string (Finite false 986 2) = "98.6"
  /\ number_to_string (Finite false 5 (-1)) = "0.05"
  /\ number_to_string (Finite true 45 2) = "-45"
  /\ number_to_string (Finite false 12 3) = "120"
  /\ number_to_string (Finite false 1 22) = "1e+21"
  /\ number_to_string (Finite false 15 (-6)) = "1.5e-7"
  /\ number_to_string (Finite false 12345678901234568 21)
     = "123456789012345680000"
  /\ number_to_string (integer 1200) = "1200"
  /\ integer 1200 = Finite false 12 4.
Proof. repeat split. Qed.


Lemma all_num_chars_mem (s : string) (e : ascii) :
  all_num_chars s = true -> mem_char e s = true -> is_num_char e = true.
Proof.
  induction s as [|c s IH]; [intros _ H; discriminate|]. cbn [all_num_chars].
  rewrite mem_char_eq. intros H He.
  apply andb_true_iff in H. destruct H as [Hc Hs].
  apply orb_true_iff in He. destruct He as [He|He]; [| now apply IH].
  apply Ascii.eqb_eq in He. now subst.
Qed.

Lemma foreign_char_found (p : string) :
  has_foreign_char p = true ->
  exists e, mem_char e p = true /\ is_num_char e = false.
Proof.
  induction p as [|c p IH]; [discriminate|]. cbn [has_foreign_char].
  intros H. apply orb_true_iff in H. destruct H as [H|H].
  - exists c. rewrite mem_char_eq, Ascii.eqb_refl. split; [reflexivity|].
    now apply negb_true_iff.
  - destruct (IH H) as [e [He Hn]]. exists e. rewrite mem_char_eq, He.
    split; [apply orb_true_r | exact Hn].
Qed.

(** A printed Number contains no pattern that has a character foreign to
    printed Numbers. *)
Lemma free_number (p : string) (x : number) :
  has_foreign_char p = true -> free p (number_to_string x) = true.
Proof.
  intros Hp. apply free_iff.
  destruct (includes (number_to_string x) p) eqn:E; [| reflexivity].
  destruct (foreign_char_found p Hp) as [e [He Hn]].
  pose proof (includes_mem p _ e E He) as Hm.
  rewrite (all_num_chars_mem _ e (number_to_string_num x) Hm) in Hn.
  discriminate.
Qed.

(** *** Interpolated fields *)

Lemma free_show_str (p : string) (o : option string) :
  free_opt p o = true -> free p "undefined" = true ->
  free p (show_str o) = true.
Proof. destruct o; auto. Qed.

Lemma free_show_num (p : string) (o : option number) :
  has_foreign_char p = true -> free p "undefined" = true ->
  free p (show_num o) = true.
Proof. destruct o; cbn [show_num]; auto using free_number. Qed.

Lemma free_or_str (p : string) (o : option string) (d : string) :
  free_opt p o = true -> free p d = true -> free p (or_str o d) = true.
Proof.
  unfold or_str. destruct o as [s|]; cbn [truthy_str show_str free_opt]; [| auto].
  destruct (negb (s =? "")); auto.
Qed.

Lemma free_or_num (p : string) (o : option number) (d : string) :
  has_foreign_char p = true -> free p d = true -> free p (or_num o d) = true.
Proof.
  unfold or_num. destruct o as [x|]; cbn [truthy_num show_num]; [| auto].
  destruct (truthy_number x); auto using free_number.
Qed.

Lemma free_join_or (p : string) (o : option (list string)) (d : string) :
  p <> "" -> barrierb p ", " = true ->
  free_optlist p o = true -> free p d = true -> free p (join_or o d) = true.
Proof.
  intros Hp Hs Ho Hd. unfold join_or. apply free_or_str; [| exact Hd].
  destruct o as [l|]; [| reflexivity]. cbn [option_map free_opt].
  now apply free_join.
Qed.

Ltac static := vm_compute; first [reflexivity | discriminate].

Ltac split_andb :=
  repeat match goal with
         | H : (_ && _) = true |- _ =>
             let H1 := fresh H in
             apply andb_true_iff in H; destruct H as [H H1]
         end.

Ltac data :=
  lazymatch goal with
  | |- free _ (show_str _) = true => apply free_show_str; [assumption | static]
  | |- free _ (show_num _) = true => apply free_show_num; static
  | |- free _ (or_str _ _) = true => apply free_or_str; [assumption | static]
  | |- free _ (or_num _ _) = true => apply free_or_num; static
  | |- free _ (join_or _ _) = true =>
      apply free_join_or; [static | static | assumption | static]
  | |- free _ (join _ _) = true =>
      apply free_join; [static | static | assumption]
  | |- free _ _ = true => assumption
  end.

Ltac guard_step :=
  lazymatch goal with
  | |- leftguard _ "" => apply leftguard_nil
  | |- leftguard ?p (?l ++ ?d ++ ?r) =>
      first
        [ apply (leftguard_data p l d r); [static | solve [data] | ]
        | lazymatch r with
          | ?d' ++ ?r' =>
              apply (leftguard_data2 p l d d' r'); [static | solve [data] | ]
          end
        | apply (leftguard_app p l (d ++ r));
            [first [assumption | apply leftguard_nil] | ]
        | apply (leftguard_lit p l (d ++ r)); [static | ] ]
  | |- leftguard ?p (?l ++ ?d) =>
      first
        [ apply (leftguard_data_end p l d); [static | solve [data]]
        | apply (leftguard_app p l d);
            [first [assumption | apply leftguard_nil] | ]
        | apply (leftguard_lit p l d); [static | ] ]
  | |- leftguard ?p ?l =>
      first [ assumption | apply (leftguard_lit_end p l); static ]
  end.

Ltac guards := repeat guard_step.

(** *** The blocks of the summary, guarded against the vitals heading *)





Lemma Forall_guard_map {A} (p : string) (f : A -> string) (ok : A -> bool)
  (l : list A) :
  (forall x, ok x = true -> leftguard p (f x)) ->
  forallb ok l = true -> Forall (leftguard p) (map f l).
Proof.
  intros Hf. induction l as [|x l IH]; cbn [forallb map]; intros H;
    [constructor|].
  apply andb_true_iff in H. destruct H as [Hx Hl].
  constructor; [now apply Hf | now apply IH].
Qed.



Lemma free_input_parts (p : string) (env : Env) (user : User)
  (profile : option Profile) (medications : list Medication)
  (familyName : option string) (contacts : list Contact)
  (vitalsArray : list Vital) :
  free_input p env user profile medications familyName contacts vitalsArray
  = true ->
  free p (toLocaleString env (now env)) = true
  /\ free p (user_name user) = true
  /\ free p (user_email user) = true
  /\ free_opt p familyName = true
  /\ free_profile_opt p profile = true
  /\ forallb (free_medication p) medications = true
  /\ forallb (free_contact p) contacts = true
  /\ free_vitals p env vitalsArray = true.
Proof.
  unfold free_input. intros H.
  repeat (apply andb_true_iff in H; destruct H as [H ?]). tauto.
Qed.


(** *** The summary after [.trim()] *)

Lemma trimStart_line (s w : string) (c : ascii) :
  first_char s = Some c -> plain c = true ->
  trimStart (nl ++ s ++ w) = s ++ w.
Proof.
  intros H Hc. change (nl ++ s ++ w) with (String "010" (s ++ w)).
  rewrite trimStart_cons. change (is_ws "010") with true. cbv iota.
  apply (trimStart_plain _ c); [| exact Hc].
  destruct s; [discriminate | exact H].
Qed.

Lemma last_char_app_r (a b : string) (c : ascii) :
  last_char b = Some c -> last_char (a ++ b) = Some c.
Proof. intros H. now rewrite last_char_app, H. Qed.

Ltac last_piece :=
  repeat lazymatch goal with
         | |- last_char (_ ++ _) = Some _ => apply last_char_app_r
         end;
  reflexivity.

Lemma summaryText_trimmed
  (env : Env) (user : User) (profile : option Profile)
  (medications : list Medication) (familyName : option string)
  (contacts : list Contact) (vitalsArray : list Vital) :
  summaryText env user profile medications familyName contacts vitalsArray
  = summary_body env user profile medications familyName contacts vitalsArray.
Proof.
  unfold summaryText, summary_template, trim.
  rewrite (trimStart_line _ _ "H"%char) by reflexivity.
  rewrite trimEnd_app_blank by reflexivity.
  apply (trimEnd_nonblank _ "."%char); [| reflexivity].
  unfold summary_body, instructions_block. last_piece.
Qed.

(** *** Finding a passage in a text *)

Lemma prefix_app_cancel (a p s : string) :
  prefix (a ++ p) (a ++ s) = prefix p s.
Proof.
  induction a as [|c a IH]; [reflexivity|]. cbn [append].
  now rewrite prefix_cons, Ascii.eqb_refl, IH.
Qed.

Lemma includes_prefix (p s : string) :
  prefix p s = true -> includes s p = true.
Proof.
  intros H. destruct s; cbn [includes]; now rewrite H.
Qed.

Lemma includes_trans (s t u : string) :
  includes s t = true -> includes t u = true -> includes s u = true.
Proof.
  intros H1 H2. apply includes_occurs in H1, H2.
  destruct H1 as [a [b ->]]. destruct H2 as [a' [b' ->]].
  apply includes_occurs. exists (a ++ a'), (b' ++ b).
  now rewrite !append_assoc.
Qed.

Lemma includes_join_item {A} (sep : string) (f : A -> string) (l : list A)
  (x : A) :
  In x l -> includes (join sep (map f l)) (f x) = true.
Proof.
  induction l as [|y l IH]; [contradiction|]. intros [-> | Hin].
  - unfold join. cbn [map String.concat]. destruct (map f l).
    + apply includes_prefix. pose proof (prefix_app (f x) "") as H.
      now rewrite append_nil_r in H.
    + apply includes_prefix, prefix_app.
  - specialize (IH Hin). unfold join in *. cbn [map String.concat].
    destruct (map f l) as [|z m] eqn:E.
    + destruct l; [contradiction | discriminate].
    + now apply includes_app_r, includes_app_r.
Qed.

Ltac prefixed :=
  repeat rewrite prefix_app_cancel;
  first [ apply prefix_app
        | lazymatch goal with
          | |- prefix ?p ?p = true =>
              let H := fresh in
              pose proof (prefix_app p "") as H;
              rewrite append_nil_r in H; exact H
          end ].

Ltac found :=
  repeat first [ apply includes_prefix; solve [prefixed]
               | apply includes_app_r ].





(** *** The blocks of the summary, guarded against the frequency label *)

Lemma contact_item_guard_frequency (c : Contact) :
  free_contact frequency_label c = true ->
  leftguard frequency_label (contact_item c).
Proof.
  unfold free_contact, contact_item. intros H. split_andb. guards.
Qed.

Lemma contacts_block_guard_frequency (contacts : list Contact) :
  forallb (free_contact frequency_label) contacts = true ->
  leftguard frequency_label (contacts_block contacts).
Proof.
  intros H. apply leftguard_join; [static|].
  exact (Forall_guard_map _ _ _ _ contact_item_guard_frequency H).
Qed.

Lemma personal_block_guard_frequency (profile : option Profile) :
  free_profile_opt frequency_label profile = true ->
  leftguard frequency_label (personal_block profile).
Proof.
  destruct profile as [pr|];
    unfold free_profile_opt, free_profile, personal_block; intros H;
    split_andb; guards.
Qed.

Lemma medical_block_guard_frequency (profile : option Profile) :
  free_profile_opt frequency_label profile = true ->
  leftguard frequency_label (medical_block profile).
Proof.
  destruct profile as [pr|];
    unfold free_profile_opt, free_profile, medical_block; intros H;
    split_andb; guards.
Qed.

Lemma vitals_block_guard_frequency (env : Env) (vitalsArray : list Vital) :
  free_vitals frequency_label env vitalsArray = true ->
  leftguard frequency_label (vitals_block env vitalsArray).
Proof.
  destruct vitalsArray as [|v rest]; unfold free_vitals, vitals_block;
    intros H; guards.
Qed.

Lemma summary_body_free_of_frequency
  (env : Env) (user : User) (profile : option Profile)
  (familyName : option string) (contacts : list Contact)
  (vitalsArray : list Vital) :
  free_input frequency_label env user profile [] familyName contacts vitalsArray
  = true ->
  includes (summary_body env user profile [] familyName contacts vitalsArray)
    frequency_label = false.
Proof.
  intros H. apply leftguard_free; [discriminate|].
  destruct (free_input_parts _ _ _ _ _ _ _ _ H)
    as (Hnow & Hname & Hmail & Hfam & Hprof & _ & Hcont & Hvit).
  pose proof (personal_block_guard_frequency profile Hprof) as Gp.
  pose proof (medical_block_guard_frequency profile Hprof) as Gm.
  pose proof (contacts_block_guard_frequency contacts Hcont) as Gc.
  pose proof (vitals_block_guard_frequency env vitalsArray Hvit) as Gv.
  unfold summary_body, instructions_block.
  change (medications_block []) with "No current medications".
  guards.
Qed.

Lemma medication_item_labelled (m : Medication) :
  includes (medication_item m) frequency_label = true.
Proof.
  apply (includes_trans _ "    Frequency: "); [| reflexivity].
  unfold medication_item. found.
Qed.

(** C8. With no medication the summary contains "No current medications":
    the section consists of its heading, the underline, that line and a
    blank line, and no itemized entry is rendered: the summary contains
    neither the label "Frequency:" nor the item of any medication (no text
    supplied to the summary containing that label). *)
Theorem no_medications_rendered
  (env : Env) (user : User) (profile : option Profile)
  (familyName : option string) (contacts : list Contact)
  (vitalsArray : list Vital) :
  let text :=
    summaryText env user profile [] familyName contacts vitalsArray in
  includes text "No current medications" = true
  /\ includes text ("CURRENT MEDICATIONS" ++ nl ++ "-----------------" ++ nl ++
                    "No current medications" ++ nl ++ nl) = true
  /\ (free_input frequency_label env user profile [] familyName contacts
        vitalsArray = true ->
      includes text "Frequency:" = false
      /\ forall m, includes text (medication_item m) = false).
Proof.
  cbv zeta. rewrite summaryText_trimmed.
  assert (Hsec : includes (summary_body env user profile [] familyName contacts
                             vitalsArray)
                   ("CURRENT MEDICATIONS" ++ nl ++ "-----------------" ++ nl ++
                    "No current medications" ++ nl ++ nl) = true).
  { unfold summary_body.
    change (medications_block []) with "No current medications". found. }
  split; [| split].
  - apply (includes_trans _ _ _ Hsec). reflexivity.
  - exact Hsec.
  - intros H. pose proof (summary_body_free_of_frequency _ _ _ _ _ _ H) as Hf.
    split; [exact Hf|]. intros m.
    destruct (includes _ (medication_item m)) eqn:E; [| reflexivity].
    rewrite <- Hf. symmetry.
    exact (includes_trans _ _ _ E (medication_item_labelled m)).
Qed.

Lemma no_medications_rendered_witness :
  includes (summaryText sample_env sample_user (Some bare_profile) []
              (Some "Smith") [alice; bob] [newer_vital]) "Frequency:" = false
  /\ forall m,
       includes (summaryText sample_env sample_user (Some bare_profile) []
                   (Some "Smith") [alice; bob] [newer_vital])
         (medication_item m) = false.
Proof.
  destruct (no_medications_rendered sample_env sample_user (Some bare_profile)
              (Some "Smith") [alice; bob] [newer_vital]) as [_ [_ H]].
  apply H. vm_compute. reflexivity.
Defined.

(* ------------------------------------------------------------------ *)
(** ** Placeholders of the summary *)

Lemma or_str_missing (o : option string) (d : string) :
  truthy_str o = false -> or_str o d = d.
Proof. unfold or_str. now intros ->. Qed.

Lemma or_num_missing (o : option number) (d : string) :
  truthy_num o = false -> or_num o d = d.
Proof. unfold or_num. now intros ->. Qed.

Lemma contact_item_without_phone (c : Contact) :
  truthy_str (phone c) = false ->
  contact_item c
  = "- " ++ show_str (contact_name c) ++ " (" ++ show_str (relation c) ++ ")"
    ++ nl ++ "    Phone: Not provided" ++ nl ++
    "    Email: " ++ show_str (email c).
Proof.
  intros H. unfold contact_item. now rewrite (or_str_missing _ _ H).
Qed.

Ltac in_body :=
  rewrite summaryText_trimmed;
  unfold summary_body, personal_block, medical_block, join_or;
  rewrite ?append_assoc.

(** C6, as the code has it. The summary always has the headings of the
    personal, medical, medication and contact sections. A missing profile
    renders "No profile information available" and "No medical information
    available"; within a profile a missing blood group, age or gender
    renders "Not Provided", missing allergies or conditions "None reported",
    a missing doctor email "None registered"; a contact without a phone
    renders "Not provided". *)
Theorem placeholders_rendered
  (env : Env) (user : User) (profile : option Profile)
  (medications : list Medication) (familyName : option string)
  (contacts : list Contact) (vitalsArray : list Vital) :
  let text := summaryText env user profile medications familyName contacts
                vitalsArray in
  (includes text ("PERSONAL INFORMATION" ++ nl ++ "------------------" ++ nl) = true
   /\ includes text ("MEDICAL INFORMATION" ++ nl ++ "-----------------" ++ nl) = true
   /\ includes text ("CURRENT MEDICATIONS" ++ nl ++ "-----------------" ++ nl) = true
   /\ includes text ("EMERGENCY CONTACTS" ++ nl ++ "----------------" ++ nl) = true)
  /\
  (profile = None ->
   includes text (nl ++ "No profile information available" ++ nl) = true
   /\ includes text (nl ++ "No medical information available" ++ nl) = true)
  /\
  (forall pr, profile = Some pr ->
     (truthy_str (blood_group pr) = false ->
      includes text ("Blood Group: Not Provided" ++ nl) = true)
     /\ (truthy_num (age pr) = false ->
         includes text ("Age: Not Provided" ++ nl) = true)
     /\ (truthy_str (gender pr) = false ->
         includes text ("Gender: Not Provided" ++ nl) = true)
     /\ (truthy_str (option_map (join ", ") (allergies pr)) = false ->
         includes text ("Allergies: None reported" ++ nl) = true)
     /\ (truthy_str (option_map (join ", ") (existing_conditions pr)) = false ->
         includes text ("Existing Conditions: None reported" ++ nl) = true)
     /\ (truthy_str (option_map (join ", ") (family_doctor_email pr)) = false ->
         includes text ("Family Doctor Email: None registered" ++ nl) = true))
  /\
  (forall c, In c contacts -> truthy_str (phone c) = false ->
     includes text
       ("- " ++ show_str (contact_name c) ++ " (" ++ show_str (relation c) ++ ")"
        ++ nl ++ "    Phone: Not provided" ++ nl ++
        "    Email: " ++ show_str (email c)) = true).
Proof.
  cbv zeta. split; [| split; [| split]].
  - repeat split; in_body; found.
  - intros ->. split; in_body.
    + found.
    + found.
  - intros pr ->. repeat split; intros H; in_body.
    + rewrite (or_str_missing _ "Not Provided" H).
      change ("Blood Group: Not Provided" ++ nl)
        with ("Blood Group: " ++ "Not Provided" ++ nl). found.
    + rewrite (or_num_missing _ "Not Provided" H).
      change ("Age: Not Provided" ++ nl)
        with ("Age: " ++ "Not Provided" ++ nl). found.
    + rewrite (or_str_missing _ "Not Provided" H).
      change ("Gender: Not Provided" ++ nl)
        with ("Gender: " ++ "Not Provided" ++ nl). found.
    + rewrite (or_str_missing _ "None reported" H).
      change ("Allergies: None reported" ++ nl)
        with ("Allergies: " ++ "None reported" ++ nl). found.
    + rewrite (or_str_missing _ "None reported" H).
      change ("Existing Conditions: None reported" ++ nl)
        with ("Existing Conditions: " ++ "None reported" ++ nl). found.
    + rewrite (or_str_missing _ "None registered" H).
      change ("Family Doctor Email: None registered" ++ nl)
        with ("Family Doctor Email: " ++ "None registered" ++ nl). found.
  - intros c Hin H. rewrite <- (contact_item_without_phone c H).
    apply (includes_trans _ (contacts_block contacts)).
    + in_body. found.
    + unfold contacts_block. now apply includes_join_item.
Qed.

Lemma placeholders_rendered_witness :
  includes (summaryText sample_env sample_user (Some bare_profile) []
              (Some "Smith") [alice; bob] [])
    ("Blood Group: Not Provided" ++ nl) = true
  /\ includes (summaryText sample_env sample_user (Some bare_profile) []
                 (Some "Smith") [alice; bob] [])
       ("- " ++ show_str (contact_name alice) ++ " ("
        ++ show_str (relation alice) ++ ")"
        ++ nl ++ "    Phone: Not provided" ++ nl ++
        "    Email: " ++ show_str (email alice)) = true.
Proof.
  destruct (placeholders_rendered sample_env sample_user (Some bare_profile) []
              (Some "Smith") [alice; bob] []) as [_ [_ [Hp Hc]]].
  split.
  - apply (Hp bare_profile eq_refl). reflexivity.
  - apply (Hc alice); [left; reflexivity | reflexivity].
Defined.

(** C6 as stated fails for the fields of an emergency contact: a contact
    without an email is rendered with the text "undefined", not with one of
    the placeholders. *)
Lemma missing_contact_email_renders_undefined :
  let text := summaryText sample_env sample_user None [] (Some "Smith")
                [alice; carol] [] in
  email carol = None
  /\ includes text ("- Carol (aunt)" ++ nl ++ "    Phone: 555-0101" ++ nl ++
                    "    Email: undefined" ++ nl) = true
  /\ forallb (fun placeholder =>
                negb (includes text ("    Email: " ++ placeholder)))
       ["Not Provided"; "Not provided"; "None reported"; "None registered";
        "None"] = true.
Proof. vm_compute. repeat split. Qed.

(* ------------------------------------------------------------------ *)
(** ** More on the summary fan-out *)

Section Messages.
Variable out : Contact -> send_outcome.

Lemma filter_failures_by_message (R : list Contact) :
  (forall c, In c R -> fulfils_undefined (out c) = false) ->
  filter_failures (map (fun c => settle c (out c)) R)
  = Some (map (fun c => RFailure (show_str (email c))
                          (rejection_message (out c)))
              (filter (fun c => counted_failure (out c)) R)).
Proof.
  induction R as [|c R IH]; intros H; [reflexivity|].
  cbn [map filter_failures filter].
  rewrite IH by (intros; apply H; now right).
  specialize (H c (or_introl eq_refl)).
  destruct (out c) as [[|]|m] eqn:E; cbn in *;
    try discriminate; try reflexivity.
  destruct (negb (m =? "")); cbn [map]; now rewrite ?E.
Qed.

Lemma sentTo_of_by_message (R : list Contact) :
  (forall c, In c R -> fulfils_undefined (out c) = false) ->
  sentTo_of R (map (fun c => settle c (out c)) R)
  = map (fun c => show_str (email c))
        (filter (fun c => negb (counted_failure (out c))) R).
Proof.
  unfold sentTo_of. rewrite combine_map_self.
  induction R as [|c R IH]; intros H; [reflexivity|].
  cbn [map filter fst snd].
  specialize (IH (fun c' Hc' => H c' (or_intror Hc'))).
  specialize (H c (or_introl eq_refl)).
  destruct (out c) as [[|]|m]; cbn in *; try discriminate.
  - now rewrite IH.
  - destruct (negb (m =? "")); cbn; now rewrite IH.
Qed.

End Messages.

(** Whatever the sends answer, short of fulfilling with [undefined], the
    response of [shareSummary] is decided by the sends rejected with a
    non-empty message: 500 when these are all the valid contacts, otherwise
    200 with the other contacts in [sentTo] and these, if any, in
    [failures]. *)
Theorem shareSummary_response_by_messages
  (env : Env) (user : User) (profile : option Profile)
  (medications : list Medication) (fam : Family) (contacts : list Contact)
  (vitalsArray : list Vital) :
  let R := filter valid_contact contacts in
  let out := summary_send env user profile medications (Some fam) vitalsArray in
  let F := filter (fun c => counted_failure (out c)) R in
  let S := filter (fun c => negb (counted_failure (out c))) R in
  emergency_contacts fam = Some contacts ->
  R <> [] ->
  (forall c, In c R -> fulfils_undefined (out c) = false) ->
  snd (shareSummary env user profile medications (Some fam) vitalsArray)
  = if (List.length F =? List.length R)%nat
    then reply 500 (Failure "Failed to send summary email. Please try again.")
    else reply 200
           (SummaryShared "Health summary shared with emergency contacts"
              (map (fun c => show_str (email c)) S)
              (match F with
               | [] => None
               | _ => Some (map (fun c => RFailure (show_str (email c))
                                            (rejection_message (out c))) F)
               end)).
Proof.
  intros R out F S Hc HR Hu.
  rewrite (shareSummary_unfold env user profile medications fam contacts
             vitalsArray Hc HR).
  cbv zeta. fold R. fold out.
  rewrite (filter_failures_by_message out R Hu).
  rewrite (sentTo_of_by_message out R Hu).
  rewrite length_map. fold F. fold S.
  destruct F as [|f F'] eqn:EF.
  - cbn [List.length Nat.ltb Nat.leb andb map].
    destruct R; [now elim HR | reflexivity].
  - change (0 <? List.length (f :: F'))%nat with true. cbn [andb].
    destruct (List.length (f :: F') =? List.length R)%nat; reflexivity.
Qed.

Lemma shareSummary_response_by_messages_witness :
  snd (shareSummary sample_env sample_user None [] (Some sample_family) [])
  = reply 200
      (SummaryShared "Health summary shared with emergency contacts"
         ["a@x.com"] (Some [RFailure "b@x.com" "SMTP down"])).
Proof.
  refine (shareSummary_response_by_messages sample_env sample_user None []
            sample_family [alice; dave; bob] [] eq_refl _ _).
  - vm_compute. discriminate.
  - intros c Hc. vm_compute in Hc.
    destruct Hc as [<- | [<- | []]]; vm_compute; reflexivity.
Defined.

Lemma no_counted_failure (out : Contact -> send_outcome) (R : list Contact) :
  (forall c, In c R -> out c = Rejected "") ->
  filter (fun c => counted_failure (out c)) R = []
  /\ filter (fun c => negb (counted_failure (out c))) R = R.
Proof.
  induction R as [|c R IH]; intros H; [now split|]. cbn [filter].
  rewrite (H c (or_introl eq_refl)). cbn.
  destruct IH as [IH1 IH2]; [intros; apply H; now right|].
  now rewrite IH1, IH2.
Qed.

(** Rejections whose error has an empty message are not seen as failures:
    when every send is rejected that way, [shareSummary] still answers 200,
    lists every valid contact in [sentTo], reports no failure and logs
    none. *)
Theorem shareSummary_empty_messages_reported_sent
  (env : Env) (user : User) (profile : option Profile)
  (medications : list Medication) (fam : Family) (contacts : list Contact)
  (vitalsArray : list Vital) :
  let R := filter valid_contact contacts in
  let out := summary_send env user profile medications (Some fam) vitalsArray in
  let run := shareSummary env user profile medications (Some fam) vitalsArray in
  emergency_contacts fam = Some contacts ->
  R <> [] ->
  (forall c, In c R -> out c = Rejected "") ->
  snd run
  = reply 200
      (SummaryShared "Health summary shared with emergency contacts"
         (map (fun c => show_str (email c)) R) None)
  /\ reasons_logged (fst run) = [].
Proof.
  intros R out run Hc HR Hall.
  assert (Hu : forall c, In c R -> fulfils_undefined (out c) = false)
    by (intros c Hin; now rewrite (Hall c Hin)).
  destruct (no_counted_failure out R Hall) as [HF HS].
  unfold run.
  rewrite (shareSummary_unfold env user profile medications fam contacts
             vitalsArray Hc HR).
  cbv zeta. fold R. fold out.
  rewrite (filter_failures_by_message out R Hu).
  rewrite (sentTo_of_by_message out R Hu).
  rewrite HF, HS. cbn [map List.length Nat.ltb Nat.leb andb fst snd].
  split; [reflexivity|].
  rewrite List.app_nil_r. apply reasons_logged_sends.
Qed.

Lemma shareSummary_empty_messages_reported_sent_witness :
  snd (shareSummary silent_env sample_user None [] (Some sample_family) [])
  = reply 200
      (SummaryShared "Health summary shared with emergency contacts"
         ["a@x.com"; "b@x.com"] None)
  /\ reasons_logged
       (fst (shareSummary silent_env sample_user None [] (Some sample_family) []))
     = [].
Proof.
  refine (shareSummary_empty_messages_reported_sent silent_env sample_user None
            [] sample_family [alice; dave; bob] [] eq_refl _ _).
  - vm_compute. discriminate.
  - intros c Hc. reflexivity.
Defined.

Lemma shareSummary_undefined_fulfilment_witness :
  snd (shareSummary void_env sample_user None [] (Some sample_family) [])
  = reply 500 (Failure "Failed to send summary email. Please try again.").
Proof.
  refine (shareSummary_undefined_fulfilment void_env sample_user None []
            sample_family [alice; dave; bob] [] alice eq_refl _ eq_refl).
  vm_compute. now left.
Defined.

Lemma shareSummary_all_delivered_witness :
  shareSummary fallback_env sample_user None [] (Some sample_family) []
  = (map (fun to => Send to (summary_subject sample_user)
                      (summaryText fallback_env sample_user None []
                         (family_name sample_family) [alice; dave; bob] []))
         ["a@x.com"; "b@x.com"],
     reply 200
       (SummaryShared "Health summary shared with emergency contacts"
          ["a@x.com"; "b@x.com"] None)).
Proof.
  refine (shareSummary_all_delivered fallback_env sample_user None []
            sample_family [alice; dave; bob] [] eq_refl _ _).
  - vm_compute. discriminate.
  - intros c Hc. reflexivity.
Defined.

Lemma messages_app (t1 t2 : list event) :
  messages (t1 ++ t2) = (messages t1 ++ messages t2)%list.
Proof. unfold messages. apply flat_map_app. Qed.

Lemma messages_sends (subject text : string) (tos : list string) :
  messages (map (fun to => Send to subject text) tos)
  = map (fun _ => (subject, text)) tos.
Proof. induction tos as [|t tos IH]; simpl; [reflexivity | now rewrite IH]. Qed.

(** Both fan-out handlers send one and the same message: every mail of a
    call carries the handler's subject and the one text rendered for the
    call, once per valid recipient. *)
Theorem fan_out_sends_one_message
  (env : Env) (user : User) (profile : option Profile)
  (medications : list Medication) :
  (forall contacts,
     messages (fst (mailEmergencyContacts env user contacts profile medications))
     = map (fun _ => (mail_subject,
                      mailEmergencyContacts_text env user profile medications))
           (request_emails contacts))
  /\
  (forall family vitalsArray,
     messages (fst (shareSummary env user profile medications family vitalsArray))
     = map (fun _ => (summary_subject user,
                      summaryText env user profile medications
                        (family_name_of family) (family_contacts family)
                        vitalsArray))
           (filter valid_contact (family_contacts family))).
Proof.
  split.
  - intros contacts.
    destruct (request_emails contacts) as [|e es] eqn:E.
    + now rewrite (proj1 (mailEmergencyContacts_rejects_empty env user contacts
                            profile medications E)).
    + rewrite mailEmergencyContacts_unfold by (rewrite E; discriminate).
      cbv zeta. rewrite <- E.
      destruct (first_rejection _); cbn [fst].
      * rewrite messages_app, messages_sends. apply List.app_nil_r.
      * apply messages_sends.
  - intros family vitalsArray.
    destruct (filter valid_contact (family_contacts family)) as [|c0 R0] eqn:HR.
    + now rewrite (proj1 (shareSummary_rejects_empty env user profile medications
                            family vitalsArray HR)).
    + destruct family as [fam|]; [| discriminate].
      cbn [family_contacts family_name_of] in *.
      destruct (emergency_contacts fam) as [contacts|] eqn:Hc; [| discriminate].
      rewrite (shareSummary_unfold env user profile medications fam contacts
                 vitalsArray Hc) by (rewrite HR; discriminate).
      cbv zeta. rewrite <- HR.
      destruct (filter_failures _) as [fs|]; cbn [fst snd].
      * destruct ((0 <? List.length fs)%nat && _); cbn [fst];
          rewrite !messages_app, messages_sends, map_map;
          destruct (0 <? List.length fs)%nat; apply List.app_nil_r.
      * rewrite messages_app, messages_sends, map_map. apply List.app_nil_r.
Qed.

(** Every emergency contact, with or without a usable email, and every
    medication is itemized in the summary. *)
Theorem summary_lists_contacts_and_medications
  (env : Env) (user : User) (profile : option Profile)
  (medications : list Medication) (familyName : option string)
  (contacts : list Contact) (vitalsArray : list Vital) :
  let text := summaryText env user profile medications familyName contacts
                vitalsArray in
  (forall c, In c contacts -> includes text (contact_item c) = true)
  /\ (forall m, In m medications -> includes text (medication_item m) = true).
Proof.
  cbv zeta. rewrite summaryText_trimmed. split.
  - intros c Hin. apply (includes_trans _ (contacts_block contacts)).
    + unfold summary_body. found.
    + unfold contacts_block. now apply includes_join_item.
  - intros m Hin. apply (includes_trans _ (medications_block medications)).
    + unfold summary_body. found.
    + unfold medications_block. destruct medications as [|m0 ms]; [contradiction|].
      cbn [List.length Nat.ltb Nat.leb]. now apply includes_join_item.
Qed.

Lemma summary_lists_contacts_and_medications_witness :
  includes (summaryText sample_env sample_user None [aspirin] (Some "Smith")
              [alice; carol] []) (contact_item carol) = true
  /\ includes (summaryText sample_env sample_user None [aspirin] (Some "Smith")
                 [alice; carol] []) (medication_item aspirin) = true.
Proof.
  destruct (summary_lists_contacts_and_medications sample_env sample_user None
              [aspirin] (Some "Smith") [alice; carol] []) as [Hc Hm].
  split; [apply Hc | apply Hm]; cbn; auto.
Defined.

Lemma ends_with_app (x s e : string) : ends_with s e -> ends_with (x ++ s) e.
Proof. intros [a ->]. exists (x ++ a). now rewrite append_assoc. Qed.

Lemma ends_with_refl (e : string) : ends_with e e.
Proof. now exists "". Qed.

Lemma in_order_skip (ps : list string) (x s : string) :
  in_order ps s -> in_order ps (x ++ s).
Proof.
  destruct ps as [|p rest]; [trivial|]. cbn [in_order].
  intros [a [b [-> H]]]. exists (x ++ a), b. split; [| exact H].
  now rewrite append_assoc.
Qed.

Lemma in_order_here (p : string) (rest : list string) (s : string) :
  in_order rest s -> in_order (p :: rest) (p ++ s).
Proof. intros H. now exists "", s. Qed.

Ltac ordered :=
  repeat lazymatch goal with
         | |- in_order [] _ => exact I
         | |- in_order (?p :: _) (?p ++ _) => apply in_order_here
         | |- in_order _ (_ ++ _) => apply in_order_skip
         end.

(** The summary is trimmed text: it starts with its title, ends with the
    closing sentence of the instructions and has no white space around it. *)
Theorem summary_is_trimmed
  (env : Env) (user : User) (profile : option Profile)
  (medications : list Medication) (familyName : option string)
  (contacts : list Contact) (vitalsArray : list Vital) :
  let text := summaryText env user profile medications familyName contacts
                vitalsArray in
  prefix "HEALTH SUMMARY REPORT" text = true
  /\ ends_with text
       "This is an automated emergency health summary. Please do not reply."
  /\ trim text = text.
Proof.
  cbv zeta. rewrite summaryText_trimmed. split; [| split].
  - unfold summary_body. apply prefix_app.
  - unfold summary_body, instructions_block.
    repeat lazymatch goal with
           | |- ends_with (_ ++ _) _ => apply ends_with_app
           end.
    apply ends_with_refl.
  - unfold trim.
    rewrite (trimStart_plain _ "H"%char) by reflexivity.
    apply (trimEnd_nonblank _ "."%char); [| reflexivity].
    unfold summary_body, instructions_block. last_piece.
Qed.

(** The sections of the summary come in a fixed order; the vitals section,
    when there is one, stands between the medications and the contacts. *)
Theorem summary_sections_in_order
  (env : Env) (user : User) (profile : option Profile)
  (medications : list Medication) (familyName : option string)
  (contacts : list Contact) (vitalsArray : list Vital) :
  let text := summaryText env user profile medications familyName contacts
                vitalsArray in
  in_order ["HEALTH SUMMARY REPORT"; "PERSONAL INFORMATION";
            "MEDICAL INFORMATION"; "CURRENT MEDICATIONS";
            "EMERGENCY CONTACTS"; "EMERGENCY INSTRUCTIONS"] text
  /\ (vitalsArray <> [] ->
      in_order ["CURRENT MEDICATIONS"; "RECENT VITAL SIGNS";
                "EMERGENCY CONTACTS"] text).
Proof.
  cbv zeta. rewrite summaryText_trimmed. split.
  - unfold summary_body, instructions_block. ordered.
  - intros Hv. destruct vitalsArray as [|v rest]; [now elim Hv|].
    unfold summary_body, vitals_block. rewrite !append_assoc. ordered.
Qed.

Lemma summary_sections_in_order_witness :
  in_order ["CURRENT MEDICATIONS"; "RECENT VITAL SIGNS"; "EMERGENCY CONTACTS"]
    (summaryText sample_env sample_user None [] (Some "Smith") [alice]
       [newer_vital]).
Proof.
  refine (proj2 (summary_sections_in_order sample_env sample_user None []
                   (Some "Smith") [alice] [newer_vital]) _).
  discriminate.
Defined.

(* ------------------------------------------------------------------ *)
(** ** More on the contact mails *)

Lemma earliest_rejection_spec (l : list (nat * send_outcome)) (t : nat)
  (m : string) :
  earliest_rejection l = Some (t, m) ->
  In (t, Rejected m) l
  /\ forall t' m', In (t', Rejected m') l -> (t <= t')%nat.
Proof.
  revert t m. induction l as [|[t0 o] l IH]; intros t m; [discriminate|].
  cbn [earliest_rejection]. destruct o as [v|m0].
  - intros H. destruct (IH t m H) as [Hin Hmin]. split; [now right|].
    intros t' m' [E | Hin']; [discriminate | now apply (Hmin t' m')].
  - destruct (earliest_rejection l) as [[t1 m1]|] eqn:E.
    + destruct (IH t1 m1 eq_refl) as [Hin Hmin].
      destruct (t1 <? t0)%nat eqn:Elt; intros H; injection H as <- <-.
      * apply Nat.ltb_lt in Elt. split; [now right|].
        intros t' m' [E' | Hin']; [injection E' as <- <-; lia|].
        now apply (Hmin t' m').
      * apply Nat.ltb_ge in Elt. split; [now left|].
        intros t' m' [E' | Hin']; [injection E' as <- <-; lia|].
        specialize (Hmin t' m' Hin'). lia.
    + intros H. injection H as <- <-. split; [now left|].
      intros t' m' [E' | Hin']; [injection E' as <- <-; lia|].
      exfalso. rewrite earliest_rejection_none in E.
      specialize (E _ Hin'). discriminate.
Qed.

(** When [mailEmergencyContacts] answers 500, the error it reports is the
    message of a rejected send to one of the valid addresses, and no
    rejected send settled before that one: [Promise.all] rejects with the
    first rejection, wherever its address stands in the request. *)
Theorem mailEmergencyContacts_reports_first_rejection
  (env : Env) (user : User) (contacts : jsvalue) (profile : option Profile)
  (medications : list Medication) (m : string) :
  let send := fun to => sendEmergencyEmail env to mail_subject
                          (mailEmergencyContacts_text env user profile
                             medications) in
  snd (mailEmergencyContacts env user contacts profile medications)
  = reply 500 (ErrorOnly m) ->
  exists to,
    In to (request_emails contacts)
    /\ send to = Rejected m
    /\ forall to', In to' (request_emails contacts) ->
                   rejected (send to') = true ->
                   (settles_at env to <= settles_at env to')%nat.
Proof.
  cbv zeta. intros H.
  destruct (request_emails contacts) as [|e es] eqn:E.
  { destruct (mailEmergencyContacts_rejects_empty env user contacts profile
                medications E) as [_ H400].
    rewrite H in H400. discriminate. }
  rewrite mailEmergencyContacts_unfold in H by (rewrite E; discriminate).
  cbv zeta in H. rewrite E in H. unfold first_rejection in H.
  destruct (earliest_rejection _) as [[t m']|] eqn:Ee; cbn [option_map snd] in H;
    [| discriminate].
  injection H as ->.
  destruct (earliest_rejection_spec _ t m Ee) as [Hin Hmin].
  apply in_map_iff in Hin. destruct Hin as [to [Hto Hin]].
  injection Hto as <- Hm. exists to. split; [exact Hin|]. split; [exact Hm|].
  intros to' Hin' Hr.
  destruct (sendEmergencyEmail env to' mail_subject _) as [v|m'] eqn:E';
    [discriminate|].
  apply (Hmin (settles_at env to') m').
  apply in_map_iff. exists to'. now rewrite E'.
Qed.

Lemma mailEmergencyContacts_reports_first_rejection_witness :
  exists to,
    In to (request_emails sample_request)
    /\ sendEmergencyEmail racing_env to mail_subject
         (mailEmergencyContacts_text racing_env sample_user None [])
       = Rejected "SMTP down"
    /\ forall to', In to' (request_emails sample_request) ->
                   rejected (sendEmergencyEmail racing_env to' mail_subject
                               (mailEmergencyContacts_text racing_env
                                  sample_user None [])) = true ->
                   (settles_at racing_env to <= settles_at racing_env to')%nat.
Proof.
  exact (mailEmergencyContacts_reports_first_rejection racing_env sample_user
           sample_request None [] "SMTP down" eq_refl).
Defined.

(** The status of [mailEmergencyContacts] is 400 exactly when no valid
    address remains, 200 exactly when at least one remains and every send is
    delivered (the response then lists the valid addresses), and 500 exactly
    when some send is rejected. *)
Theorem mailEmergencyContacts_status
  (env : Env) (user : User) (contacts : jsvalue) (profile : option Profile)
  (medications : list Medication) :
  let emails := request_emails contacts in
  let text := mailEmergencyContacts_text env user profile medications in
  let all_delivered :=
    forall to, In to emails ->
               delivered (sendEmergencyEmail env to mail_subject text) = true in
  let response :=
    snd (mailEmergencyContacts env user contacts profile medications) in
  (status response = 400%nat <-> emails = [])
  /\ (status response = 200%nat <-> emails <> [] /\ all_delivered)
  /\ (status response = 500%nat <-> ~ all_delivered)
  /\ (status response = 200%nat ->
      json response = MailSent "Emergency info sent successfully." emails).
Proof.
  cbv zeta.
  destruct (request_emails contacts) as [|e es] eqn:E.
  - destruct (mailEmergencyContacts_rejects_empty env user contacts profile
                medications E) as [_ H400].
    rewrite H400. split; [tauto|]. split; [| split].
    + split; [discriminate | intros [H _]; now elim H].
    + split; [discriminate|]. intros H. exfalso. apply H. intros to [].
    + discriminate.
  - rewrite mailEmergencyContacts_unfold by (rewrite E; discriminate).
    cbv zeta. rewrite E.
    set (outs := map _ (e :: es)).
    assert (Hall : first_rejection outs = None <->
                   (forall to, In to (e :: es) ->
                      delivered (sendEmergencyEmail env to mail_subject
                                   (mailEmergencyContacts_text env user profile
                                      medications)) = true)).
    { rewrite first_rejection_none. unfold outs. split.
      - intros H to Hin.
        apply (H (settles_at env to,
                  sendEmergencyEmail env to mail_subject
                    (mailEmergencyContacts_text env user profile medications))).
        apply in_map_iff. now exists to.
      - intros H o Ho. apply in_map_iff in Ho. destruct Ho as [to [<- Hin]].
        now apply H. }
    destruct (first_rejection outs) as [m|]; cbn [snd status json reply].
    + assert (Hno : ~ (forall to, In to (e :: es) ->
                      delivered (sendEmergencyEmail env to mail_subject
                                   (mailEmergencyContacts_text env user profile
                                      medications)) = true)).
      { intros H. apply Hall in H. discriminate. }
      split; [split; discriminate|]. split; [| split].
      * split; [discriminate | intros [_ H]; contradiction].
      * tauto.
      * discriminate.
    + assert (Hyes := proj1 Hall eq_refl).
      split; [split; discriminate|]. split; [| split].
      * split; [intros _; split; [discriminate | exact Hyes] | reflexivity].
      * split; [discriminate | intros H; contradiction].
      * reflexivity.
Qed.

Lemma mailEmergencyContacts_status_witness :
  json (snd (mailEmergencyContacts fallback_env sample_user sample_request
               None []))
  = MailSent "Emergency info sent successfully." ["a@x.com"; "b@x.com"].
Proof.
  destruct (mailEmergencyContacts_status fallback_env sample_user sample_request
              None []) as [_ [_ [_ H]]].
  exact (H eq_refl).
Defined.

(** [shareEmergencyInfo] with the contact list of the family present. *)
Lemma shareEmergencyInfo_unfold
  (env : Env) (user : User) (contactId : string) (family : option Family)
  (profile : option Profile) (medications : list Medication) :
  (forall f, family = Some f -> emergency_contacts f <> None) ->
  shareEmergencyInfo env user contactId family profile medications =
  let contact := find_contact contactId (family_contacts family) in
  let contactEmail :=
    or_opt (contact_field contact email) (DEFAULT_EMERGENCY_EMAIL env) in
  if negb (truthy_str contactEmail) then
    ([], reply 400 (ErrorOnly "Emergency contact email not found."))
  else
    let to := show_str contactEmail in
    let emailText := shareEmergencyInfo_text user profile medications to in
    let sent := Send to "Emergency Medical Info" emailText in
    match sendEmergencyEmail env to "Emergency Medical Info" emailText with
    | Rejected m =>
        ([sent; ConsoleError "❌ shareEmergencyInfo error:" (LogMessage m)],
         reply 500 (ErrorOnly m))
    | Fulfilled _ =>
        ([sent], reply 200 (InfoShared "Emergency info emailed successfully" to))
    end.
Proof.
  intros Hlist. unfold shareEmergencyInfo.
  destruct family as [f|]; [| reflexivity].
  cbn [family_contacts].
  destruct (emergency_contacts f) eqn:E; [reflexivity|].
  exfalso. exact (Hlist f eq_refl E).
Qed.

Lemma find_contact_some (contactId : string) (l : list Contact) (c : Contact) :
  find_contact contactId l = Some c ->
  In c l /\ contact_id c = Some contactId.
Proof.
  unfold find_contact. intros H. apply find_some in H. destruct H as [Hin H].
  split; [exact Hin|]. destruct (contact_id c) as [i|]; [| discriminate].
  apply String.eqb_eq in H. now subst.
Qed.

Lemma or_opt_source (contactId : string) (l : list Contact)
  (fallback : option string) (to : string) :
  or_opt (contact_field (find_contact contactId l) email) fallback = Some to ->
  (exists c, In c l /\ contact_id c = Some contactId /\ email c = Some to)
  \/ fallback = Some to.
Proof.
  unfold or_opt.
  destruct (truthy_str (contact_field (find_contact contactId l) email))
    eqn:Ht; [| now right].
  intros H. left.
  destruct (find_contact contactId l) as [c|] eqn:Ef; [| discriminate].
  destruct (find_contact_some _ _ _ Ef) as [Hin Hid].
  exists c. now repeat split.
Qed.

(** The four ways a call of [shareEmergencyInfo] can go. *)
Lemma shareEmergencyInfo_cases
  (env : Env) (user : User) (contactId : string) (family : option Family)
  (profile : option Profile) (medications : list Medication) :
  let run := shareEmergencyInfo env user contactId family profile medications in
  let source (to : string) :=
    to <> ""
    /\ ((exists c, In c (family_contacts family)
                   /\ contact_id c = Some contactId /\ email c = Some to)
        \/ DEFAULT_EMERGENCY_EMAIL env = Some to) in
  run = ([], reply 400 (ErrorOnly "Emergency contact email not found."))
  \/ (exists m, run = ([ConsoleError "❌ shareEmergencyInfo error:" (LogMessage m)],
                       reply 500 (ErrorOnly m)))
  \/ (exists to text m,
        source to
        /\ run = ([Send to "Emergency Medical Info" text;
                   ConsoleError "❌ shareEmergencyInfo error:" (LogMessage m)],
                  reply 500 (ErrorOnly m)))
  \/ (exists to text,
        source to
        /\ run = ([Send to "Emergency Medical Info" text],
                  reply 200 (InfoShared "Emergency info emailed successfully" to))).
Proof.
  cbv zeta.
  assert (Hl : (exists f, family = Some f /\ emergency_contacts f = None)
               \/ forall f, family = Some f -> emergency_contacts f <> None).
  { destruct family as [f|]; [| right; discriminate].
    destruct (emergency_contacts f) eqn:E.
    - right. intros f' Hf. injection Hf as <-. rewrite E. discriminate.
    - left. now exists f. }
  destruct Hl as [[f [-> El]] | Hl].
  - right. left. unfold shareEmergencyInfo. rewrite El. eexists. reflexivity.
  - rewrite (shareEmergencyInfo_unfold env user contactId family profile
               medications Hl).
    cbv zeta.
    destruct (truthy_str (or_opt _ _)) eqn:Hd; cbn [negb]; [| now left].
    destruct (truthy_str_show _ Hd) as [d [Ed [Hne Hshow]]]. rewrite Hshow.
    pose proof (or_opt_source _ _ _ _ Ed) as Hsrc.
    destruct (sendEmergencyEmail env d _ _) as [v|m].
    + right. right. right. do 2 eexists. split; [| reflexivity]. now split.
    + right. right. left. do 3 eexists. split; [| reflexivity]. now split.
Qed.

(** [shareEmergencyInfo] mails at most one address, none when it answers
    400, and answers 200 only for the address it mailed. That address is
    never empty and is either the email of a contact of the family whose
    id is the requested one, or the default address. *)
Theorem shareEmergencyInfo_single_recipient
  (env : Env) (user : User) (contactId : string) (family : option Family)
  (profile : option Profile) (medications : list Medication) :
  let run := shareEmergencyInfo env user contactId family profile medications in
  (List.length (sent_to (fst run)) <= 1)%nat
  /\ (status (snd run) = 400%nat -> fst run = [])
  /\ (forall msg to,
        json (snd run) = InfoShared msg to ->
        status (snd run) = 200%nat /\ sent_to (fst run) = [to])
  /\ (forall to,
        In to (sent_to (fst run)) ->
        to <> ""
        /\ ((exists c, In c (family_contacts family)
                       /\ contact_id c = Some contactId
                       /\ email c = Some to)
            \/ DEFAULT_EMERGENCY_EMAIL env = Some to)).
Proof.
  cbv zeta.
  destruct (shareEmergencyInfo_cases env user contactId family profile
              medications)
    as [H | [[m H] | [[to [text [m [Hsrc H]]]] | [to [text [Hsrc H]]]]]];
    rewrite H; cbn [fst snd sent_to flat_map app List.length status json reply].
  - split; [lia|]. split; [reflexivity|]. split.
    + intros msg to' E. discriminate.
    + intros to' [].
  - split; [lia|]. split; [discriminate|]. split.
    + intros msg to' E. discriminate.
    + intros to' [].
  - split; [lia|]. split; [discriminate|]. split.
    + intros msg to' E. discriminate.
    + intros to' [<- | []]. exact Hsrc.
  - split; [lia|]. split; [discriminate|]. split.
    + intros msg to' E. injection E as _ <-. now split.
    + intros to' [<- | []]. exact Hsrc.
Qed.

Lemma shareEmergencyInfo_single_recipient_witness :
  status (snd (shareEmergencyInfo fallback_env sample_user "2"
                 (Some sample_family) None [])) = 200%nat
  /\ sent_to (fst (shareEmergencyInfo fallback_env sample_user "2"
                     (Some sample_family) None [])) = ["b@x.com"].
Proof.
  destruct (shareEmergencyInfo_single_recipient fallback_env sample_user "2"
              (Some sample_family) None []) as [_ [_ [H _]]].
  exact (H "Emergency info emailed successfully" "b@x.com" eq_refl).
Defined.

(** An email of the matched contact takes precedence over the default
    address: the mail goes to the contact, whatever the default is. *)
Theorem shareEmergencyInfo_prefers_contact
  (env : Env) (user : User) (contactId : string) (fam : Family)
  (contacts : list Contact) (c : Contact) (e : string)
  (profile : option Profile) (medications : list Medication) :
  emergency_contacts fam = Some contacts ->
  find_contact contactId contacts = Some c ->
  email c = Some e -> e <> "" ->
  sent_to (fst (shareEmergencyInfo env user contactId (Some fam) profile
                  medications)) = [e].
Proof.
  intros Hc Hf He Hne.
  rewrite shareEmergencyInfo_unfold
    by (intros f' Hf'; injection Hf' as <-; rewrite Hc; discriminate).
  cbv zeta. cbn [family_contacts]. rewrite Hc, Hf. cbn [contact_field].
  rewrite He. unfold or_opt. cbn [truthy_str].
  apply String.eqb_neq in Hne. rewrite Hne. cbn [negb truthy_str show_str].
  rewrite Hne. cbn [negb].
  destruct (sendEmergencyEmail env e _ _); reflexivity.
Qed.

Lemma shareEmergencyInfo_prefers_contact_witness :
  sent_to (fst (shareEmergencyInfo fallback_env sample_user "1"
                  (Some sample_family) None [])) = ["a@x.com"].
Proof.
  refine (shareEmergencyInfo_prefers_contact fallback_env sample_user "1"
            sample_family [alice; dave; bob] alice "a@x.com" None []
            eq_refl eq_refl eq_refl _).
  discriminate.
Defined.

(** A family document without its [emergency_contacts] array makes the
    lookup throw: the handler answers 500 with the message of the
    [TypeError] and sends nothing, even when a default address is set. *)
Theorem shareEmergencyInfo_missing_contact_list
  (env : Env) (user : User) (contactId : string) (fam : Family)
  (profile : option Profile) (medications : list Medication) :
  emergency_contacts fam = None ->
  let run := shareEmergencyInfo env user contactId (Some fam) profile
               medications in
  sent_to (fst run) = []
  /\ snd run
     = reply 500
         (ErrorOnly "Cannot read properties of undefined (reading 'find')").
Proof.
  intros H. cbv zeta. unfold shareEmergencyInfo. rewrite H. now split.
Qed.

Lemma shareEmergencyInfo_missing_contact_list_witness :
  snd (shareEmergencyInfo fallback_env sample_user "1"
         (Some {| family_name := Some "Smith"; emergency_contacts := None |})
         None [])
  = reply 500
      (ErrorOnly "Cannot read properties of undefined (reading 'find')").
Proof.
  exact (proj2 (shareEmergencyInfo_missing_contact_list fallback_env sample_user
                  "1" {| family_name := Some "Smith";
                         emergency_contacts := None |} None [] eq_refl)).
Defined.

(* ------------------------------------------------------------------ *)
(** ** The AI summary handler *)

Lemma name_and_dosage_mappable (l : list jsvalue) :
  forallb (fun m => match m with
                    | JUndefined | JNull => false
                    | _ => true
                    end) l = true ->
  exists r, name_and_dosage l = Normal r /\ List.length r = List.length l.
Proof.
  induction l as [|m l IH]; cbn [forallb name_and_dosage]; intros H.
  - now exists [].
  - apply andb_true_iff in H. destruct H as [Hm Hl].
    destruct (IH Hl) as [r [Hr Hlen]].
    destruct m; try discriminate; cbn [property bind]; rewrite Hr;
      cbn [bind]; eexists; (split; [reflexivity | cbn; now rewrite Hlen]).
Qed.

Lemma name_and_dosage_unmappable (l : list jsvalue) :
  forallb (fun m => match m with
                    | JUndefined | JNull => false
                    | _ => true
                    end) l = false ->
  exists e, name_and_dosage l = Throw e.
Proof.
  induction l as [|m l IH]; cbn [forallb name_and_dosage]; intros H;
    [discriminate|].
  apply andb_false_iff in H. destruct H as [Hm | Hl].
  - destruct m; try discriminate; cbn; eexists; reflexivity.
  - destruct (IH Hl) as [e He].
    destruct m; cbn [property bind]; try (eexists; reflexivity);
      rewrite He; cbn [bind]; eexists; reflexivity.
Qed.

Lemma userContext_mappable (env : AiEnv) (body : SummaryRequest) :
  mappable (body_medications body) = true ->
  exists context,
    userContext env body = Normal context
    /\ List.length (ctx_medications context)
       = List.length (elements (body_medications body)).
Proof.
  unfold userContext, context_medications, mappable.
  destruct (body_medications body) as [| | | | |l|]; try discriminate;
    intros H; cbn [bind elements].
  - eexists. split; reflexivity.
  - eexists. split; reflexivity.
  - destruct (name_and_dosage_mappable l H) as [r [Hr Hlen]]. rewrite Hr.
    cbn [bind]. eexists. split; [reflexivity | exact Hlen].
Qed.

Lemma userContext_unmappable (env : AiEnv) (body : SummaryRequest) :
  mappable (body_medications body) = false ->
  exists e, userContext env body = Throw e.
Proof.
  unfold userContext, context_medications, mappable.
  destruct (body_medications body) as [| | | | |l|]; try discriminate;
    intros H; cbn [bind]; try (eexists; reflexivity).
  destruct (name_and_dosage_unmappable l H) as [e He]. rewrite He.
  cbn [bind]. eexists. reflexivity.
Qed.

(** Without the key of the AI service the handler answers 500 with the
    message "GEMINI_API_KEY is not configured" and never calls the chatbot,
    whatever the request holds. *)
Theorem generateHealthReportSummary_needs_key
  (env : AiEnv) (body : SummaryRequest) :
  truthy_str (GEMINI_API_KEY env) = false ->
  chatbot_calls (fst (generateHealthReportSummary env body)) = []
  /\ snd (generateHealthReportSummary env body)
     = (500%nat,
        AiFailure "Failed to generate health report summary"
          (Some "GEMINI_API_KEY is not configured")).
Proof.
  intros H. unfold generateHealthReportSummary. rewrite H. now split.
Qed.

Lemma generateHealthReportSummary_needs_key_witness :
  chatbot_calls (fst (generateHealthReportSummary no_key_env sample_body)) = []
  /\ snd (generateHealthReportSummary no_key_env sample_body)
     = (500%nat,
        AiFailure "Failed to generate health report summary"
          (Some "GEMINI_API_KEY is not configured")).
Proof.
  exact (generateHealthReportSummary_needs_key no_key_env sample_body eq_refl).
Defined.

(** With the key set, the chatbot is called exactly when the medications
    of the request can be mapped (absent, or an array without null
    entries), then once, with the message rendered from the request and a
    context holding one entry per medication. The answer is 200 with the
    chatbot's summary when that call resolves, and 500 in every other
    case. *)
Theorem generateHealthReportSummary_calls_chatbot_once
  (env : AiEnv) (body : SummaryRequest) :
  truthy_str (GEMINI_API_KEY env) = true ->
  let run := generateHealthReportSummary env body in
  (mappable (body_medications body) = false ->
   chatbot_calls (fst run) = [] /\ fst (snd run) = 500%nat)
  /\
  (mappable (body_medications body) = true ->
   exists context,
     chatbot_calls (fst run) = [(userMessage env body, context)]
     /\ List.length (ctx_medications context)
        = List.length (elements (body_medications body))
     /\ match healthChatbot env (userMessage env body) context with
        | Normal aiSummary => snd run = (200%nat, AiSummary aiSummary)
        | Throw e =>
            snd run
            = (500%nat,
               AiFailure "Failed to generate health report summary"
                 (error_message e))
        end).
Proof.
  intros Hk. cbv zeta. unfold generateHealthReportSummary. rewrite Hk.
  cbn [negb]. split; intros Hm.
  - destruct (userContext_unmappable env body Hm) as [e He]. rewrite He.
    now split.
  - destruct (userContext_mappable env body Hm) as [context [Hc Hlen]].
    rewrite Hc. exists context.
    destruct (healthChatbot env (userMessage env body) context);
      cbn [fst snd chatbot_calls flat_map app]; now repeat split.
Qed.

Lemma generateHealthReportSummary_calls_chatbot_once_witness :
  exists context,
    chatbot_calls (fst (generateHealthReportSummary ai_env sample_body))
    = [(userMessage ai_env sample_body, context)]
    /\ List.length (ctx_medications context) = 1%nat
    /\ snd (generateHealthReportSummary ai_env sample_body)
       = (200%nat, AiSummary (JString "summary")).
Proof.
  destruct (generateHealthReportSummary_calls_chatbot_once ai_env sample_body
              eq_refl) as [_ H].
  destruct (H eq_refl) as [context [Hc [Hl Hr]]].
  exists context. repeat split; assumption.
Defined.

(* ------------------------------------------------------------------ *)
(** ** The API client around [request] *)

(** *** Header and storage objects *)

Lemma getItem_set_same (k v : string) (hs : list (string * string)) :
  getItem k (set_header k v hs) = Some v.
Proof.
  induction hs as [|[k' v'] hs IH]; cbn [set_header getItem].
  - now rewrite String.eqb_refl.
  - destruct (k' =? k) eqn:E; cbn [getItem].
    + now rewrite String.eqb_refl.
    + now rewrite E.
Qed.

Lemma getItem_set_other (k k' v : string) (hs : list (string * string)) :
  k' <> k -> getItem k' (set_header k v hs) = getItem k' hs.
Proof.
  intros Hne. induction hs as [|[k0 v0] hs IH]; cbn [set_header getItem].
  - apply String.eqb_neq in Hne. now rewrite String.eqb_sym, Hne.
  - destruct (k0 =? k) eqn:E; cbn [getItem].
    + apply String.eqb_eq in E. subst k0.
      apply String.eqb_neq in Hne. now rewrite String.eqb_sym, Hne.
    + now rewrite IH.
Qed.

(** The headers [request] hands to [fetch]: the stored token, when there is
    one, replaces the caller's [Authorization]; the content type is forced
    to JSON unless the body is form data, in which case the caller's value,
    if any, is left alone; every other header of the caller passes
    unchanged. *)
Theorem request_headers_sent (browser : Browser) (options : RequestInit) :
  let given := match headers options with Some h => h | None => [] end in
  let sent := request_headers browser options in
  get_header "Authorization" sent
  = (if truthy_str (accessToken browser)
     then Some ("Bearer " ++ show_str (accessToken browser))
     else get_header "Authorization" given)
  /\ get_header "Content-Type" sent
     = (if is_form_data (req_body options)
        then get_header "Content-Type" given
        else Some "application/json")
  /\ (forall k, k <> "Authorization" -> k <> "Content-Type" ->
                get_header k sent = get_header k given).
Proof.
  cbv zeta. unfold request_headers, get_header.
  assert (Hac : "Authorization" <> "Content-Type") by discriminate.
  assert (Hca : "Content-Type" <> "Authorization") by discriminate.
  destruct (truthy_str (accessToken browser));
    destruct (is_form_data (req_body options)); cbn [negb];
    repeat split; intros;
    rewrite ?getItem_set_same, ?(getItem_set_other "Content-Type" "Authorization"),
            ?getItem_set_same, ?(getItem_set_other "Authorization" "Content-Type"),
            ?getItem_set_same by assumption;
    try reflexivity;
    rewrite ?getItem_set_other by assumption; reflexivity.
Qed.

Lemma request_headers_sent_witness :
  get_header "X-Trace"
    (request_headers (sample_browser not_found)
       {| method := Some "GET"; headers := Some [("X-Trace", "1")];
          req_body := NoBody |})
  = Some "1".
Proof.
  destruct (request_headers_sent (sample_browser not_found)
              {| method := Some "GET"; headers := Some [("X-Trace", "1")];
                 req_body := NoBody |}) as [_ [_ H]].
  apply H; discriminate.
Defined.

(** [uploadPrescription] sends its form data without a content type, so
    the browser can set the multipart boundary, while [post] and [put]
    always announce JSON; all of them carry the stored token. *)
Theorem content_type_by_body (platform : Platform) (page : Page) (d : jsvalue) :
  let browser := browser_of platform page in
  get_header "Content-Type" (request_headers browser uploadPrescription_options)
  = None
  /\ get_header "Content-Type"
       (request_headers browser (json_options platform "POST" d))
     = Some "application/json"
  /\ get_header "Content-Type"
       (request_headers browser (json_options platform "PUT" d))
     = Some "application/json"
  /\ (forall t, getItem "accessToken" (localStorage page) = Some t -> t <> "" ->
        get_header "Authorization"
          (request_headers browser uploadPrescription_options)
        = Some ("Bearer " ++ t)).
Proof.
  cbv zeta. repeat split.
  - unfold request_headers, get_header. cbn [req_body uploadPrescription_options
      is_form_data negb headers].
    destruct (truthy_str _); [| reflexivity].
    now rewrite getItem_set_other by discriminate.
  - unfold request_headers, get_header. cbn [req_body json_options is_form_data negb].
    apply getItem_set_same.
  - unfold request_headers, get_header. cbn [req_body json_options is_form_data negb].
    apply getItem_set_same.
  - intros t Ht Hne. unfold request_headers, get_header.
    cbn [req_body uploadPrescription_options is_form_data negb headers
         browser_of accessToken].
    rewrite Ht. cbn [truthy_str show_str].
    apply String.eqb_neq in Hne. rewrite Hne. reflexivity.
Qed.

Lemma content_type_by_body_witness :
  get_header "Authorization"
    (request_headers (browser_of (sample_platform not_found) logged_in)
       uploadPrescription_options)
  = Some ("Bearer " ++ "old").
Proof.
  destruct (content_type_by_body (sample_platform not_found) logged_in JNull)
    as [_ [_ [_ H]]].
  apply H; [reflexivity | discriminate].
Defined.

(** What [request] returns, by the outcome of its [fetch]. *)
Lemma request_outcome
  (browser : Browser) (baseURL endpoint : string) (options : RequestInit) :
  storage_error browser = None ->
  exists r,
    request browser baseURL endpoint options = Normal r
    /\ ((exists response d,
           fetched browser baseURL endpoint options = Normal response
           /\ resp_json response = Normal d /\ ok response = true
           /\ r = {| success := true; data := Some d; api_error := None |})
        \/ (success r = false /\ data r = None /\ api_error r <> None
            /\ ~ (exists response d,
                    fetched browser baseURL endpoint options = Normal response
                    /\ resp_json response = Normal d /\ ok response = true))).
Proof.
  intros Hs. unfold request, read_accessToken. rewrite Hs. cbn [bind].
  destruct (fetched browser baseURL endpoint options) as [response|e];
    cbn [bind try_catch].
  - destruct (resp_json response) as [d|e] eqn:Ej; cbn [bind try_catch].
    + destruct (ok response) eqn:Eo; cbn [negb bind try_catch].
      * eexists. split; [reflexivity|]. left. exists response, d. now repeat split.
      * destruct (data_error d) as [e|e]; cbn [bind try_catch];
          (eexists; split; [reflexivity|]; right; cbn [success data api_error];
           repeat split; try discriminate;
           intros [r' [d' [Hr [_ Ho]]]]; injection Hr as <-; congruence).
    + eexists. split; [reflexivity|]. right. cbn [success data api_error].
      repeat split; try discriminate.
      intros [r' [d' [Hr [Hj _]]]]. injection Hr as <-. congruence.
  - eexists. split; [reflexivity|]. right. cbn [success data api_error].
    repeat split; try discriminate.
    intros [r' [d' [Hr _]]]. discriminate.
Qed.

(** A response of [request] holds data or an error, never both and never
    neither: [success] is true exactly when [data] is set, and exactly when
    [error] is not. *)
Theorem request_data_or_error
  (browser : Browser) (baseURL endpoint : string) (options : RequestInit)
  (r : ApiResponse) :
  request browser baseURL endpoint options = Normal r ->
  (success r = true <-> data r <> None)
  /\ (success r = true <-> api_error r = None).
Proof.
  intros H.
  assert (Hread : storage_error browser = None).
  { destruct (storage_error browser) as [e|] eqn:E; [| reflexivity].
    apply (request_throws browser baseURL endpoint options e) in E.
    rewrite E in H. discriminate. }
  destruct (request_outcome browser baseURL endpoint options Hread)
    as [r' [Hr [[resp [d [_ [_ [_ ->]]]]] | [Hs [Hd [He _]]]]]];
    rewrite Hr in H; injection H as <-; cbn [success data api_error].
  - split; split; intros; try reflexivity; discriminate.
  - rewrite Hs, Hd. split; split; intros; try discriminate; contradiction.
Qed.

Lemma request_data_or_error_witness :
  let r := {| success := false; data := None;
              api_error := Some (JString "HTTP 404: Not Found") |} in
  (success r = true <-> data r <> None)
  /\ (success r = true <-> api_error r = None).
Proof.
  exact (request_data_or_error (sample_browser not_found)
           "http://localhost:8000/api/v1" "/users/me" get_options
           {| success := false; data := None;
              api_error := Some (JString "HTTP 404: Not Found") |} eq_refl).
Defined.

(** Without a stored refresh token [refreshToken] fails as soon as it has
    read the storage, with the error "No refresh token available" and
    whatever the network would answer. *)
Theorem refreshToken_needs_token (platform : Platform) (page : Page) :
  refuses platform (GetItem "refreshToken") = None ->
  truthy_str (getItem "refreshToken" (localStorage page)) = false ->
  refreshToken platform page
  = Normal {| success := false; data := None;
              api_error := Some (JString "No refresh token available") |}.
Proof.
  intros Ha H. unfold refreshToken, attempt. rewrite Ha. cbn [bind].
  now rewrite H.
Qed.

Lemma refreshToken_needs_token_witness :
  refreshToken (sample_platform refreshed)
    {| localStorage := [("accessToken", "old")]; location := "/" |}
  = Normal {| success := false; data := None;
              api_error := Some (JString "No refresh token available") |}.
Proof.
  exact (refreshToken_needs_token (sample_platform refreshed)
           {| localStorage := [("accessToken", "old")]; location := "/" |}
           eq_refl eq_refl).
Defined.

Lemma sample_platform_usable (o : completion Response) :
  usable (sample_platform o).
Proof. intros a. reflexivity. Qed.

Lemma attempt_usable {A} (platform : Platform) (a : access) (v : A) :
  usable platform -> attempt platform a v = Normal v.
Proof. intros Hu. unfold attempt. now rewrite Hu. Qed.

(** The two ways [handleTokenRefresh] can go where the storage and the
    location can be used. *)
Lemma handleTokenRefresh_cases (platform : Platform) (page : Page) :
  usable platform ->
  (exists d,
     refresh_succeeded platform page d
     /\ handleTokenRefresh platform page
        = Normal (true, page_with_tokens page d))
  \/ ((forall d, ~ refresh_succeeded platform page d)
      /\ handleTokenRefresh platform page = Normal (false, login_page)).
Proof.
  intros Hu.
  unfold handleTokenRefresh, refreshToken, refresh_succeeded, refresh_fetch,
    apiClient_request.
  rewrite !(attempt_usable platform _ _ Hu). cbn [bind].
  destruct (truthy_str (getItem "refreshToken" (localStorage page))) eqn:Ht;
    cbn [negb].
  2:{ right. split; [intros d [H _]; discriminate|].
      reflexivity. }
  destruct (request_outcome (browser_of platform page) API_BASE_URL
              "/users/refresh-token"
              (json_options platform "POST"
                 (JObject [("refreshToken",
                            JString (show_str (getItem "refreshToken"
                                                 (localStorage page))))]))
              (Hu (GetItem "accessToken")))
    as [r [Hr [[resp [d [Hf [Hj [Ho ->]]]]] | [Hs [Hd [He Hno]]]]]];
    rewrite Hr; cbn [bind success data truthy_opt andb].
  - destruct (truthy d) eqn:Hd;
      rewrite ?(attempt_usable platform _ _ Hu); cbn [bind].
    + left. exists d. split; [| reflexivity]. split; [reflexivity|].
      now exists resp.
    + right. split; [| reflexivity].
      intros d' [_ [resp' [Hf' [Hj' [_ Hd']]]]].
      rewrite Hf in Hf'. injection Hf' as <-. congruence.
  - rewrite Hs. cbn [andb]. rewrite ?(attempt_usable platform _ _ Hu).
    cbn [bind]. right. split; [| reflexivity].
    intros d' [_ [resp' [Hf' [Hj' [Ho' _]]]]]. apply Hno. now exists resp', d'.
Qed.

Lemma bind_assoc {A B C} (c : completion A) (f : A -> completion B)
  (g : B -> completion C) :
  bind (bind c f) g = bind c (fun x => bind (f x) g).
Proof. now destruct c. Qed.

Lemma attempt_throws {A B} (platform : Platform) (a : access) (v : A)
  (k : A -> completion B) (e : thrown) :
  bind (attempt platform a v) k = Throw e ->
  (exists a', refuses platform a' = Some e) \/ k v = Throw e.
Proof.
  unfold attempt.
  destruct (refuses platform a) as [e'|] eqn:E; cbn [bind]; intros H.
  - left. exists a. injection H as <-. exact E.
  - now right.
Qed.

Ltac refused H :=
  apply attempt_throws in H; destruct H as [H | H]; [exact H |].

(** What [handleTokenRefresh] throws was thrown by one of its accesses to
    the storage or to the location. *)
Lemma handleTokenRefresh_throws (platform : Platform) (page : Page)
  (e : thrown) :
  handleTokenRefresh platform page = Throw e ->
  exists a, refuses platform a = Some e.
Proof.
  unfold handleTokenRefresh, refreshToken. rewrite bind_assoc. intros H.
  refused H.
  destruct (negb (truthy_str (getItem "refreshToken" (localStorage page)))).
  - cbn [bind success data truthy_opt andb] in H.
    refused H. refused H. discriminate.
  - destruct (apiClient_request platform page "/users/refresh-token" _)
      as [r|e'] eqn:Er; cbn [bind] in H.
    + destruct (success r && truthy_opt (data r));
        refused H; refused H; discriminate.
    + injection H as <-. apply request_throws in Er.
      now exists (GetItem "accessToken").
Qed.

(** Where the storage and the location can be used [handleTokenRefresh]
    does not throw: it returns [true] exactly when the refresh succeeded,
    and in every other case it empties the storage, sends the page to the
    login screen and returns [false]. It throws what reading the refresh
    token throws, and whatever it throws was thrown by one of its accesses
    to the storage or to the location: no failure of the network or of the
    server leaves it. *)
Theorem handleTokenRefresh_outcome (platform : Platform) (page : Page) :
  (usable platform ->
   exists b page',
     handleTokenRefresh platform page = Normal (b, page')
     /\ (b = true <-> exists d, refresh_succeeded platform page d)
     /\ (b = false -> page' = login_page))
  /\ (forall e, refuses platform (GetItem "refreshToken") = Some e ->
                handleTokenRefresh platform page = Throw e)
  /\ (forall e, handleTokenRefresh platform page = Throw e ->
                exists a, refuses platform a = Some e).
Proof.
  split; [| split].
  - intros Hu.
    destruct (handleTokenRefresh_cases platform page Hu)
      as [[d [Hd H]] | [Hno H]]; rewrite H.
    + exists true, (page_with_tokens page d). split; [reflexivity|]. split.
      * split; [intros _; now exists d | reflexivity].
      * discriminate.
    + exists false, login_page. split; [reflexivity|]. split.
      * split; [discriminate | intros [d Hd]; now elim (Hno d)].
      * reflexivity.
  - intros e He. unfold handleTokenRefresh, refreshToken, attempt.
    now rewrite He.
  - intros e. apply handleTokenRefresh_throws.
Qed.

Lemma handleTokenRefresh_success
  (platform : Platform) (page : Page) (d : jsvalue) :
  usable platform ->
  refresh_succeeded platform page d ->
  handleTokenRefresh platform page = Normal (true, page_with_tokens page d).
Proof.
  intros Hu Hd.
  destruct (handleTokenRefresh_cases platform page Hu)
    as [[d' [Hd' H]] | [Hno _]]; [| now elim (Hno d)].
  assert (d' = d).
  { destruct Hd as [_ [r [Hf [Hj _]]]]. destruct Hd' as [_ [r' [Hf' [Hj' _]]]].
    rewrite Hf in Hf'. injection Hf' as <-. congruence. }
  now subst d'.
Qed.

(** After a successful refresh, on a platform whose storage can be used,
    the storage holds both tokens of the answer, every other key is as
    before and the page stays where it is. *)
Theorem handleTokenRefresh_stores_tokens
  (platform : Platform) (page : Page) (d : jsvalue) :
  usable platform ->
  refresh_succeeded platform page d ->
  exists page',
    handleTokenRefresh platform page = Normal (true, page')
    /\ location page' = location page
    /\ getItem "accessToken" (localStorage page')
       = Some (js_string (optional_property "accessToken" d))
    /\ getItem "refreshToken" (localStorage page')
       = Some (js_string (optional_property "refreshToken" d))
    /\ (forall k, k <> "accessToken" -> k <> "refreshToken" ->
          getItem k (localStorage page') = getItem k (localStorage page)).
Proof.
  intros Hu Hd. exists (page_with_tokens page d).
  split; [now apply handleTokenRefresh_success|].
  unfold page_with_tokens, setItem. cbn [localStorage location].
  split; [reflexivity|]. split; [| split].
  - rewrite getItem_set_other by discriminate. apply getItem_set_same.
  - apply getItem_set_same.
  - intros k Ha Hr. now rewrite !getItem_set_other by assumption.
Qed.

Lemma refreshed_succeeds :
  refresh_succeeded (sample_platform refreshed) logged_in
    (JObject [("accessToken", JString "new"); ("refreshToken", JString "r2")]).
Proof.
  split; [reflexivity|]. eexists. repeat split; reflexivity.
Qed.

Lemma handleTokenRefresh_stores_tokens_witness :
  exists page',
    handleTokenRefresh (sample_platform refreshed) logged_in
    = Normal (true, page')
    /\ location page' = "/dashboard"
    /\ getItem "accessToken" (localStorage page') = Some "new"
    /\ getItem "refreshToken" (localStorage page') = Some "r2".
Proof.
  destruct (handleTokenRefresh_stores_tokens (sample_platform refreshed)
              logged_in _ (sample_platform_usable refreshed)
              refreshed_succeeds) as [page' [H [Hl [Ha [Hr _]]]]].
  exists page'. repeat split; assumption.
Defined.

Lemma request_authorization (browser : Browser) (options : RequestInit)
  (t : string) :
  accessToken browser = Some t -> t <> "" ->
  get_header "Authorization" (request_headers browser options)
  = Some ("Bearer " ++ t).
Proof.
  intros Ht Hne. unfold request_headers, get_header. rewrite Ht.
  cbn [truthy_str show_str]. apply String.eqb_neq in Hne. rewrite Hne.
  cbn [negb].
  destruct (negb (is_form_data (req_body options)));
    rewrite ?getItem_set_other by discriminate; apply getItem_set_same.
Qed.

Lemma page_with_tokens_access (page : Page) (d : jsvalue) :
  getItem "accessToken" (localStorage (page_with_tokens page d))
  = Some (js_string (optional_property "accessToken" d)).
Proof.
  unfold page_with_tokens, setItem. cbn [localStorage].
  rewrite getItem_set_other by discriminate. apply getItem_set_same.
Qed.

Lemma getAuthHeaders_token (platform : Platform) (page : Page) (t : string) :
  usable platform ->
  getItem "accessToken" (localStorage page) = Some t -> t <> "" ->
  getAuthHeaders platform page = Normal [("Authorization", "Bearer " ++ t)].
Proof.
  intros Hu Ha Hne. unfold getAuthHeaders.
  rewrite (attempt_usable platform _ _ Hu). cbn [bind]. rewrite Ha.
  cbn [truthy_str show_str]. apply String.eqb_neq in Hne. now rewrite Hne.
Qed.

(** A successful answer that lacks the access token is not noticed: the
    refresh still returns [true], and the text "undefined" is stored as the
    access token, so that the next request announces "Bearer undefined". *)
Theorem handleTokenRefresh_stores_undefined
  (platform : Platform) (page : Page) (d : jsvalue) :
  usable platform ->
  refresh_succeeded platform page d ->
  optional_property "accessToken" d = JUndefined ->
  exists page',
    handleTokenRefresh platform page = Normal (true, page')
    /\ getItem "accessToken" (localStorage page') = Some "undefined"
    /\ getAuthHeaders platform page'
       = Normal [("Authorization", "Bearer undefined")]
    /\ forall options,
         get_header "Authorization"
           (request_headers (browser_of platform page') options)
         = Some "Bearer undefined".
Proof.
  intros Hu Hd Hundef. exists (page_with_tokens page d).
  pose proof (page_with_tokens_access page d) as Ha.
  rewrite Hundef in Ha. cbn [js_string] in Ha.
  split; [now apply handleTokenRefresh_success|]. split; [exact Ha|]. split.
  - apply (getAuthHeaders_token platform _ "undefined" Hu Ha). discriminate.
  - intros options.
    apply (request_authorization _ _ "undefined"); [exact Ha | discriminate].
Qed.

Lemma refreshed_without_tokens_succeeds :
  refresh_succeeded (sample_platform refreshed_without_tokens) logged_in
    (JObject [("message", JString "ok")]).
Proof.
  split; [reflexivity|]. eexists. repeat split; reflexivity.
Qed.

Lemma handleTokenRefresh_stores_undefined_witness :
  exists page',
    handleTokenRefresh (sample_platform refreshed_without_tokens) logged_in
    = Normal (true, page')
    /\ getAuthHeaders (sample_platform refreshed_without_tokens) page'
       = Normal [("Authorization", "Bearer undefined")].
Proof.
  destruct (handleTokenRefresh_stores_undefined
              (sample_platform refreshed_without_tokens) logged_in _
              (sample_platform_usable refreshed_without_tokens)
              refreshed_without_tokens_succeeds eq_refl)
    as [page' [H [_ [Ha _]]]].
  exists page'. now split.
Defined.

(** The token a refresh stores is the one the client uses from then on:
    when the answer holds a non-empty string as access token,
    [getAuthHeaders] and every later [request] announce it. *)
Theorem refreshed_token_is_used
  (platform : Platform) (page : Page) (d : jsvalue) (t : string) :
  usable platform ->
  refresh_succeeded platform page d ->
  optional_property "accessToken" d = JString t -> t <> "" ->
  exists page',
    handleTokenRefresh platform page = Normal (true, page')
    /\ getAuthHeaders platform page'
       = Normal [("Authorization", "Bearer " ++ t)]
    /\ forall options,
         get_header "Authorization"
           (request_headers (browser_of platform page') options)
         = Some ("Bearer " ++ t).
Proof.
  intros Hu Hd Ht Hne. exists (page_with_tokens page d).
  pose proof (page_with_tokens_access page d) as Ha.
  rewrite Ht in Ha. cbn [js_string] in Ha.
  split; [now apply handleTokenRefresh_success|]. split.
  - now apply getAuthHeaders_token.
  - intros options. now apply (request_authorization _ _ t).
Qed.

Lemma refreshed_token_is_used_witness :
  exists page',
    handleTokenRefresh (sample_platform refreshed) logged_in
    = Normal (true, page')
    /\ getAuthHeaders (sample_platform refreshed) page'
       = Normal [("Authorization", "Bearer " ++ "new")].
Proof.
  assert (Hne : "new" <> "") by discriminate.
  destruct (refreshed_token_is_used (sample_platform refreshed) logged_in _
              "new" (sample_platform_usable refreshed) refreshed_succeeds
              eq_refl Hne) as [page' [H [Ha _]]].
  exists page'. now split.
Defined.

(** *** [getAgentById] *)

(** [getAgentById] catches nothing. Once it has read the stored token it
    returns the parsed body exactly when the response is ok and parses,
    throws "Failed to fetch agent" for every response that is not ok, and
    lets a network or parse error through; it throws what reading the token
    throws. *)
Theorem getAgentById_outcome (platform : Platform) (page : Page) (id : string) :
  let answer := net platform (agent_url id) (agent_request page) in
  (refuses platform (GetItem "token") = None ->
   (forall d,
      getAgentById platform page id = Normal d <->
      exists res, answer = Normal res /\ ok res = true
                  /\ resp_json res = Normal d)
   /\ (forall res, answer = Normal res -> ok res = false ->
         getAgentById platform page id
         = Throw (ErrorObject "Failed to fetch agent"))
   /\ (forall e, answer = Throw e -> getAgentById platform page id = Throw e))
  /\ (forall e, refuses platform (GetItem "token") = Some e ->
                getAgentById platform page id = Throw e).
Proof.
  cbv zeta. unfold getAgentById, attempt. split.
  2:{ intros e He. now rewrite He. }
  intros Hread. rewrite Hread. cbn [bind].
  destruct (net platform (agent_url id) (agent_request page)) as [res|e];
    cbn [bind].
  - split; [| split].
    + intros d. destruct (ok res) eqn:Eo; cbn [negb].
      * split; [intros H; now exists res |].
        intros [res' [Hr [_ Hj]]]. injection Hr as <-. exact Hj.
      * split; [discriminate|].
        intros [res' [Hr [Ho _]]]. injection Hr as <-. congruence.
    + intros res' Hr Ho. injection Hr as <-. now rewrite Ho.
    + discriminate.
  - split; [| split].
    + intros d. split; [discriminate | intros [res [Hr _]]; discriminate].
    + discriminate.
    + intros e' H. now injection H as <-.
Qed.

(** [getAgentById] reads the key "token", which the refresh never writes:
    after a successful refresh on a storage without that key it still
    announces "Bearer null". *)
Theorem getAgentById_ignores_refreshed_token
  (platform : Platform) (page : Page) (d : jsvalue) :
  usable platform ->
  refresh_succeeded platform page d ->
  getItem "token" (localStorage page) = None ->
  exists page',
    handleTokenRefresh platform page = Normal (true, page')
    /\ get_header "Authorization" (fetch_headers (agent_request page'))
       = Some "Bearer null".
Proof.
  intros Hu Hd Ht. exists (page_with_tokens page d).
  split; [now apply handleTokenRefresh_success|].
  unfold agent_request, page_with_tokens, setItem, get_header.
  cbn [fetch_headers localStorage].
  rewrite !getItem_set_other by discriminate. now rewrite Ht.
Qed.

Lemma getAgentById_ignores_refreshed_token_witness :
  exists page',
    handleTokenRefresh (sample_platform refreshed) logged_in
    = Normal (true, page')
    /\ get_header "Authorization" (fetch_headers (agent_request page'))
       = Some "Bearer null".
Proof.
  exact (getAgentById_ignores_refreshed_token (sample_platform refreshed)
           logged_in _ (sample_platform_usable refreshed) refreshed_succeeds
           eq_refl).
Defined.

Lemma getAgentById_outcome_witness :
  getAgentById (sample_platform not_found) logged_in "7"
  = Throw (ErrorObject "Failed to fetch agent")
  /\ getAgentById (blocked_platform refreshed) logged_in "7"
     = Throw (ErrorObject "The operation is insecure.").
Proof.
  split.
  - destruct (getAgentById_outcome (sample_platform not_found) logged_in "7")
      as [H _].
    destruct (H eq_refl) as [_ [H' _]].
    exact (H' _ eq_refl eq_refl).
  - destruct (getAgentById_outcome (blocked_platform refreshed) logged_in "7")
      as [_ H].
    exact (H _ eq_refl).
Defined.

Lemma handleTokenRefresh_outcome_witness :
  handleTokenRefresh (sample_platform not_found) logged_in
  = Normal (false, login_page)
  /\ handleTokenRefresh (blocked_platform refreshed) logged_in
     = Throw (ErrorObject "The operation is insecure.")
  /\ exists a,
       refuses (full_platform refreshed) a
       = Some (ErrorObject "The quota has been exceeded.").
Proof.
  split; [| split].
  - destruct (handleTokenRefresh_outcome (sample_platform not_found) logged_in)
      as [H _].
    destruct (H (sample_platform_usable not_found)) as [b [page' [Hr [Hb Hf]]]].
    destruct b.
    + exfalso. destruct (proj1 Hb eq_refl) as [d [_ [r [Hr' [_ [Ho _]]]]]].
      vm_compute in Hr'. injection Hr' as <-. discriminate.
    + now rewrite Hr, (Hf eq_refl).
  - destruct (handleTokenRefresh_outcome (blocked_platform refreshed) logged_in)
      as [_ [H _]].
    exact (H _ eq_refl).
  - destruct (handleTokenRefresh_outcome (full_platform refreshed) logged_in)
      as [_ [_ H]].
    exact (H (ErrorObject "The quota has been exceeded.") eq_refl).
Defined.

(** *** The short mails after [.trim()] *)

Lemma has_plain_lit (l x : string) :
  has_plain l = true -> has_plain (l ++ x) = true.
Proof. intros H. now rewrite has_plain_app, H. Qed.

Lemma has_plain_after (x y : string) :
  has_plain y = true -> has_plain (x ++ y) = true.
Proof. intros H. rewrite has_plain_app, H. apply orb_true_r. Qed.

Ltac not_blank :=
  repeat lazymatch goal with
         | |- has_plain ("Sent to: " ++ _) = true =>
             apply has_plain_lit; reflexivity
         | |- has_plain ("Sent on: " ++ _) = true =>
             apply has_plain_lit; reflexivity
         | |- has_plain (_ ++ _) = true => apply has_plain_after
         end.

Lemma shareEmergencyInfo_text_trimmed (user : User)
  (profile : option Profile) (medications : list Medication) (to : string) :
  shareEmergencyInfo_text user profile medications to =
  "Emergency Information for " ++ user_name user ++ nl ++
  nl ++
  "Blood Group: " ++ or_str (profile_field profile blood_group) "Not Provided" ++ nl ++
  "Allergies: " ++ join_or (profile_field profile allergies) "None" ++ nl ++
  "Existing Conditions: " ++ join_or (profile_field profile existing_conditions) "None" ++ nl ++
  nl ++
  "Medications:" ++ nl ++
  medication_lines medications ++ nl ++
  nl ++
  trimEnd ("Sent to: " ++ to ++ nl ++ "    ").
Proof.
  unfold shareEmergencyInfo_text, trim.
  rewrite (trimStart_line _ _ "E"%char) by reflexivity.
  repeat (rewrite trimEnd_app_kept by not_blank). reflexivity.
Qed.

Lemma mailEmergencyContacts_text_trimmed (env : Env) (user : User)
  (profile : option Profile) (medications : list Medication) :
  mailEmergencyContacts_text env user profile medications =
  "Emergency Health Summary for " ++ user_name user ++ nl ++
  nl ++
  "Email: " ++ user_email user ++ nl ++
  "Blood Group: " ++ or_str (profile_field profile blood_group) "Not Provided" ++ nl ++
  "Allergies: " ++ join_or (profile_field profile allergies) "None" ++ nl ++
  "Conditions: " ++ join_or (profile_field profile existing_conditions) "None" ++ nl ++
  nl ++
  "Medications:" ++ nl ++
  medication_lines medications ++ nl ++
  nl ++
  trimEnd ("Sent on: " ++ toLocaleString env (now env) ++ nl ++ "    ").
Proof.
  unfold mailEmergencyContacts_text, trim.
  rewrite (trimStart_line _ _ "E"%char) by reflexivity.
  repeat (rewrite trimEnd_app_kept by not_blank). reflexivity.
Qed.

Lemma join_or_or_empty (o : option (list string)) (d : string) :
  join_or (Some (or_empty o)) d = join_or o d.
Proof. destruct o; reflexivity. Qed.

Lemma medication_lines_item (medications : list Medication) (m : Medication) :
  In m medications ->
  includes (medication_lines medications) (medication_line m) = true.
Proof.
  intros Hin. unfold medication_lines.
  destruct medications as [|m0 ms]; [contradiction|].
  cbn [List.length Nat.ltb Nat.leb]. now apply includes_join_item.
Qed.

(** What GET /api/emergency reports is what the two short mails show: the
    same blood group (or "Not Provided"), the reported allergies and
    conditions joined by commas (or "None"), and one line per reported
    medication with its name and dosage (or "None"). *)
Theorem mails_show_emergency_info
  (env : Env) (user : User) (family : option Family)
  (profile : option Profile) (medications : list Medication) (to : string)
  (text : string) :
  let info := snd (getEmergencyInfo user family profile medications) in
  text = shareEmergencyInfo_text user profile medications to
  \/ text = mailEmergencyContacts_text env user profile medications ->
  includes text ("Blood Group: " ++ info_bloodGroup info ++ nl) = true
  /\ includes text ("Allergies: " ++ join_or (Some (info_allergies info)) "None"
                    ++ nl) = true
  /\ includes text ("Conditions: "
                    ++ join_or (Some (info_conditions info)) "None" ++ nl)
     = true
  /\ (forall n d, In (n, d) (info_medications info) ->
        includes text ("- " ++ show_str n ++ " (" ++ show_str d ++ ")") = true)
  /\ (info_medications info = [] ->
      includes text ("Medications:" ++ nl ++ "None" ++ nl) = true).
Proof.
  cbv zeta. cbn [getEmergencyInfo snd info_bloodGroup info_allergies
                 info_conditions info_medications].
  rewrite !join_or_or_empty.
  assert (Hmed : forall n d,
            In (n, d) (map (fun m => (medicine_name m, dosage m)) medications) ->
            includes (medication_lines medications)
              ("- " ++ show_str n ++ " (" ++ show_str d ++ ")") = true).
  { intros n d Hin. apply in_map_iff in Hin. destruct Hin as [m [E Hin]].
    injection E as <- <-. now apply (medication_lines_item medications m). }
  assert (Hnone : map (fun m => (medicine_name m, dosage m)) medications = [] ->
                  medication_lines medications = "None").
  { destruct medications; [reflexivity | discriminate]. }
  intros [-> | ->].
  - rewrite shareEmergencyInfo_text_trimmed. repeat split.
    + found.
    + found.
    + apply (includes_trans _ ("Existing Conditions: " ++
               join_or (profile_field profile existing_conditions) "None" ++ nl)).
      * found.
      * change ("Existing Conditions: " ++ ?x) with ("Existing " ++ "Conditions: " ++ x).
        found.
    + intros n d Hin. apply (includes_trans _ (medication_lines medications)).
      * found.
      * now apply Hmed.
    + intros Hn. rewrite (Hnone Hn). found.
  - rewrite mailEmergencyContacts_text_trimmed. repeat split.
    + found.
    + found.
    + found.
    + intros n d Hin. apply (includes_trans _ (medication_lines medications)).
      * found.
      * now apply Hmed.
    + intros Hn. rewrite (Hnone Hn). found.
Qed.

Lemma mails_show_emergency_info_witness :
  includes (mailEmergencyContacts_text sample_env sample_user
              (Some bare_profile) [aspirin])
    ("Blood Group: " ++ "Not Provided" ++ nl) = true
  /\ includes (mailEmergencyContacts_text sample_env sample_user
                 (Some bare_profile) [aspirin])
       ("- " ++ "Aspirin" ++ " (" ++ "10mg" ++ ")") = true.
Proof.
  destruct (mails_show_emergency_info sample_env sample_user
              (Some sample_family) (Some bare_profile) [aspirin] "a@x.com"
              (mailEmergencyContacts_text sample_env sample_user
                 (Some bare_profile) [aspirin]) (or_intror eq_refl))
    as [Hb [_ [_ [Hm _]]]].
  split; [exact Hb|].
  apply (Hm (Some "Aspirin") (Some "10mg")). now left.
Defined.

(** [shareSummary] refuses a call for lack of contacts exactly when
    GET /api/emergency reports none; the contacts it reports are the ones
    the summary is rendered from. *)
Theorem summary_needs_reported_contacts
  (env : Env) (user : User) (family : option Family)
  (profile : option Profile) (medications : list Medication)
  (vitalsArray : list Vital) :
  let info := snd (getEmergencyInfo user family profile medications) in
  info_emergencyContacts info = family_contacts family
  /\ (snd (shareSummary env user profile medications family vitalsArray)
      = reply 400 (ErrorOnly "No emergency contacts found")
      <-> info_emergencyContacts info = []).
Proof.
  cbv zeta. cbn [getEmergencyInfo snd info_emergencyContacts].
  assert (Hsame : or_empty (match family with
                            | Some f => emergency_contacts f
                            | None => None
                            end) = family_contacts family).
  { destruct family as [f|]; [| reflexivity]. cbn [family_contacts].
    now destruct (emergency_contacts f). }
  rewrite Hsame. split; [reflexivity|].
  destruct family as [fam|]; [| now split].
  cbn [family_contacts].
  destruct (emergency_contacts fam) as [[|c l]|] eqn:Hc;
    try (unfold shareSummary; rewrite Hc; now split).
  split; [| discriminate]. intros H. exfalso. revert H.
  destruct (filter valid_contact (c :: l)) as [|c0 R0] eqn:HR.
  - unfold shareSummary. rewrite Hc, HR. discriminate.
  - rewrite (shareSummary_unfold env user profile medications fam (c :: l)
               vitalsArray Hc) by (rewrite HR; discriminate).
    cbv zeta.
    destruct (filter_failures _) as [fs|]; [| discriminate].
    destruct ((0 <? List.length fs)%nat && _); discriminate.
Qed.

(* ------------------------------------------------------------------ *)
(** ** The fallback address of the single-contact share *)

(** The last line of the mail: "Sent to:" and what [.trim()] leaves of the
    address, which is the address itself when it does not end with white
    space. *)
Lemma sent_to_line (to : string) :
  exists tail,
    trimEnd ("Sent to: " ++ to ++ nl ++ "    ") = "Sent to:" ++ tail
    /\ (forall c, last_char to = Some c -> plain c = true ->
                  tail = " " ++ to).
Proof.
  exists (trimEnd (" " ++ to ++ nl ++ "    ")). split.
  - change ("Sent to: " ++ to ++ nl ++ "    ")
      with ("Sent to:" ++ " " ++ to ++ nl ++ "    ").
    now apply (trimEnd_after_nonblank "Sent to:" _ ":"%char).
  - intros c Hl Hc.
    change (" " ++ to ++ nl ++ "    ") with (" " ++ (to ++ nl ++ "    ")).
    rewrite <- (append_assoc " " to (nl ++ "    ")).
    rewrite trimEnd_app_blank by reflexivity.
    apply (trimEnd_nonblank _ c); [| exact Hc].
    now apply last_char_app_r.
Qed.

(** C10, as the code has it, for a family document that has its list of
    emergency contacts. When [contactId] matches no contact of the family,
    or the matched contact has no email, [shareEmergencyInfo] uses
    [DEFAULT_EMERGENCY_EMAIL]: it answers 400 exactly when that value is
    unset (or empty), and then sends nothing; otherwise it mails the
    emergency information to that address, once, and answers 200 with
    [sharedWith] set to it when the send is delivered, 500 with the
    mailer's message when the send is rejected. The mail is headed
    "Emergency Information for" the user, shows the blood group, the
    allergies, the conditions and the medications, and ends with the line
    "Sent to:" and what [.trim()] leaves of the address, which is all of
    it when the address ends with an ASCII character other than white
    space. *)
Theorem shareEmergencyInfo_falls_back_to_default
  (env : Env) (user : User) (contactId : string) (family : option Family)
  (profile : option Profile) (medications : list Medication) :
  let contact := find_contact contactId (family_contacts family) in
  let run := shareEmergencyInfo env user contactId family profile medications in
  (forall f, family = Some f -> emergency_contacts f <> None) ->
  truthy_str (contact_field contact email) = false ->
  (status (snd run) = 400%nat <-> truthy_str (DEFAULT_EMERGENCY_EMAIL env) = false)
  /\ (truthy_str (DEFAULT_EMERGENCY_EMAIL env) = false ->
      run = ([], reply 400 (ErrorOnly "Emergency contact email not found.")))
  /\ (forall d,
        DEFAULT_EMERGENCY_EMAIL env = Some d -> d <> "" ->
        let text := shareEmergencyInfo_text user profile medications d in
        sent_to (fst run) = [d]
        /\ (exists rest, fst run = Send d "Emergency Medical Info" text :: rest)
        /\ (delivered (sendEmergencyEmail env d "Emergency Medical Info" text)
            = true ->
            run = ([Send d "Emergency Medical Info" text],
                   reply 200
                     (InfoShared "Emergency info emailed successfully" d)))
        /\ (forall m,
              sendEmergencyEmail env d "Emergency Medical Info" text
              = Rejected m ->
              run = ([Send d "Emergency Medical Info" text;
                      ConsoleError "❌ shareEmergencyInfo error:" (LogMessage m)],
                     reply 500 (ErrorOnly m)))
        /\ (exists tail,
              text =
                "Emergency Information for " ++ user_name user ++ nl ++
                nl ++
                "Blood Group: "
                  ++ or_str (profile_field profile blood_group) "Not Provided"
                  ++ nl ++
                "Allergies: "
                  ++ join_or (profile_field profile allergies) "None" ++ nl ++
                "Existing Conditions: "
                  ++ join_or (profile_field profile existing_conditions) "None"
                  ++ nl ++
                nl ++
                "Medications:" ++ nl ++
                medication_lines medications ++ nl ++
                nl ++
                "Sent to:" ++ tail
              /\ (forall c, last_char d = Some c -> plain c = true ->
                            tail = " " ++ d))).
Proof.
  intros contact run Hlist Hno.
  assert (Hrun : run =
    let contactEmail := or_opt (contact_field contact email) (DEFAULT_EMERGENCY_EMAIL env) in
    if negb (truthy_str contactEmail) then
      ([], reply 400 (ErrorOnly "Emergency contact email not found."))
    else
      let to := show_str contactEmail in
      let emailText := shareEmergencyInfo_text user profile medications to in
      let sent := Send to "Emergency Medical Info" emailText in
      match sendEmergencyEmail env to "Emergency Medical Info" emailText with
      | Rejected m =>
          ([sent; ConsoleError "❌ shareEmergencyInfo error:" (LogMessage m)],
           reply 500 (ErrorOnly m))
      | Fulfilled _ =>
          ([sent], reply 200 (InfoShared "Emergency info emailed successfully" to))
      end).
  { unfold run, shareEmergencyInfo, contact.
    destruct family as [f|]; [| reflexivity].
    cbn [family_contacts].
    destruct (emergency_contacts f) eqn:E; [reflexivity|].
    exfalso. exact (Hlist f eq_refl E). }
  cbv zeta in Hrun. unfold or_opt in Hrun. rewrite Hno in Hrun.
  destruct (truthy_str (DEFAULT_EMERGENCY_EMAIL env)) eqn:Hd.
  - destruct (truthy_str_show _ Hd) as [d [Ed [Hne Hshow]]].
    rewrite Hshow in Hrun. cbn [negb] in Hrun.
    split; [| split].
    + rewrite Hrun. split; [| discriminate].
      destruct (sendEmergencyEmail env d _ _); cbn; discriminate.
    + discriminate.
    + intros d' Ed' _. rewrite Ed in Ed'. injection Ed' as <-. cbv zeta.
      rewrite Hrun. split; [| split; [| split; [| split]]].
      * destruct (sendEmergencyEmail env d _ _); reflexivity.
      * destruct (sendEmergencyEmail env d _ _); eexists; reflexivity.
      * destruct (sendEmergencyEmail env d _ _); [reflexivity | discriminate].
      * intros m Hm. now rewrite Hm.
      * rewrite shareEmergencyInfo_text_trimmed.
        destruct (sent_to_line d) as [tail [Htail Hkept]].
        exists tail. rewrite Htail. split; [reflexivity|].
        exact Hkept.
  - cbn [negb] in Hrun. split; [| split].
    + rewrite Hrun. now split.
    + intros _. exact Hrun.
    + intros d Ed Hne. rewrite Ed in Hd. cbn in Hd.
      destruct (String.eqb_spec d ""); [contradiction | discriminate].
Qed.

Lemma shareEmergencyInfo_falls_back_to_default_witness :
  shareEmergencyInfo fallback_env sample_user "3"
    (Some (family_of [alice; carol])) (Some bare_profile) [aspirin]
  = ([Send "help@x.com" "Emergency Medical Info"
        ("Emergency Information for Ann" ++ nl ++
         nl ++
         "Blood Group: Not Provided" ++ nl ++
         "Allergies: None" ++ nl ++
         "Existing Conditions: None" ++ nl ++
         nl ++
         "Medications:" ++ nl ++
         "- Aspirin (10mg)" ++ nl ++
         nl ++
         "Sent to: help@x.com")],
     reply 200 (InfoShared "Emergency info emailed successfully" "help@x.com")).
Proof.
  assert (Hlist : forall f, Some (family_of [alice; carol]) = Some f ->
                            emergency_contacts f <> None).
  { intros f Hf. injection Hf as <-. discriminate. }
  destruct (shareEmergencyInfo_falls_back_to_default fallback_env sample_user
              "3" (Some (family_of [alice; carol])) (Some bare_profile)
              [aspirin] Hlist eq_refl)
    as [_ [_ H]].
  assert (Hne : "help@x.com" <> "") by discriminate.
  destruct (H "help@x.com" eq_refl Hne) as [_ [_ [H3 _]]].
  exact (H3 eq_refl).
Defined.

(** C10 as stated fails: with a default address set and a contact without
    email, a send that the mailer rejects is answered 500, not with
    success. *)
Lemma shareEmergencyInfo_fallback_without_success :
  let run := shareEmergencyInfo fallback_down_env sample_user "3"
               (Some (family_of [alice; carol])) None [] in
  find_contact "3" (family_contacts (Some (family_of [alice; carol])))
  = Some carol
  /\ email carol = None
  /\ DEFAULT_EMERGENCY_EMAIL fallback_down_env = Some "help@x.com"
  /\ sent_to (fst run) = ["help@x.com"]
  /\ snd run = reply 500 (ErrorOnly "SMTP down").
Proof. repeat split. Qed.
